(** * Selextract Cloud worker core: proxy pool, field extraction,
      pagination, retry orchestration and task-schema validation.

    A shallow embedding of [src/worker/proxies.py], [src/worker/tasks.py]
    and [src/worker/task_schemas.py].  Python objects that are mutated in
    place become explicit state that every operation takes and returns;
    the browser, the clock and the filesystem are oracles passed in as
    arguments; an exception is a value of a sum type.  Logging calls and
    [asyncio.sleep] delays have no effect on any modelled state and are
    left out. *)

From Stdlib Require Import QArith Qminmax.
From Stdlib Require Import Ascii String.
From stdpp Require Import gmap strings list fin_maps pretty.

Open Scope string_scope.
Open Scope list_scope.

(* ===================================================================== *)
(** * Python-level helpers                                                *)
(* ===================================================================== *)

(** Exceptions that reach the modelled code.  [PlaywrightTimeoutError] is
    the one subclass the worker distinguishes; [Exception] stands for any
    other exception object, carrying [str(e)]; [ScrapingError] and
    [TaskValidationError] are the exception classes of tasks.py and
    task_schemas.py; [ValidationError] is pydantic's, raised when a
    [TaskResult] is built or assigned a value its schema refuses. *)
Inductive PyExc :=
  | KeyError (key : string)
  | PlaywrightTimeoutError (msg : string)
  | Exception (msg : string)
  | ScrapingError (message error_type : string) (retryable : bool)
  | TaskValidationError (message : string)
  | ValidationError (message : string).

(** [str(e)] *)
Definition exc_str (e : PyExc) : string :=
  match e with
  | KeyError k => k
  | PlaywrightTimeoutError m => m
  | Exception m => m
  | ScrapingError m _ _ => m
  | TaskValidationError m => m
  | ValidationError m => m
  end.

(** The result of a call that may raise. *)
Inductive res (E A : Type) :=
  | Ret (a : A)
  | Raise (e : E).
Arguments Ret {E A} a.
Arguments Raise {E A} e.

(** Truthiness of an [Optional[str]]: [None] and the empty string are
    falsy. *)
Definition truthy (o : option string) : bool :=
  match o with
  | Some s => negb (String.eqb s "")
  | None => false
  end.

(** [str.upper] and [str.lower] on the ASCII range. *)
Definition upper_ascii (c : ascii) : ascii :=
  let n := nat_of_ascii c in
  if (97 <=? n)%nat && (n <=? 122)%nat then ascii_of_nat (n - 32) else c.

Definition lower_ascii (c : ascii) : ascii :=
  let n := nat_of_ascii c in
  if (65 <=? n)%nat && (n <=? 90)%nat then ascii_of_nat (n + 32) else c.

Fixpoint upper (s : string) : string :=
  match s with
  | EmptyString => EmptyString
  | String c r => String (upper_ascii c) (upper r)
  end.

Fixpoint lower (s : string) : string :=
  match s with
  | EmptyString => EmptyString
  | String c r => String (lower_ascii c) (lower r)
  end.

(** [needle in haystack] on strings. *)
Fixpoint contains (needle haystack : string) : bool :=
  String.prefix needle haystack ||
  match haystack with
  | EmptyString => false
  | String _ r => contains needle r
  end.

(** [list.remove(x)]: drops the first occurrence only. *)
Fixpoint list_remove (x : string) (l : list string) : list string :=
  match l with
  | [] => []
  | y :: r => if decide (x = y) then r else y :: list_remove x r
  end.

(** [x in l] on a list of strings. *)
Definition list_mem (x : string) (l : list string) : bool :=
  bool_decide (x ∈ l).

(* ===================================================================== *)
(** * proxies.py                                                          *)
(* ===================================================================== *)

(** [@dataclass ProxyEndpoint].  Timestamps are clock readings handed in
    by the caller; [response_time] is a float, held as a rational. *)
Record ProxyEndpoint := mkProxyEndpoint {
  host : string;
  port : Z;
  username : string;
  password : string;
  country : option string;
  city : option string;
  is_healthy : bool;
  failure_count : nat;
  last_checked : option Z;
  response_time : option Q;
  last_used : option Z
}.

(** [f"{proxy.host}:{proxy.port}"], the key under which an endpoint is
    stored. *)
Definition proxy_id (p : ProxyEndpoint) : string :=
  host p +:+ ":" +:+ pretty (port p).

Definition set_last_used (now : Z) (p : ProxyEndpoint) : ProxyEndpoint :=
  mkProxyEndpoint (host p) (port p) (username p) (password p) (country p)
    (city p) (is_healthy p) (failure_count p) (last_checked p)
    (response_time p) (Some now).

(** [failure_count += 1; is_healthy = False] *)
Definition set_failed (p : ProxyEndpoint) : ProxyEndpoint :=
  mkProxyEndpoint (host p) (port p) (username p) (password p) (country p)
    (city p) false (S (failure_count p)) (last_checked p)
    (response_time p) (last_used p).

(** [failure_count = 0; is_healthy = True] *)
Definition set_succeeded (p : ProxyEndpoint) : ProxyEndpoint :=
  mkProxyEndpoint (host p) (port p) (username p) (password p) (country p)
    (city p) true 0 (last_checked p) (response_time p) (last_used p).

(** The writes of one health probe ([_check_single_proxy], and the loop
    body of [_perform_health_check_sync]). *)
Definition set_checked (ok : bool) (rt : Q) (now : Z) (p : ProxyEndpoint)
  : ProxyEndpoint :=
  mkProxyEndpoint (host p) (port p) (username p) (password p) (country p)
    (city p) ok (if ok then 0 else S (failure_count p)) (Some now)
    (Some rt) (last_used p).

(** [self.stats] *)
Record Stats := mkStats {
  total_requests : nat;
  failed_requests : nat;
  proxy_switches : nat;
  last_refresh : option Z
}.

(** The mutable attributes of [ProxyManager].  [last_proxy] is the
    attribute [_last_proxy], which does not exist ([hasattr] is false)
    until [get_proxy] first assigns it. *)
Record ProxyManager := mkProxyManager {
  proxies : gmap string ProxyEndpoint;
  healthy_proxies : list string;
  current_proxy_index : nat;
  last_proxy : option string;
  stats : Stats;
  max_failures : nat;
  country_preference : option string
}.

(** [ProxyManager.__init__] *)
Definition new_ProxyManager (max_fail : nat) (pref : option string)
  : ProxyManager :=
  mkProxyManager ∅ [] 0 None (mkStats 0 0 0 None) max_fail pref.

Definition with_proxies (m : gmap string ProxyEndpoint) (pm : ProxyManager) :=
  mkProxyManager m (healthy_proxies pm) (current_proxy_index pm)
    (last_proxy pm) (stats pm) (max_failures pm) (country_preference pm).

Definition with_healthy (h : list string) (pm : ProxyManager) :=
  mkProxyManager (proxies pm) h (current_proxy_index pm)
    (last_proxy pm) (stats pm) (max_failures pm) (country_preference pm).

Definition with_stats (s : Stats) (pm : ProxyManager) :=
  mkProxyManager (proxies pm) (healthy_proxies pm) (current_proxy_index pm)
    (last_proxy pm) s (max_failures pm) (country_preference pm).

(** The round-robin branch: [current_proxy_index += 1] and
    [_last_proxy = proxy_id]. *)
Definition advance (pid : string) (pm : ProxyManager) :=
  mkProxyManager (proxies pm) (healthy_proxies pm)
    (S (current_proxy_index pm)) (Some pid) (stats pm) (max_failures pm)
    (country_preference pm).

(** The list comprehension of [get_proxy]: the healthy ids whose endpoint
    has the requested country.  [self.proxies[proxy_id]] raises
    [KeyError] on an id that is not a key. *)
Fixpoint country_proxies (m : gmap string ProxyEndpoint) (c : string)
    (ids : list string) : res PyExc (list string) :=
  match ids with
  | [] => Ret []
  | pid :: rest =>
      match m !! pid with
      | None => Raise (KeyError pid)
      | Some p =>
          match country_proxies m c rest with
          | Raise e => Raise e
          | Ret r =>
              Ret (if bool_decide (country p = Some (upper c))
                   then pid :: r else r)
          end
      end
  end.

(** The tail of [get_proxy] once [proxy_id] is chosen: look the endpoint
    up, stamp [last_used], return it. *)
Definition serve (pid : string) (now : Z) (pm : ProxyManager)
  : res PyExc (option ProxyEndpoint) * ProxyManager :=
  match proxies pm !! pid with
  | None => (Raise (KeyError pid), pm)
  | Some p =>
      let p' := set_last_used now p in
      (Ret (Some p'), with_proxies (<[pid := p']> (proxies pm)) pm)
  end.

(** The selection step of [get_proxy] over [available_proxies]. *)
Definition select (available : list string) (sticky_session : bool)
    (now : Z) (pm : ProxyManager)
  : res PyExc (option ProxyEndpoint) * ProxyManager :=
  match available with
  | [] => (Ret None, pm)
  | _ :: _ =>
      let stick :=
        match last_proxy pm with
        | Some lp => sticky_session && list_mem lp available
        | None => false
        end in
      if stick then
        match last_proxy pm with
        | Some lp => serve lp now pm
        | None => (Ret None, pm)
        end
      else
        match available !! (current_proxy_index pm mod length available) with
        | Some pid => serve pid now (advance pid pm)
        | None => (Ret None, pm)
        end
  end.

(** The value of the local [available_proxies] in [get_proxy]: the
    country subset when a country is given and that subset is not empty,
    the whole healthy list otherwise. *)
Definition available_proxies (cntry : option string) (pm : ProxyManager)
  : res PyExc (list string) :=
  if truthy cntry then
    match country_proxies (proxies pm) (default "" cntry)
            (healthy_proxies pm) with
    | Raise e => Raise e
    | Ret [] => Ret (healthy_proxies pm)
    | Ret (c :: cs) => Ret (c :: cs)
    end
  else Ret (healthy_proxies pm).

(** [ProxyManager.get_proxy(country, sticky_session)].  The result is the
    endpoint object stored in [proxies] (after its [last_used] stamp),
    [None], or a raised [KeyError]. *)
Definition get_proxy (cntry : option string) (sticky_session : bool)
    (now : Z) (pm : ProxyManager)
  : res PyExc (option ProxyEndpoint) * ProxyManager :=
  match healthy_proxies pm with
  | [] => (Ret None, pm)
  | _ :: _ =>
      match available_proxies cntry pm with
      | Raise e => (Raise e, pm)
      | Ret available => select available sticky_session now pm
      end
  end.

Definition bump_failed (s : Stats) : Stats :=
  mkStats (total_requests s) (S (failed_requests s)) (proxy_switches s)
    (last_refresh s).

Definition bump_switches (s : Stats) : Stats :=
  mkStats (total_requests s) (failed_requests s) (S (proxy_switches s))
    (last_refresh s).

Definition bump_total (s : Stats) : Stats :=
  mkStats (S (total_requests s)) (failed_requests s) (proxy_switches s)
    (last_refresh s).

(** [ProxyManager.mark_proxy_failed(proxy)] *)
Definition mark_proxy_failed (proxy : ProxyEndpoint) (pm : ProxyManager)
  : ProxyManager :=
  let pid := proxy_id proxy in
  let pm1 :=
    match proxies pm !! pid with
    | Some p =>
        let pm' := with_proxies (<[pid := set_failed p]> (proxies pm)) pm in
        if list_mem pid (healthy_proxies pm')
        then with_stats (bump_switches (stats pm'))
               (with_healthy (list_remove pid (healthy_proxies pm')) pm')
        else pm'
    | None => pm
    end in
  with_stats (bump_failed (stats pm1)) pm1.

(** [ProxyManager.mark_proxy_success(proxy)] *)
Definition mark_proxy_success (proxy : ProxyEndpoint) (pm : ProxyManager)
  : ProxyManager :=
  let pid := proxy_id proxy in
  let pm1 :=
    match proxies pm !! pid with
    | Some p =>
        let pm' := with_proxies (<[pid := set_succeeded p]> (proxies pm)) pm in
        if list_mem pid (healthy_proxies pm')
        then pm'
        else with_healthy (healthy_proxies pm' ++ [pid]) pm'
    | None => pm
    end in
  with_stats (bump_total (stats pm1)) pm1.

(** [_check_single_proxy(proxy_id, proxy)] for an endpoint stored under
    [pid], given the probe's outcome [(ok, rt)]; also the loop body of
    [_perform_health_check_sync]. *)
Definition check_single_proxy (pid : string) (ok : bool) (rt : Q) (now : Z)
    (pm : ProxyManager) : ProxyManager :=
  match proxies pm !! pid with
  | None => pm
  | Some p =>
      let pm' :=
        with_proxies (<[pid := set_checked ok rt now p]> (proxies pm)) pm in
      if ok then
        if list_mem pid (healthy_proxies pm') then pm'
        else with_healthy (healthy_proxies pm' ++ [pid]) pm'
      else
        if list_mem pid (healthy_proxies pm')
        then with_healthy (list_remove pid (healthy_proxies pm')) pm'
        else pm'
  end.

(** [self.proxies[proxy_id] = endpoint], the loop body of [initialize]
    and (for a new id) of [refresh_proxy_list]. *)
Definition add_endpoint (e : ProxyEndpoint) (pm : ProxyManager)
  : ProxyManager :=
  with_proxies (<[proxy_id e := e]> (proxies pm)) pm.

(** The removal loop body of [refresh_proxy_list]. *)
Definition remove_endpoint (pid : string) (pm : ProxyManager)
  : ProxyManager :=
  let pm' := with_proxies (delete pid (proxies pm)) pm in
  if list_mem pid (healthy_proxies pm')
  then with_healthy (list_remove pid (healthy_proxies pm')) pm'
  else pm'.

(** The states a [ProxyManager] goes through: it starts as [__init__]
    leaves it and changes only by the methods above.  [initialize] and
    [refresh_proxy_list] are sequences of [add_endpoint],
    [remove_endpoint] and [check_single_proxy] steps. *)
Inductive reachable : ProxyManager → Prop :=
  | reach_new mf pref : reachable (new_ProxyManager mf pref)
  | reach_add e pm : reachable pm → reachable (add_endpoint e pm)
  | reach_remove pid pm :
      reachable pm → pid ∈ dom (proxies pm) →
      reachable (remove_endpoint pid pm)
  | reach_check pid ok rt now pm :
      reachable pm → reachable (check_single_proxy pid ok rt now pm)
  | reach_get c sticky now pm :
      reachable pm → reachable (get_proxy c sticky now pm).2
  | reach_failed p pm : reachable pm → reachable (mark_proxy_failed p pm)
  | reach_success p pm : reachable pm → reachable (mark_proxy_success p pm).


(** A small pool used in the examples: two endpoints in the US, both
    probed healthy. *)
Definition proxy_a : ProxyEndpoint :=
  mkProxyEndpoint "10.0.0.1" 8080 "user" "pw" (Some "US") None true 0
    None None None.

Definition proxy_b : ProxyEndpoint :=
  mkProxyEndpoint "10.0.0.2" 8080 "user" "pw" (Some "US") None true 0
    None None None.

Definition pool_ab : ProxyManager :=
  check_single_proxy "10.0.0.2:8080" true 40 1
    (check_single_proxy "10.0.0.1:8080" true 35 1
       (add_endpoint proxy_b (add_endpoint proxy_a (new_ProxyManager 3 None)))).


(* ===================================================================== *)
(** * task_schemas.py: the validated models                               *)
(* ===================================================================== *)

Inductive FieldType := TEXT | ATTRIBUTE | LINK | IMAGE.

(** [WaitCondition]; its fields carry a [wait_] prefix where the name is
    shared with another model. *)
Record WaitCondition := mkWaitCondition {
  wait_type : string;
  wait_selector : option string;
  wait_timeout : option Z;
  network_idle : option bool
}.

Record FieldConfig := mkFieldConfig {
  name : string;
  type : FieldType;
  selector : string;
  attribute : option string;
  multiple : bool;
  required : bool;
  default_value : option string
}.

Record PaginationConfig := mkPaginationConfig {
  enabled : bool;
  next_selector : option string;
  max_pages : Z;
  wait_after_click : Z;
  stop_condition : option string
}.

Record RateLimitConfig := mkRateLimitConfig {
  requests_per_minute : Z;
  delay_between_requests : Z;
  random_delay : bool;
  max_random_delay : Z
}.

(** [ProxyConfig]; [enabled], [country] and [max_failures] carry a
    [proxy_] prefix here. *)
Record ProxyConfig := mkProxyConfig {
  proxy_enabled : bool;
  proxy_country : option string;
  sticky_session : bool;
  proxy_max_failures : Z
}.

Record BrowserConfig := mkBrowserConfig {
  headless : bool;
  user_agent : option string;
  viewport_width : Z;
  viewport_height : Z;
  javascript_enabled : bool;
  load_images : bool;
  timeout : Z
}.

Record TaskConfig := mkTaskConfig {
  url : string;
  fields : list FieldConfig;
  pagination : PaginationConfig;
  rate_limit : RateLimitConfig;
  proxy : ProxyConfig;
  browser : BrowserConfig;
  wait_conditions : list WaitCondition;
  custom_headers : list (string * string);
  cookies : list (string * string);
  login_required : bool;
  max_retries : Z;
  retry_delay : Z
}.

Inductive Status := completed | failed | partial.

(** A value bound in a page's extraction dict: [None], a string, or the
    list built for a [multiple] field. *)
Inductive Value :=
  | VNone
  | VStr (s : string)
  | VList (l : list string).

Definition of_optional (o : option string) : Value :=
  match o with
  | Some s => VStr s
  | None => VNone
  end.

(** [TaskResult].  [status] is a required field of the schema
    ([Field(...)], no default): every [TaskResult] object has one. *)
Record TaskResult := mkTaskResult {
  task_id : string;
  status : Status;
  data : list (gmap string Value);
  pages_scraped : Z;
  total_records : Z;
  compute_units_used : Q;
  execution_time : Q;
  errors : list string;
  warnings : list string;
  metadata : list (string * string)
}.

(** [str(e)] of a pydantic [ValidationError] that reports one error on
    [field] of [model]. *)
Definition newline : string := String (ascii_of_nat 10) EmptyString.

Definition validation_error_text (model field message : string) : string :=
  "1 validation error for " +:+ model +:+ newline +:+ field +:+ newline
  +:+ "  " +:+ message.

(** [TaskResult(task_id=tid, status=st)] with the other fields left to
    their defaults; [st = None] is the call without [status], which the
    schema refuses. *)
Definition TaskResult_init (tid : string) (st : option Status)
  : res PyExc TaskResult :=
  match st with
  | Some s => Ret (mkTaskResult tid s [] 0 0 0 0 [] [] [])
  | None =>
      Raise (ValidationError
               (validation_error_text "TaskResult" "status"
                  "field required (type=value_error.missing)"))
  end.

(** [TaskResult(task_id=task_id)], the call in [execute_task]. *)
Definition new_TaskResult (tid : string) : res PyExc TaskResult :=
  TaskResult_init tid None.

(** Example: the result object [TaskResult(task_id=tid,
    status="completed")], which is what the test suite expects
    [TaskResult(task_id=tid)] to be. *)
Definition fresh_result (tid : string) : TaskResult :=
  mkTaskResult tid completed [] 0 0 0 0 [] [] [].

(* ===================================================================== *)
(** * tasks.py: the browser as an oracle                                  *)
(* ===================================================================== *)

(** A Playwright [ElementHandle]: what each call on it answers. *)
Record Element := mkElement {
  inner_text : res PyExc string;
  get_attribute : option string → res PyExc (option string);
  is_disabled : res PyExc bool;
  is_visible : res PyExc bool;
  click : res PyExc unit
}.

(** A Playwright [Page] showing one document: what each call on it
    answers.  [wait_for_load_state] is the wait that follows a click on
    this document. *)
Record Page := mkPage {
  query_selector : string → res PyExc (option Element);
  query_selector_all : string → res PyExc (list Element);
  evaluate : string → res PyExc string;
  wait_for_load_state : res PyExc unit
}.

(** One scraping attempt as the browser plays it: the outcome of the
    navigation to the start URL (the body of [navigate_to_page]'s [try]),
    and the document shown while the pagination counter is [n]. *)
Record Session := mkSession {
  goto : res PyExc unit;
  page_at : Z → Page
}.

Definition dquote : string := String (ascii_of_nat 34) EmptyString.

(** [f'new URL("{href}", location.href).href'] *)
Definition absolute_url_js (href : string) : string :=
  "new URL(" +:+ dquote +:+ href +:+ dquote +:+ ", location.href).href".

(* ===================================================================== *)
(** * tasks.py: DataExtractor                                             *)
(* ===================================================================== *)

(** The [try] body of [_extract_element_value]. *)
Definition extract_element_value_body (page : Page) (element : Element)
    (field : FieldConfig) : res PyExc (option string) :=
  match type field with
  | TEXT =>
      match inner_text element with
      | Ret s => Ret (Some s)
      | Raise e => Raise e
      end
  | ATTRIBUTE => get_attribute element (attribute field)
  | LINK =>
      match get_attribute element
              (Some (if truthy (attribute field)
                     then default "" (attribute field) else "href")) with
      | Raise e => Raise e
      | Ret href =>
          if truthy href then
            match evaluate page (absolute_url_js (default "" href)) with
            | Ret u => Ret (Some u)
            | Raise e => Raise e
            end
          else Ret href
      end
  | IMAGE =>
      match get_attribute element
              (Some (if truthy (attribute field)
                     then default "" (attribute field) else "src")) with
      | Raise e => Raise e
      | Ret src =>
          if truthy src then
            match evaluate page (absolute_url_js (default "" src)) with
            | Ret u => Ret (Some u)
            | Raise e => Raise e
            end
          else Ret src
      end
  end.

(** [DataExtractor._extract_element_value]: any exception becomes
    [None]. *)
Definition extract_element_value (page : Page) (element : Element)
    (field : FieldConfig) : option string :=
  match extract_element_value_body page element field with
  | Ret v => v
  | Raise _ => None
  end.

(** The inner loop of [_extract_single_field] for a [multiple] field:
    falsy values are dropped. *)
Fixpoint collect_values (page : Page) (elements : list Element)
    (field : FieldConfig) : list string :=
  match elements with
  | [] => []
  | element :: rest =>
      let value := extract_element_value page element field in
      if truthy value
      then default "" value :: collect_values page rest field
      else collect_values page rest field
  end.

(** The [try] body of [_extract_single_field]. *)
Definition extract_single_field_body (page : Page) (field : FieldConfig)
  : res PyExc Value :=
  if multiple field then
    match query_selector_all page (selector field) with
    | Raise e => Raise e
    | Ret elements => Ret (VList (collect_values page elements field))
    end
  else
    match query_selector page (selector field) with
    | Raise e => Raise e
    | Ret (Some element) =>
        Ret (of_optional (extract_element_value page element field))
    | Ret None => Ret (of_optional (default_value field))
    end.

(** [DataExtractor._extract_single_field]: any exception becomes the
    field's [default_value]. *)
Definition extract_single_field (page : Page) (field : FieldConfig)
  : res PyExc Value :=
  match extract_single_field_body page field with
  | Ret v => Ret v
  | Raise _ => Ret (of_optional (default_value field))
  end.

(** The body of the [for] in [extract_fields]: what gets bound to
    [field.name]. *)
Definition bound_value (page : Page) (field : FieldConfig) : Value :=
  match extract_single_field page field with
  | Ret value => value
  | Raise _ =>
      if required field then of_optional (default_value field) else VNone
  end.

(** [DataExtractor.extract_fields], threading the dict built so far. *)
Fixpoint extract_fields_from (extracted_data : gmap string Value)
    (page : Page) (fs : list FieldConfig) : gmap string Value :=
  match fs with
  | [] => extracted_data
  | field :: rest =>
      extract_fields_from
        (<[name field := bound_value page field]> extracted_data) page rest
  end.

Definition extract_fields (page : Page) (fs : list FieldConfig)
  : gmap string Value :=
  extract_fields_from ∅ page fs.

(* ===================================================================== *)
(** * tasks.py: PaginationHandler                                         *)
(* ===================================================================== *)

(** [page.query_selector(sel)] for an [Optional[str]] selector;
    Playwright rejects [None]. *)
Definition query_optional (page : Page) (sel : option string)
  : res PyExc (option Element) :=
  match sel with
  | Some s => query_selector page s
  | None => Raise (Exception "selector: expected string, got object")
  end.

(** The part of [has_next_page] after the stop condition: the check of
    the next-page element. *)
Definition next_element_ready (config : PaginationConfig) (page : Page)
  : res PyExc bool :=
  if truthy (next_selector config) then
    match query_optional page (next_selector config) with
    | Raise e => Raise e
    | Ret None => Ret false
    | Ret (Some next_element) =>
        match is_disabled next_element with
        | Raise e => Raise e
        | Ret dis =>
            match is_visible next_element with
            | Raise e => Raise e
            | Ret vis => Ret (negb dis && vis)
            end
        end
    end
  else Ret false.

(** [PaginationHandler.has_next_page] with the handler's [current_page]
    and the document it looks at. *)
Definition has_next_page (config : PaginationConfig) (current_page : Z)
    (page : Page) : res PyExc bool :=
  if negb (enabled config) then Ret false
  else if (max_pages config <=? current_page)%Z then Ret false
  else if truthy (stop_condition config) then
    match query_optional page (stop_condition config) with
    | Raise e => Raise e
    | Ret (Some _) => Ret false
    | Ret None => next_element_ready config page
    end
  else next_element_ready config page.

(** The [try] body of [go_to_next_page]: the answer and the new
    [current_page]. *)
Definition go_to_next_page_body (config : PaginationConfig)
    (current_page : Z) (page : Page) : res PyExc (bool * Z) :=
  match has_next_page config current_page page with
  | Raise e => Raise e
  | Ret false => Ret (false, current_page)
  | Ret true =>
      match query_optional page (next_selector config) with
      | Raise e => Raise e
      | Ret None => Ret (false, current_page)
      | Ret (Some next_element) =>
          match click next_element with
          | Raise e => Raise e
          | Ret _ =>
              match wait_for_load_state page with
              | Raise e => Raise e
              | Ret _ => Ret (true, (current_page + 1)%Z)
              end
          end
      end
  end.

(** [PaginationHandler.go_to_next_page]: any exception becomes
    [False]. *)
Definition go_to_next_page (config : PaginationConfig) (current_page : Z)
    (page : Page) : bool * Z :=
  match go_to_next_page_body config current_page page with
  | Ret r => r
  | Raise _ => (false, current_page)
  end.

(** A document on which no selector matches anything, and two fields
    used in the examples. *)
Definition blank_page : Page :=
  mkPage (λ _, Ret None) (λ _, Ret [])
    (λ _, Raise (Exception "evaluate")) (Ret tt).

Definition field_price : FieldConfig :=
  mkFieldConfig "price" TEXT ".price" None false true (Some "n/a").

Definition field_tags : FieldConfig :=
  mkFieldConfig "tags" TEXT ".tag" None true true (Some "n/a").

(* ===================================================================== *)
(** * tasks.py: ScrapingWorker._execute_scraping                          *)
(* ===================================================================== *)

(** [result.data.append(page_data); result.pages_scraped += 1] *)
Definition record_page (page_data : gmap string Value) (r : TaskResult)
  : TaskResult :=
  mkTaskResult (task_id r) (status r) (data r ++ [page_data])
    (pages_scraped r + 1)%Z (total_records r) (compute_units_used r)
    (execution_time r) (errors r) (warnings r) (metadata r).

(** The [while True] loop of [_execute_scraping], unrolled at most
    [fuel] times; [None] when [fuel] runs out before the loop breaks.
    [current_page] is the counter of the [PaginationHandler]. *)
Fixpoint scrape_pages (fuel : nat) (session : Session) (cfg : TaskConfig)
    (current_page : Z) (result : TaskResult)
  : option (res PyExc unit * TaskResult) :=
  match fuel with
  | O => None
  | S fuel' =>
      let page := page_at session current_page in
      let result' := record_page (extract_fields page (fields cfg)) result in
      match has_next_page (pagination cfg) current_page page with
      | Raise e => Some (Raise e, result')
      | Ret false => Some (Ret tt, result')
      | Ret true =>
          match go_to_next_page (pagination cfg) current_page page with
          | (false, _) => Some (Ret tt, result')
          | (true, next_page) =>
              scrape_pages fuel' session cfg next_page result'
          end
      end
  end.

(** The two [except] clauses of [_execute_scraping]: every exception
    leaves as a retryable [ScrapingError]. *)
Definition reraise (e : PyExc) : PyExc :=
  match e with
  | PlaywrightTimeoutError m =>
      ScrapingError ("Page timeout: " +:+ m) "timeout" true
  | _ =>
      let error_message := exc_str e in
      if contains "proxy" (lower error_message)
         || contains "connection" (lower error_message)
         || contains "network" (lower error_message)
      then ScrapingError ("Proxy error: " +:+ error_message)
             "proxy_failure" true
      else ScrapingError ("Scraping error: " +:+ error_message)
             "scraping" true
  end.

(** [BrowserManager.navigate_to_page] wraps whatever went wrong. *)
Definition navigate_to_page (session : Session) : res PyExc unit :=
  match goto session with
  | Ret _ => Ret tt
  | Raise e =>
      Raise (ScrapingError ("Failed to navigate to page: " +:+ exc_str e)
               "navigation" true)
  end.

(** The loop cannot run more often than this. *)
Definition page_fuel (cfg : TaskConfig) : nat :=
  S (Z.to_nat (max_pages (pagination cfg))).

(** [ScrapingWorker._execute_scraping] on the session of this attempt:
    how it ends, and the result object as it leaves it. *)
Definition execute_scraping (session : Session) (cfg : TaskConfig)
    (result : TaskResult) : option (res PyExc unit * TaskResult) :=
  match navigate_to_page session with
  | Raise e => Some (Raise (reraise e), result)
  | Ret _ =>
      match scrape_pages (page_fuel cfg) session cfg 1 result with
      | None => None
      | Some (Raise e, r) => Some (Raise (reraise e), r)
      | Some (Ret _, r) => Some (Ret tt, r)
      end
  end.

(** The page dicts of the documents numbered [first .. first+count-1]. *)
Definition pages_data (session : Session) (cfg : TaskConfig)
    (first count : Z) : list (gmap string Value) :=
  (λ k, extract_fields (page_at session k) (fields cfg)) <$> seqZ first count.

(** "A next page is always reported available": while the page limit is
    not reached, [has_next_page] answers [True] and the click through to
    the next document succeeds. *)
Definition next_always_available (session : Session) (cfg : TaskConfig)
  : Prop :=
  ∀ k, (1 ≤ k < max_pages (pagination cfg))%Z →
    has_next_page (pagination cfg) k (page_at session k) = Ret true ∧
    go_to_next_page (pagination cfg) k (page_at session k)
    = (true, (k + 1)%Z).

(** The schema's defaults ([default_factory] of each sub-model). *)
Definition default_PaginationConfig : PaginationConfig :=
  mkPaginationConfig false None 10 2000 None.

Definition default_RateLimitConfig : RateLimitConfig :=
  mkRateLimitConfig 30 1000 true 2000.

Definition default_ProxyConfig : ProxyConfig :=
  mkProxyConfig false None false 3.

Definition default_BrowserConfig : BrowserConfig :=
  mkBrowserConfig true None 1920 1080 true false 30000.

(** Example: a listing whose every document shows an enabled, visible
    "next" link and never the end marker, scraped with
    [pagination = {enabled: true, next_selector: ".next", max_pages: 3,
    stop_condition: ".end"}]. *)
Definition next_link : Element :=
  mkElement (Ret "next") (λ _, Ret None) (Ret false) (Ret true) (Ret tt).

Definition listing_page : Page :=
  mkPage (λ sel, if String.eqb sel ".next" then Ret (Some next_link)
                 else Ret None)
    (λ _, Ret []) (λ _, Raise (Exception "evaluate")) (Ret tt).

Definition endless_listing : Session :=
  mkSession (Ret tt) (λ _, listing_page).

Definition three_pages_config : TaskConfig :=
  mkTaskConfig "https://example.com" [field_price]
    (mkPaginationConfig true (Some ".next") 3 2000 (Some ".end"))
    default_RateLimitConfig default_ProxyConfig default_BrowserConfig
    [] [] [] false 2 5000.

(* ===================================================================== *)
(** * task_schemas.py: validation of an untrusted configuration           *)
(* ===================================================================== *)

(** The input is the parsed JSON object.  For every key the model keeps
    whether it is present: [None] is an absent key; for a key whose value
    may be [null], [Some None] is an explicit [null].  Values are taken
    to be of the JSON type the schema declares.

    The models are pydantic models, and pydantic decides when a
    [@validator] method runs: a field validator declared without
    [always=True] is called only for a key that is present in the input;
    for an absent key the declared default is stored as it is.  No
    validator in task_schemas.py sets [always=True]. *)

Record VError := mkVError {
  loc : list string;
  msg : string
}.

Definition errors_of {A} (r : res (list VError) A) : list VError :=
  match r with
  | Ret _ => []
  | Raise es => es
  end.

(** Validation goes on after a failure and reports every error. *)
Definition both {A B} (a : res (list VError) A) (b : res (list VError) B)
  : res (list VError) (A * B) :=
  match a, b with
  | Ret x, Ret y => Ret (x, y)
  | _, _ => Raise (errors_of a ++ errors_of b)
  end.

(** Errors of a nested model are located under the key that holds it. *)
Definition under {A} (key : string) (r : res (list VError) A)
  : res (list VError) A :=
  match r with
  | Ret a => Ret a
  | Raise es => Raise ((λ e, mkVError (key :: loc e) (msg e)) <$> es)
  end.

Definition fail {A} (key message : string) : res (list VError) A :=
  Raise [mkVError [key] message].

(** A required key. *)
Definition required_key {A} (key : string) (raw : option A)
  : res (list VError) A :=
  match raw with
  | Some v => Ret v
  | None => fail key "field required"
  end.

(** An optional key with a default. *)
Definition with_default {A} (dflt : A) (raw : option A) : A :=
  default dflt raw.

(** [Field(dflt, ge=lo, le=hi)] on an integer: the bounds are checked on
    a value that is present. *)
Definition bounded (key : string) (lo hi dflt : Z) (raw : option Z)
  : res (list VError) Z :=
  match raw with
  | None => Ret dflt
  | Some v =>
      if (v <? lo)%Z then
        fail key ("ensure this value is greater than or equal to "
                  +:+ pretty lo)
      else if (hi <? v)%Z then
        fail key ("ensure this value is less than or equal to "
                  +:+ pretty hi)
      else Ret v
  end.

(** [Field(..., min_length=lo, max_length=hi)] on a required string;
    [hi = None] is no upper bound. *)
Definition required_str (key : string) (lo : nat) (hi : option nat)
    (raw : option string) : res (list VError) string :=
  match raw with
  | None => fail key "field required"
  | Some v =>
      if (String.length v <? lo)%nat then
        fail key ("ensure this value has at least " +:+ pretty lo
                  +:+ " characters")
      else
        match hi with
        | Some h =>
            if (h <? String.length v)%nat then
              fail key ("ensure this value has at most " +:+ pretty h
                        +:+ " characters")
            else Ret v
        | None => Ret v
        end
  end.

Record RawField := mkRawField {
  raw_name : option string;
  raw_type : option string;
  raw_selector : option string;
  raw_attribute : option (option string);
  raw_multiple : option bool;
  raw_required : option bool;
  raw_default_value : option (option string)
}.

Record RawPagination := mkRawPagination {
  raw_enabled : option bool;
  raw_next_selector : option (option string);
  raw_max_pages : option Z;
  raw_wait_after_click : option Z;
  raw_stop_condition : option (option string)
}.

Record RawRateLimit := mkRawRateLimit {
  raw_requests_per_minute : option Z;
  raw_delay_between_requests : option Z;
  raw_random_delay : option bool;
  raw_max_random_delay : option Z
}.

Record RawProxy := mkRawProxy {
  raw_proxy_enabled : option bool;
  raw_proxy_country : option (option string);
  raw_sticky_session : option bool;
  raw_proxy_max_failures : option Z
}.

Record RawBrowser := mkRawBrowser {
  raw_headless : option bool;
  raw_user_agent : option (option string);
  raw_viewport_width : option Z;
  raw_viewport_height : option Z;
  raw_javascript_enabled : option bool;
  raw_load_images : option bool;
  raw_timeout : option Z
}.

Record RawWait := mkRawWait {
  raw_wait_type : option string;
  raw_wait_selector : option (option string);
  raw_wait_timeout : option (option Z);
  raw_network_idle : option (option bool)
}.

(** The top-level object; [raw_extra] lists the keys that are not fields
    of [TaskConfig]. *)
Record RawTask := mkRawTask {
  raw_url : option string;
  raw_fields : option (list RawField);
  raw_pagination : option RawPagination;
  raw_rate_limit : option RawRateLimit;
  raw_proxy : option RawProxy;
  raw_browser : option RawBrowser;
  raw_wait_conditions : option (list RawWait);
  raw_custom_headers : option (list (string * string));
  raw_cookies : option (list (string * string));
  raw_login_required : option bool;
  raw_max_retries : option Z;
  raw_retry_delay : option Z;
  raw_extra : list string
}.

(** The enum [FieldType] from its value. *)
Definition parse_FieldType (v : string) : option FieldType :=
  if String.eqb v "text" then Some TEXT
  else if String.eqb v "attribute" then Some ATTRIBUTE
  else if String.eqb v "link" then Some LINK
  else if String.eqb v "image" then Some IMAGE
  else None.

(** [FieldConfig.validate_attribute(v, values)]; [field_type] is
    [values.get('type')], which is [None] when [type] did not validate.
    A [ValueError] is returned as its message. *)
Definition validate_attribute (v : option string)
    (field_type : option FieldType) : res string (option string) :=
  match field_type with
  | Some ATTRIBUTE | Some LINK | Some IMAGE =>
      if negb (truthy v) then
        match field_type with
        | Some LINK => Ret (Some "href")
        | Some IMAGE => Ret (Some "src")
        | _ => Raise "attribute is required for type attribute"
        end
      else Ret v
  | _ => Ret v
  end.

(** [PaginationConfig.validate_next_selector(v, values)]; [is_enabled] is
    [values.get('enabled')]. *)
Definition validate_next_selector (v : option string) (is_enabled : bool)
  : res string (option string) :=
  if is_enabled && negb (truthy v)
  then Raise "next_selector is required when pagination is enabled"
  else Ret v.

(** A field validator as pydantic applies it: not at all to an absent
    key, whose default [None] is stored unvalidated. *)
Definition run_validator (key : string)
    (validator : option string → res string (option string))
    (raw : option (option string)) : res (list VError) (option string) :=
  match raw with
  | None => Ret None
  | Some v =>
      match validator v with
      | Ret v' => Ret v'
      | Raise message => fail key message
      end
  end.

(** The constructor call [FieldConfig] on the keys of [raw]. *)
Definition validate_FieldConfig (raw : RawField)
  : res (list VError) FieldConfig :=
  let v_name := required_str "name" 1 (Some 100%nat) (raw_name raw) in
  let v_type :=
    match raw_type raw with
    | None => fail "type" "field required"
    | Some t =>
        match parse_FieldType t with
        | Some ft => Ret ft
        | None => fail "type" "value is not a valid enumeration member"
        end
    end in
  let v_selector := required_str "selector" 1 None (raw_selector raw) in
  let field_type :=
    match v_type with
    | Ret ft => Some ft
    | Raise _ => None
    end in
  let v_attribute :=
    run_validator "attribute" (λ v, validate_attribute v field_type)
      (raw_attribute raw) in
  match both v_name (both v_type (both v_selector v_attribute)) with
  | Raise es => Raise es
  | Ret (n, (t, (sel, attr))) =>
      Ret (mkFieldConfig n t sel attr
             (with_default false (raw_multiple raw))
             (with_default true (raw_required raw))
             (with_default None (raw_default_value raw)))
  end.

(** The constructor call [PaginationConfig] on the keys of [raw]. *)
Definition validate_PaginationConfig (raw : RawPagination)
  : res (list VError) PaginationConfig :=
  let is_enabled := with_default false (raw_enabled raw) in
  let v_next :=
    run_validator "next_selector"
      (λ v, validate_next_selector v is_enabled) (raw_next_selector raw) in
  let v_max := bounded "max_pages" 1 100 10 (raw_max_pages raw) in
  let v_wait :=
    bounded "wait_after_click" 500 10000 2000 (raw_wait_after_click raw) in
  match both v_next (both v_max v_wait) with
  | Raise es => Raise es
  | Ret (next, (mx, wt)) =>
      Ret (mkPaginationConfig is_enabled next mx wt
             (with_default None (raw_stop_condition raw)))
  end.

(** The constructor call [RateLimitConfig] on the keys of [raw]. *)
Definition validate_RateLimitConfig (raw : RawRateLimit)
  : res (list VError) RateLimitConfig :=
  match both (bounded "requests_per_minute" 1 120 30
                (raw_requests_per_minute raw))
          (both (bounded "delay_between_requests" 100 10000 1000
                   (raw_delay_between_requests raw))
                (bounded "max_random_delay" 0 5000 2000
                   (raw_max_random_delay raw))) with
  | Raise es => Raise es
  | Ret (rpm, (dl, mrd)) =>
      Ret (mkRateLimitConfig rpm dl
             (with_default true (raw_random_delay raw)) mrd)
  end.

(** The constructor call [ProxyConfig] on the keys of [raw]. *)
Definition validate_ProxyConfig (raw : RawProxy)
  : res (list VError) ProxyConfig :=
  match bounded "max_failures" 1 10 3 (raw_proxy_max_failures raw) with
  | Raise es => Raise es
  | Ret mf =>
      Ret (mkProxyConfig (with_default false (raw_proxy_enabled raw))
             (with_default None (raw_proxy_country raw))
             (with_default false (raw_sticky_session raw)) mf)
  end.

(** The constructor call [BrowserConfig] on the keys of [raw]. *)
Definition validate_BrowserConfig (raw : RawBrowser)
  : res (list VError) BrowserConfig :=
  match both (bounded "viewport_width" 800 3840 1920
                (raw_viewport_width raw))
          (both (bounded "viewport_height" 600 2160 1080
                   (raw_viewport_height raw))
                (bounded "timeout" 5000 120000 30000 (raw_timeout raw))) with
  | Raise es => Raise es
  | Ret (w, (h, t)) =>
      Ret (mkBrowserConfig (with_default true (raw_headless raw))
             (with_default None (raw_user_agent raw)) w h
             (with_default true (raw_javascript_enabled raw))
             (with_default false (raw_load_images raw)) t)
  end.

(** The constructor call [WaitCondition] on the keys of [raw]. *)
Definition validate_WaitCondition (raw : RawWait)
  : res (list VError) WaitCondition :=
  let v_type :=
    match raw_wait_type raw with
    | None => fail "type" "field required"
    | Some t =>
        if String.eqb t "element" || String.eqb t "timeout"
           || String.eqb t "network"
        then Ret t
        else fail "type" "unexpected value"
    end in
  let v_timeout :=
    match raw_wait_timeout raw with
    | None => Ret (Some 5000%Z)
    | Some None => Ret None
    | Some (Some t) =>
        match bounded "timeout" 1000 60000 5000 (Some t) with
        | Ret t' => Ret (Some t')
        | Raise es => Raise es
        end
    end in
  match both v_type v_timeout with
  | Raise es => Raise es
  | Ret (t, tm) =>
      Ret (mkWaitCondition t (with_default None (raw_wait_selector raw)) tm
             (with_default (Some false) (raw_network_idle raw)))
  end.

(** The items of a list field, each located under its index. *)
Fixpoint validate_items {R A} (validate : R → res (list VError) A)
    (i : nat) (raws : list R) : res (list VError) (list A) :=
  match raws with
  | [] => Ret []
  | raw :: rest =>
      match both (under (pretty i) (validate raw))
              (validate_items validate (S i) rest) with
      | Raise es => Raise es
      | Ret (a, l) => Ret (a :: l)
      end
  end.

(** [TaskConfig.validate_fields(v)]: [len(names) != len(set(names))]. *)
Definition validate_fields (v : list FieldConfig)
  : res string (list FieldConfig) :=
  let field_names := name <$> v in
  if bool_decide (length field_names
                  ≠ size (list_to_set field_names : gset string))
  then Raise "Field names must be unique"
  else Ret v.

(** The [fields] key: required, 1 to 50 items, each a [FieldConfig],
    then [validate_fields] on the list if every item validated. *)
Definition validate_fields_key (raw : option (list RawField))
  : res (list VError) (list FieldConfig) :=
  match raw with
  | None => fail "fields" "field required"
  | Some raws =>
      if (length raws <? 1)%nat then
        fail "fields" "ensure this value has at least 1 items"
      else if (50 <? length raws)%nat then
        fail "fields" "ensure this value has at most 50 items"
      else
        match under "fields" (validate_items validate_FieldConfig 0 raws) with
        | Raise es => Raise es
        | Ret v =>
            match validate_fields v with
            | Ret v' => Ret v'
            | Raise message => fail "fields" message
            end
        end
  end.

(** [TaskConfig.validate_headers(v)] *)
Definition validate_headers (v : list (string * string))
  : res string (list (string * string)) :=
  match v with
  | [] => Ret v
  | _ :: _ =>
      if (20 <? length v)%nat
      then Raise "Maximum 20 custom headers allowed"
      else if existsb (λ kv, (100 <? String.length kv.1)%nat
                             || (500 <? String.length kv.2)%nat) v
      then Raise "Header key/value too long"
      else Ret v
  end.

(** A sub-model key: the default object when absent. *)
Definition submodel {R A} (key : string) (dflt : A)
    (validate : R → res (list VError) A) (raw : option R)
  : res (list VError) A :=
  match raw with
  | None => Ret dflt
  | Some r => under key (validate r)
  end.

Section validation.

(** pydantic's [HttpUrl] type decides which strings are accepted as
    [url]; it is a parameter here. *)
Variable is_http_url : string → bool.

(** The constructor call [TaskConfig] on the keys of [raw]. *)
Definition validate_TaskConfig (raw : RawTask)
  : res (list VError) TaskConfig :=
  let v_url :=
    match raw_url raw with
    | None => fail "url" "field required"
    | Some u =>
        if is_http_url u then Ret u
        else fail "url" "invalid or missing URL scheme"
    end in
  let v_fields := validate_fields_key (raw_fields raw) in
  let v_pagination :=
    submodel "pagination" default_PaginationConfig
      validate_PaginationConfig (raw_pagination raw) in
  let v_rate_limit :=
    submodel "rate_limit" default_RateLimitConfig
      validate_RateLimitConfig (raw_rate_limit raw) in
  let v_proxy :=
    submodel "proxy" default_ProxyConfig validate_ProxyConfig
      (raw_proxy raw) in
  let v_browser :=
    submodel "browser" default_BrowserConfig validate_BrowserConfig
      (raw_browser raw) in
  let v_wait :=
    match raw_wait_conditions raw with
    | None => Ret []
    | Some ws =>
        if (10 <? length ws)%nat then
          fail "wait_conditions" "ensure this value has at most 10 items"
        else under "wait_conditions"
               (validate_items validate_WaitCondition 0 ws)
    end in
  let v_headers :=
    match raw_custom_headers raw with
    | None => Ret []
    | Some h =>
        match validate_headers h with
        | Ret h' => Ret h'
        | Raise message => fail "custom_headers" message
        end
    end in
  let v_max_retries := bounded "max_retries" 0 10 3 (raw_max_retries raw) in
  let v_retry_delay :=
    bounded "retry_delay" 1000 30000 5000 (raw_retry_delay raw) in
  let v_extra : res (list VError) unit :=
    match raw_extra raw with
    | [] => Ret tt
    | keys =>
        Raise ((λ k, mkVError [k] "extra fields not permitted") <$> keys)
    end in
  match both v_url (both v_fields (both v_pagination (both v_rate_limit
          (both v_proxy (both v_browser (both v_wait (both v_headers
          (both v_max_retries (both v_retry_delay v_extra))))))))) with
  | Raise es => Raise es
  | Ret (u, (fs, (pg, (rl, (px, (br, (ws, (hd, (mr, (rd, _)))))))))) =>
      Ret (mkTaskConfig u fs pg rl px br ws hd
             (with_default [] (raw_cookies raw))
             (with_default false (raw_login_required raw)) mr rd)
  end.

(** The text of a validation failure: one line per error. *)
Definition render_errors (es : list VError) : string :=
  foldr (λ e acc,
           foldr (λ k a, k +:+ "." +:+ a) "" (loc e) +:+ " " +:+ msg e
           +:+ "; " +:+ acc) "" es.

(** [validate_task_config(config_dict)]: the [TaskConfig], or a
    [TaskValidationError] whose message carries the errors. *)
Definition validate_task_config (raw : RawTask) : res PyExc TaskConfig :=
  match validate_TaskConfig raw with
  | Ret cfg => Ret cfg
  | Raise es =>
      Raise (TaskValidationError
               ("Task configuration validation failed: "
                +:+ render_errors es))
  end.

End validation.

(** The configuration
    [{"url": "https://example.com",
      "fields": [{"name": "link", "type": "link", "selector": "a"},
                 {"name": "logo", "type": "attribute", "selector": "img"}],
      "pagination": {"enabled": true}}]. *)
Definition raw_link_field : RawField :=
  mkRawField (Some "link") (Some "link") (Some "a") None None None None.

Definition raw_logo_field : RawField :=
  mkRawField (Some "logo") (Some "attribute") (Some "img") None None None
    None.

Definition raw_enabled_pagination : RawPagination :=
  mkRawPagination (Some true) None None None None.

Definition raw_sparse_task : RawTask :=
  mkRawTask (Some "https://example.com")
    (Some [raw_link_field; raw_logo_field]) (Some raw_enabled_pagination)
    None None None None None None None None None [].

(** The same with the keys spelled out as [null]:
    ["attribute": null] in the first field and
    ["next_selector": null] in [pagination]. *)
Definition raw_explicit_task : RawTask :=
  mkRawTask (Some "https://example.com")
    (Some [mkRawField (Some "link") (Some "link") (Some "a") (Some None)
             None None None])
    (Some (mkRawPagination (Some true) (Some None) None None None))
    None None None None None None None None None [].

(** A URL check that accepts the two HTTP schemes. *)
Definition scheme_is_http (u : string) : bool :=
  String.prefix "http://" u || String.prefix "https://" u.

(** A configuration that spells its keys out:
    ["attribute": null] on a link field and a [next_selector]. *)
Definition raw_complete_task : RawTask :=
  mkRawTask (Some "https://example.com")
    (Some [mkRawField (Some "link") (Some "link") (Some "a") (Some None)
             None None None;
           mkRawField (Some "title") (Some "text") (Some "h1") None
             None None None])
    (Some (mkRawPagination (Some true) (Some (Some ".next")) (Some 3%Z)
             None None))
    None None None None None None None (Some 2%Z) None [].

(* ===================================================================== *)
(** * tasks.py: ScrapingWorker                                            *)
(* ===================================================================== *)

(** The attributes of a [ScrapingWorker].  [browser_manager] records
    whether the attribute holds a [BrowserManager] or [None];
    [launches] and [attempts] count the browsers launched and the
    scraping attempts made so far and select what the world answers
    next. *)
Record Worker := mkWorker {
  browser_manager : bool;
  proxy_manager : option ProxyManager;
  current_proxy : option ProxyEndpoint;
  launches : nat;
  attempts : nat
}.

(** [ScrapingWorker()], with [get_proxy_manager()] answering [pm]. *)
Definition new_ScrapingWorker (pm : option ProxyManager) : Worker :=
  mkWorker false pm None 0 0.

(** Everything outside the process that a task execution consults: the
    outcome of the [n]-th browser launch (the [try] body of
    [BrowserManager.initialize]), the session the [n]-th scraping attempt
    plays against, the two [time.time()] readings, the [datetime.now()]
    reading of the proxy pool, and the outcome of writing the result
    file. *)
Record World := mkWorld {
  launch : nat → res PyExc unit;
  session : nat → Session;
  start_time : Q;
  end_time : Q;
  clock : Z;
  save : res PyExc unit
}.

Definition with_manager (pm : option ProxyManager) (wk : Worker) : Worker :=
  mkWorker (browser_manager wk) pm (current_proxy wk) (launches wk)
    (attempts wk).

Definition with_current_proxy (p : option ProxyEndpoint) (wk : Worker)
  : Worker :=
  mkWorker (browser_manager wk) (proxy_manager wk) p (launches wk)
    (attempts wk).

(** [ScrapingWorker._cleanup] *)
Definition cleanup (wk : Worker) : Worker :=
  mkWorker false (proxy_manager wk) (current_proxy wk) (launches wk)
    (attempts wk).

(** [if self.current_proxy and self.proxy_manager:
       self.proxy_manager.mark_proxy_failed(self.current_proxy)] *)
Definition report_failed (wk : Worker) : Worker :=
  match current_proxy wk, proxy_manager wk with
  | Some p, Some pm => with_manager (Some (mark_proxy_failed p pm)) wk
  | _, _ => wk
  end.

(** The same with [mark_proxy_success]. *)
Definition report_success (wk : Worker) : Worker :=
  match current_proxy wk, proxy_manager wk with
  | Some p, Some pm => with_manager (Some (mark_proxy_success p pm)) wk
  | _, _ => wk
  end.

(** The first half of the [try] body of
    [_initialize_browser_with_proxy]: acquire a proxy if proxies are
    enabled and a manager exists. *)
Definition acquire_proxy (w : World) (cfg : TaskConfig) (wk : Worker)
  : res PyExc unit * Worker :=
  match proxy_enabled (proxy cfg), proxy_manager wk with
  | true, Some pm =>
      match get_proxy (proxy_country (proxy cfg))
              (sticky_session (proxy cfg)) (clock w) pm with
      | (Raise e, pm') => (Raise e, with_manager (Some pm') wk)
      | (Ret None, pm') =>
          (Raise (ScrapingError "No healthy proxies available"
                    "proxy_unavailable" true),
           with_current_proxy None (with_manager (Some pm') wk))
      | (Ret (Some p), pm') =>
          (Ret tt, with_current_proxy (Some p) (with_manager (Some pm') wk))
      end
  | _, _ => (Ret tt, wk)
  end.

(** The second half: [self.browser_manager = BrowserManager()] and its
    [initialize], which wraps any failure. *)
Definition launch_browser (w : World) (wk : Worker)
  : res PyExc unit * Worker :=
  let wk' :=
    mkWorker true (proxy_manager wk) (current_proxy wk) (S (launches wk))
      (attempts wk) in
  match launch w (launches wk) with
  | Ret _ => (Ret tt, wk')
  | Raise e =>
      (Raise (ScrapingError ("Failed to initialize browser: " +:+ exc_str e)
                "browser_init" true), wk')
  end.

(** [ScrapingWorker._initialize_browser_with_proxy(task_config,
    retry_count)] with [left = 3 - retry_count] retries left. *)
Fixpoint initialize_browser_with_proxy (w : World) (cfg : TaskConfig)
    (left : nat) (wk : Worker) : res PyExc unit * Worker :=
  let '(outcome, wk1) :=
    match acquire_proxy w cfg wk with
    | (Raise e, wk') => (Raise e, wk')
    | (Ret _, wk') => launch_browser w wk'
    end in
  match outcome with
  | Ret _ => (Ret tt, wk1)
  | Raise e =>
      match left with
      | S left' =>
          initialize_browser_with_proxy w cfg left'
            (cleanup (report_failed wk1))
      | O =>
          (Raise (ScrapingError
                    ("Failed to initialize browser after 3 attempts: "
                     +:+ exc_str e) "browser_init" true), wk1)
      end
  end.

(** [result.warnings.append(w)] *)
Definition add_warning (warning : string) (r : TaskResult) : TaskResult :=
  mkTaskResult (task_id r) (status r) (data r) (pages_scraped r)
    (total_records r) (compute_units_used r) (execution_time r) (errors r)
    (warnings r ++ [warning]) (metadata r).

(** [result.status = st; result.errors.append(e)] *)
Definition fail_with (e : string) (r : TaskResult) : TaskResult :=
  mkTaskResult (task_id r) failed (data r) (pages_scraped r)
    (total_records r) (compute_units_used r) (execution_time r)
    (errors r ++ [e]) (warnings r) (metadata r).

Definition count_attempt (wk : Worker) : Worker :=
  mkWorker (browser_manager wk) (proxy_manager wk) (current_proxy wk)
    (launches wk) (S (attempts wk)).

(** The [while retry_count <= max_retries] loop of
    [_execute_scraping_with_retries], unrolled at most [fuel] times;
    [None] when [fuel] runs out first. *)
Fixpoint retry_loop (fuel : nat) (w : World) (cfg : TaskConfig)
    (retry_count : Z) (wk : Worker) (result : TaskResult)
  : option (res PyExc unit * Worker * TaskResult) :=
  match fuel with
  | O => None
  | S fuel' =>
      if (retry_count <=? max_retries cfg)%Z then
        match execute_scraping (session w (attempts wk)) cfg result with
        | None => None
        | Some (Ret _, r) =>
            Some (Ret tt, report_success (count_attempt wk), r)
        | Some (Raise (ScrapingError m ty retryable), r) =>
            let e := ScrapingError m ty retryable in
            let wk1 := count_attempt wk in
            let retry_count' := (retry_count + 1)%Z in
            if negb retryable || (max_retries cfg <? retry_count')%Z
            then Some (Raise e, wk1, r)
            else
              let r1 :=
                add_warning ("Retry " +:+ pretty retry_count' +:+ ": " +:+ m)
                  r in
              if String.eqb ty "proxy_failure"
                 && bool_decide (is_Some (current_proxy wk1))
                 && bool_decide (is_Some (proxy_manager wk1))
              then
                match initialize_browser_with_proxy w cfg 3
                        (cleanup (report_failed wk1)) with
                | (Raise e', wk2) => Some (Raise e', wk2, r1)
                | (Ret _, wk2) => retry_loop fuel' w cfg retry_count' wk2 r1
                end
              else retry_loop fuel' w cfg retry_count' wk1 r1
        | Some (Raise e, r) => Some (Raise e, count_attempt wk, r)
        end
      else
        Some (Raise (ScrapingError
                       ("Scraping failed after " +:+ pretty (max_retries cfg)
                        +:+ " retries") "max_retries_exceeded" true),
              wk, result)
  end.

(** The loop is entered with [retry_count = 0] and cannot run more often
    than this. *)
Definition retry_fuel (cfg : TaskConfig) : nat :=
  S (S (Z.to_nat (max_retries cfg))).

(** [ScrapingWorker._execute_scraping_with_retries] *)
Definition execute_scraping_with_retries (w : World) (cfg : TaskConfig)
    (wk : Worker) (result : TaskResult)
  : option (res PyExc unit * Worker * TaskResult) :=
  retry_loop (retry_fuel cfg) w cfg 0 wk result.

(** The billing floor, [0.1] compute units. *)
Definition min_compute_units : Q := 1 # 10.

(** [max(execution_time / 60, 0.1)].  Wall-clock readings are floats in
    the source and exact rationals here. *)
Definition compute_units (execution_time : Q) : Q :=
  Qmax (execution_time / 60) min_compute_units.

(** The tail of the [try] body of [execute_task], after the retries
    returned: billing, then the status from [result.data].  Each page's
    data is a dict, so it counts as one record.  [TaskResult] validates
    assignments: [compute_units_used] is at least [0.1] and passes its
    [ge=0.0]; [execution_time = elapsed] is refused when [elapsed] is
    negative (a clock set back during the run), and the
    [ValidationError] leaves the [try] with the billing already
    assigned. *)
Definition finalize (elapsed : Q) (r : TaskResult)
  : res PyExc unit * TaskResult :=
  let r1 :=
    mkTaskResult (task_id r) (status r) (data r) (pages_scraped r)
      (total_records r) (compute_units elapsed) (execution_time r)
      (errors r) (warnings r) (metadata r) in
  if Qle_bool 0 elapsed then
    let r2 :=
      mkTaskResult (task_id r1) (status r1) (data r1) (pages_scraped r1)
        (total_records r1) (compute_units_used r1) elapsed (errors r1)
        (warnings r1) (metadata r1) in
    match data r2 with
    | _ :: _ =>
        (Ret tt,
         mkTaskResult (task_id r2) completed (data r2)
           (pages_scraped r2) (Z.of_nat (length (data r2)))
           (compute_units_used r2) (execution_time r2) (errors r2)
           (warnings r2) (metadata r2))
    | [] => (Ret tt, fail_with "No data extracted" r2)
    end
  else
    (Raise (ValidationError
              (validation_error_text "TaskResult" "execution_time"
                 ("ensure this value is greater than or equal to 0.0 "
                  +:+ "(type=value_error.number.not_ge; limit_value=0.0)"))),
     r1).

(** [ScrapingWorker._save_results_to_file]: a failure to write becomes a
    warning. *)
Definition save_results_to_file (w : World) (r : TaskResult) : TaskResult :=
  match save w with
  | Ret _ => r
  | Raise e => add_warning ("Failed to save results: " +:+ exc_str e) r
  end.

Section execute_task.

Variable is_http_url : string → bool.

(** The [try] body of [execute_task] up to the end of the retries. *)
Definition run_attempts (w : World) (raw : RawTask) (wk : Worker)
    (result : TaskResult) : option (res PyExc unit * Worker * TaskResult) :=
  match validate_task_config is_http_url raw with
  | Raise e => Some (Raise e, wk, result)
  | Ret cfg =>
      match initialize_browser_with_proxy w cfg 3 wk with
      | (Raise e, wk1) => Some (Raise e, wk1, result)
      | (Ret _, wk1) => execute_scraping_with_retries w cfg wk1 result
      end
  end.

(** The [try] statement of [execute_task] with its [except] and
    [finally] clauses, run on the result object [result]: the object as
    it is returned and the worker as it is left. *)
Definition execute_task_from (w : World) (raw : RawTask) (wk : Worker)
    (result : TaskResult) : option (TaskResult * Worker) :=
  match run_attempts w raw wk result with
  | None => None
  | Some (outcome, wk1, r) =>
      let r1 :=
        match outcome with
        | Ret _ =>
            match finalize (end_time w - start_time w) r with
            | (Ret _, r') => r'
            | (Raise e, r') => fail_with (exc_str e) r'
            end
        | Raise e => fail_with (exc_str e) r
        end in
      Some (save_results_to_file w r1, cleanup wk1)
  end.

(** [ScrapingWorker.execute_task(task_config_dict, task_id)]: how the
    call ends and the worker as it is left.  The result object is built
    before the [try]; an exception raised there leaves the method with
    nothing validated, launched, cleaned up or saved. *)
Definition execute_task (w : World) (raw : RawTask) (tid : string)
    (wk : Worker) : option (res PyExc TaskResult * Worker) :=
  match new_TaskResult tid with
  | Raise e => Some (Raise e, wk)
  | Ret result =>
      match execute_task_from w raw wk result with
      | None => None
      | Some (r, wk1) => Some (Ret r, wk1)
      end
  end.

End execute_task.

(** How often the pool was told of a failure, and of a success, by
    anyone: [mark_proxy_failed] and [mark_proxy_success] each bump their
    counter on every call. *)
Definition failure_reports (wk : Worker) : nat :=
  match proxy_manager wk with
  | Some pm => failed_requests (stats pm)
  | None => 0
  end.

Definition success_reports (wk : Worker) : nat :=
  match proxy_manager wk with
  | Some pm => total_requests (stats pm)
  | None => 0
  end.

(** "The attempt against [s] raises a retryable [timeout]
    ScrapingError" and "the attempt against [s] succeeds", whatever the
    result object holds when the attempt starts. *)
Definition times_out (s : Session) (cfg : TaskConfig) : Prop :=
  ∀ result, ∃ m r,
    execute_scraping s cfg result
    = Some (Raise (ScrapingError m "timeout" true), r).

Definition succeeds (s : Session) (cfg : TaskConfig) : Prop :=
  ∀ result, ∃ r, execute_scraping s cfg result = Some (Ret tt, r).

(** Example: a task with proxies enabled and [max_retries = 2] whose
    first two attempts hang on the pagination probe, run by a worker on
    the pool [pool_ab]. *)
Definition hanging_page : Page :=
  mkPage (λ _, Raise (PlaywrightTimeoutError "Timeout 30000ms exceeded."))
    (λ _, Ret []) (λ _, Raise (Exception "evaluate")) (Ret tt).

Definition hanging_session : Session :=
  mkSession (Ret tt) (λ _, hanging_page).

Definition raw_retry_task : RawTask :=
  mkRawTask (Some "https://example.com")
    (Some [mkRawField (Some "tags") (Some "text") (Some ".tag") None
             (Some true) None None])
    (Some (mkRawPagination (Some true) (Some (Some ".next")) (Some 3%Z)
             None None))
    None (Some (mkRawProxy (Some true) None None None)) None None None None
    None (Some 2%Z) None [].

Definition flaky_world : World :=
  mkWorld (λ _, Ret tt)
    (λ n, if (n <? 2)%nat then hanging_session else endless_listing)
    100 104 7 (Ret tt).

(** Example: a task whose configuration is rejected. *)
Definition raw_empty_task : RawTask :=
  mkRawTask None None None None None None None None None None None None [].

(** The warnings that saving the result may add. *)
Definition save_warnings (w : World) : list string :=
  match save w with
  | Ret _ => []
  | Raise e => ["Failed to save results: " +:+ exc_str e]
  end.

(** The validated form of [raw_retry_task], and the worker once its
    browser is up in [flaky_world]. *)
Definition retry_task_config : TaskConfig :=
  mkTaskConfig "https://example.com"
    [mkFieldConfig "tags" TEXT ".tag" None true true None]
    (mkPaginationConfig true (Some ".next") 3 2000 None)
    default_RateLimitConfig (mkProxyConfig true None false 3)
    default_BrowserConfig [] [] [] false 2 5000.

Definition flaky_worker_ready : Worker :=
  (initialize_browser_with_proxy flaky_world retry_task_config 3
     (new_ScrapingWorker (Some pool_ab))).2.

(* ===================================================================== *)
(** * proxies.py: loading, health passes, refresh and statistics          *)
(* ===================================================================== *)

(** One entry of the provider's answer ([get_proxy_list]); the keys
    [port], [username] and [password] carry a [provider_] prefix. *)
Record ProviderProxy := mkProviderProxy {
  proxy_address : string;
  provider_port : Z;
  provider_username : string;
  provider_password : string;
  country_code : option string;
  city_name : option string
}.

(** [ProxyEndpoint(host=..., port=..., ...)] as [initialize] and
    [refresh_proxy_list] build it: the dataclass defaults fill the
    rest. *)
Definition endpoint_of (info : ProviderProxy) : ProxyEndpoint :=
  mkProxyEndpoint (proxy_address info) (provider_port info)
    (provider_username info) (provider_password info) (country_code info)
    (city_name info) true 0 None None None.

(** What probing one endpoint answers: [check_proxy_health_sync]'s pair,
    and the [datetime.now()] read right after it. *)
Record Probe := mkProbe {
  probe_ok : bool;
  probe_time : Q;
  probe_at : Z
}.

(** [_perform_health_check_sync] (and a pass of
    [_perform_health_check_async], whose checks each update the pool in
    one piece).  [order] is [self.proxies] in its iteration order and
    [probe] what the network answers for each id. *)
Definition perform_health_check_sync (order : list string)
    (probe : string → Probe) (pm : ProxyManager) : ProxyManager :=
  foldl (λ pm pid,
           check_single_proxy pid (probe_ok (probe pid))
             (probe_time (probe pid)) (probe_at (probe pid)) pm)
    pm order.

(** [self.stats['last_refresh'] = datetime.now()] *)
Definition stamp_refresh (now : Z) (pm : ProxyManager) : ProxyManager :=
  with_stats (mkStats (total_requests (stats pm)) (failed_requests (stats pm))
                (proxy_switches (stats pm)) (Some now)) pm.

(** The loading loop of [initialize]: every entry replaces what is
    stored under its id. *)
Definition load_endpoints (proxy_data : list ProviderProxy)
    (pm : ProxyManager) : ProxyManager :=
  foldl (λ pm info, add_endpoint (endpoint_of info) pm) pm proxy_data.

(** [ProxyManager.initialize()]: [proxy_data] is the provider's answer
    ([[]] also when the request failed) and [start_monitoring] is how
    [_start_health_monitoring] ends ([asyncio.create_task] raises
    without a running loop).  Any exception makes the answer [False]. *)
Definition initialize (proxy_data : list ProviderProxy)
    (order : list string) (probe : string → Probe)
    (start_monitoring : res PyExc unit) (now : Z) (pm : ProxyManager)
  : bool * ProxyManager :=
  match proxy_data with
  | [] => (false, pm)
  | _ :: _ =>
      let pm1 := load_endpoints proxy_data pm in
      let pm2 := perform_health_check_sync order probe pm1 in
      match start_monitoring with
      | Raise _ => (false, pm2)
      | Ret _ => (true, stamp_refresh now pm2)
      end
  end.

(** The first loop of [refresh_proxy_list]: an entry is stored only
    under an id that is not known yet. *)
Definition add_new_endpoints (proxy_data : list ProviderProxy)
    (pm : ProxyManager) : ProxyManager :=
  foldl (λ pm info,
           if bool_decide (is_Some (proxies pm !! proxy_id (endpoint_of info)))
           then pm else add_endpoint (endpoint_of info) pm)
    pm proxy_data.

(** [new_proxy_ids] *)
Definition provider_ids (proxy_data : list ProviderProxy) : gset string :=
  list_to_set ((λ info, proxy_id (endpoint_of info)) <$> proxy_data).

(** [ProxyManager.refresh_proxy_list()] *)
Definition refresh_proxy_list (new_proxy_data : list ProviderProxy)
    (order : list string) (probe : string → Probe) (now : Z)
    (pm : ProxyManager) : bool * ProxyManager :=
  match new_proxy_data with
  | [] => (false, pm)
  | _ :: _ =>
      let pm1 := add_new_endpoints new_proxy_data pm in
      let removed_proxies :=
        elements (dom (proxies pm1) ∖ provider_ids new_proxy_data) in
      let pm2 := foldr remove_endpoint pm1 removed_proxies in
      let pm3 := perform_health_check_sync order probe pm2 in
      (true, stamp_refresh now pm3)
  end.

(** [ProxyManager.get_stats()]; [interval] is the manager's
    [health_check_interval]. *)
Record PoolStats := mkPoolStats {
  stats_counters : Stats;
  total_proxies : nat;
  healthy_count : nat;
  stats_proxy_index : nat;
  stats_interval : Z
}.

Definition get_stats (interval : Z) (pm : ProxyManager) : PoolStats :=
  mkPoolStats (stats pm) (size (proxies pm)) (length (healthy_proxies pm))
    (current_proxy_index pm) interval.

(** The public calls on a [ProxyManager], and a manager driven through a
    series of them from [__init__]. *)
Inductive PoolCall :=
  | Initialize (proxy_data : list ProviderProxy) (order : list string)
      (probe : string → Probe) (start_monitoring : res PyExc unit) (now : Z)
  | RefreshProxyList (proxy_data : list ProviderProxy) (order : list string)
      (probe : string → Probe) (now : Z)
  | HealthCheck (order : list string) (probe : string → Probe)
  | GetProxy (cntry : option string) (sticky : bool) (now : Z)
  | MarkProxyFailed (p : ProxyEndpoint)
  | MarkProxySuccess (p : ProxyEndpoint).

Definition call (pm : ProxyManager) (c : PoolCall) : ProxyManager :=
  match c with
  | Initialize data order probe start now =>
      (initialize data order probe start now pm).2
  | RefreshProxyList data order probe now =>
      (refresh_proxy_list data order probe now pm).2
  | HealthCheck order probe => perform_health_check_sync order probe pm
  | GetProxy c sticky now => (get_proxy c sticky now pm).2
  | MarkProxyFailed p => mark_proxy_failed p pm
  | MarkProxySuccess p => mark_proxy_success p pm
  end.

Definition after_calls (max_fail : nat) (pref : option string)
    (cs : list PoolCall) : ProxyManager :=
  foldl call (new_ProxyManager max_fail pref) cs.

(** The health flags agree with the healthy list: an endpoint listed
    healthy has [is_healthy = True] and no failure counted. *)
Definition healthy_flags (pm : ProxyManager) : Prop :=
  ∀ pid p, pid ∈ healthy_proxies pm → proxies pm !! pid = Some p →
           is_healthy p = true ∧ failure_count p = 0.

(** [order] lists the keys of [self.proxies], each once. *)
Definition lists_keys (order : list string) (pm : ProxyManager) : Prop :=
  NoDup order ∧ ∀ pid, pid ∈ order ↔ is_Some (proxies pm !! pid).

(** A series of [get_proxy()] calls, no country, not sticky, one per
    clock reading. *)
Definition serve_round (nows : list Z) (pm : ProxyManager) : ProxyManager :=
  foldl (λ pm now, (get_proxy None false now pm).2) pm nows.

(** Two records of one endpoint that differ at most in what health
    checks write. *)
Definition same_identity (p p' : ProxyEndpoint) : Prop :=
  host p' = host p ∧ port p' = port p ∧ username p' = username p ∧
  password p' = password p ∧ country p' = country p ∧ city p' = city p ∧
  last_used p' = last_used p.

(** Example: a provider answer with the two proxies of [pool_ab] (one
    with a new password) and a third one. *)
Definition provider_answer : list ProviderProxy :=
  [mkProviderProxy "10.0.0.2" 8080 "user" "rotated" (Some "US") None;
   mkProviderProxy "10.0.0.3" 8080 "user" "pw" (Some "DE") None].

(** The reports among a series of calls. *)
Definition reports_failure (c : PoolCall) : bool :=
  match c with MarkProxyFailed _ => true | _ => false end.

Definition reports_success (c : PoolCall) : bool :=
  match c with MarkProxySuccess _ => true | _ => false end.

Definition count_calls (f : PoolCall → bool) (cs : list PoolCall) : nat :=
  length (List.filter f cs).

(* ===================================================================== *)
(** * tasks.py: what a run leaves in the result object                    *)
(* ===================================================================== *)

(** [r] is [result] after the page dicts [added] were recorded and the
    warnings [warned] appended; nothing else differs. *)
Definition grown_by (result : TaskResult)
    (added : list (gmap string Value)) (warned : list string)
    (r : TaskResult) : Prop :=
  r = mkTaskResult (task_id result) (status result) (data result ++ added)
        (pages_scraped result + Z.of_nat (length added))%Z
        (total_records result) (compute_units_used result)
        (execution_time result) (errors result) (warnings result ++ warned)
        (metadata result).

(** Example: a site whose first navigation times out. *)
Definition unreachable_site : Session :=
  mkSession (Raise (PlaywrightTimeoutError "Timeout 30000ms exceeded."))
    (λ _, blank_page).

(* ===================================================================== *)
(** * task_schemas.py: the declared constraints                           *)
(* ===================================================================== *)

(** The constraints that the schema declares on each model
    ([min_length], [max_length], [ge], [le], [min_items], [max_items])
    and that its validators check. *)
Definition FieldConfig_ok (f : FieldConfig) : Prop :=
  (1 ≤ String.length (name f) ≤ 100)%nat ∧
  (1 ≤ String.length (selector f))%nat.

Definition PaginationConfig_ok (p : PaginationConfig) : Prop :=
  (1 ≤ max_pages p ≤ 100)%Z ∧ (500 ≤ wait_after_click p ≤ 10000)%Z.

Definition RateLimitConfig_ok (c : RateLimitConfig) : Prop :=
  (1 ≤ requests_per_minute c ≤ 120)%Z ∧
  (100 ≤ delay_between_requests c ≤ 10000)%Z ∧
  (0 ≤ max_random_delay c ≤ 5000)%Z.

Definition ProxyConfig_ok (c : ProxyConfig) : Prop :=
  (1 ≤ proxy_max_failures c ≤ 10)%Z.

Definition BrowserConfig_ok (c : BrowserConfig) : Prop :=
  (800 ≤ viewport_width c ≤ 3840)%Z ∧
  (600 ≤ viewport_height c ≤ 2160)%Z ∧
  (5000 ≤ timeout c ≤ 120000)%Z.

Definition WaitCondition_ok (c : WaitCondition) : Prop :=
  wait_type c ∈ ["element"; "timeout"; "network"] ∧
  ∀ t, wait_timeout c = Some t → (1000 ≤ t ≤ 60000)%Z.

Definition header_ok (kv : string * string) : Prop :=
  (String.length kv.1 ≤ 100)%nat ∧ (String.length kv.2 ≤ 500)%nat.

Definition TaskConfig_ok (cfg : TaskConfig) : Prop :=
  (1 ≤ length (fields cfg) ≤ 50)%nat ∧
  Forall FieldConfig_ok (fields cfg) ∧
  NoDup (name <$> fields cfg) ∧
  PaginationConfig_ok (pagination cfg) ∧
  RateLimitConfig_ok (rate_limit cfg) ∧
  ProxyConfig_ok (proxy cfg) ∧
  BrowserConfig_ok (browser cfg) ∧
  (length (wait_conditions cfg) ≤ 10)%nat ∧
  Forall WaitCondition_ok (wait_conditions cfg) ∧
  (length (custom_headers cfg) ≤ 20)%nat ∧
  Forall header_ok (custom_headers cfg) ∧
  (0 ≤ max_retries cfg ≤ 10)%Z ∧
  (1000 ≤ retry_delay cfg ≤ 30000)%Z.

(* ===================================================================== *)
(** * tasks.py: the page loop, and more examples                          *)
(* ===================================================================== *)

(** The page loop goes on from the document numbered [k]:
    [has_next_page] answers [True] and the click through succeeds. *)
Definition turns_page (session : Session) (cfg : TaskConfig) (k : Z)
  : Prop :=
  has_next_page (pagination cfg) k (page_at session k) = Ret true ∧
  go_to_next_page (pagination cfg) k (page_at session k)
  = (true, (k + 1)%Z).

(** The loop ends at the document numbered [k] without an error:
    [has_next_page] answers [False], or [go_to_next_page] does. *)
Definition ends_at (session : Session) (cfg : TaskConfig) (k : Z) : Prop :=
  has_next_page (pagination cfg) k (page_at session k) = Ret false ∨
  (has_next_page (pagination cfg) k (page_at session k) = Ret true ∧
   (go_to_next_page (pagination cfg) k (page_at session k)).1 = false).

(** Example: a listing whose second document shows the end marker
    beside the "next" link. *)
Definition last_page : Page :=
  mkPage (λ sel, if String.eqb sel ".next" || String.eqb sel ".end"
                 then Ret (Some next_link) else Ret None)
    (λ _, Ret []) (λ _, Raise (Exception "evaluate")) (Ret tt).

Definition short_listing : Session :=
  mkSession (Ret tt) (λ k, if (k <? 2)%Z then listing_page else last_page).

(** Example: a site that cannot be reached through the proxy in use,
    and a world in which the first attempt meets it. *)
Definition blocked_site : Session :=
  mkSession (Raise (Exception "net::ERR_PROXY_CONNECTION_FAILED"))
    (λ _, blank_page).

Definition blocked_world : World :=
  mkWorld (λ _, Ret tt)
    (λ n, if (n <? 1)%nat then blocked_site else endless_listing)
    100 104 7 (Ret tt).

(** [get_default_task_config()] *)
Definition get_default_task_config : RawTask :=
  mkRawTask (Some "https://example.com")
    (Some [mkRawField (Some "title") (Some "text") (Some "h1") None
             (Some false) (Some true) None])
    (Some (mkRawPagination (Some false) None (Some 1%Z) None None))
    (Some (mkRawRateLimit (Some 30%Z) (Some 1000%Z) None None))
    None
    (Some (mkRawBrowser (Some true) None None None (Some true) (Some false)
             None))
    None None None None None None [].

(* ===================================================================== *)
(** * proxies.py: the proxy report                                        *)
(* ===================================================================== *)

(** [ProxyEndpoint.endpoint] *)
Definition endpoint (p : ProxyEndpoint) : string :=
  "http://" +:+ (host p +:+ ":" +:+ pretty (port p)).

(** [ProxyInfo]; its fields carry an [info_] prefix.  [last_used] is the
    time stamp that [isoformat] renders. *)
Record ProxyInfo := mkProxyInfo {
  info_proxy_id : string;
  info_endpoint : string;
  info_country : option string;
  info_city : option string;
  info_is_healthy : bool;
  info_failure_count : nat;
  info_last_used : option Z;
  info_response_time : option Q
}.

(** [ProxyManager.get_proxy_info()]: one entry per item of
    [self.proxies]. *)
Definition get_proxy_info (pm : ProxyManager) : list ProxyInfo :=
  (λ kv : string * ProxyEndpoint,
     mkProxyInfo kv.1 (endpoint kv.2) (country kv.2) (city kv.2)
       (is_healthy kv.2) (failure_count kv.2) (last_used kv.2)
       (response_time kv.2)) <$> map_to_list (proxies pm).

(* ==== THEOREMS ==== *)

(* ===================================================================== *)
(** * Proxy pool: invariants                                             *)
(* ===================================================================== *)

Section list_remove_facts.
Implicit Types (x y : string) (l : list string).

Lemma list_remove_subseteq x y l : y ∈ list_remove x l → y ∈ l.
Proof.
  induction l as [|z l IH]; simpl; [done|].
  case_decide; set_solver.
Qed.

Lemma list_remove_NoDup x l : NoDup l → NoDup (list_remove x l).
Proof.
  induction 1 as [|z l Hz Hl IH]; simpl; [constructor|].
  case_decide; [done|].
  constructor; [|done].
  intros Hin. apply Hz. by eapply list_remove_subseteq.
Qed.

Lemma list_remove_gone x l : NoDup l → x ∉ list_remove x l.
Proof.
  induction 1 as [|z l Hz Hl IH]; simpl; [set_solver|].
  case_decide; [by subst|]. set_solver.
Qed.
End list_remove_facts.

(** What every reachable pool satisfies: the healthy list has no
    duplicate, lists only stored ids, and every endpoint is stored under
    its own [host:port]. *)
Record pool_inv (pm : ProxyManager) : Prop := {
  inv_nodup : NoDup (healthy_proxies pm);
  inv_known : ∀ pid, pid ∈ healthy_proxies pm → is_Some (proxies pm !! pid);
  inv_key : ∀ pid p, proxies pm !! pid = Some p → proxy_id p = pid
}.

Lemma list_mem_true x l : list_mem x l = true ↔ x ∈ l.
Proof. unfold list_mem. by rewrite bool_decide_eq_true. Qed.

Lemma list_mem_false x l : list_mem x l = false ↔ x ∉ l.
Proof. unfold list_mem. by rewrite bool_decide_eq_false. Qed.

Lemma country_proxies_subseteq m c ids r pid :
  country_proxies m c ids = Ret r → pid ∈ r → pid ∈ ids.
Proof.
  revert r. induction ids as [|i ids IH]; simpl; intros r Hr Hin.
  - inversion Hr; subst. set_solver.
  - destruct (m !! i); [|done].
    destruct (country_proxies m c ids) as [r'|]; [|done].
    inversion Hr; subst. case_bool_decide; set_solver.
Qed.


Lemma serve_spec pid now pm r pm' :
  serve pid now pm = (r, pm') →
  healthy_proxies pm' = healthy_proxies pm ∧
  match r with
  | Ret (Some q) =>
      ∃ p, proxies pm !! pid = Some p ∧ q = set_last_used now p ∧
           proxies pm' = <[pid := q]> (proxies pm)
  | Ret None => False
  | Raise e => proxies pm !! pid = None ∧ pm' = pm ∧ e = KeyError pid
  end.
Proof.
  unfold serve. destruct (proxies pm !! pid) as [p|] eqn:Hp;
    intros [= <- <-]; simpl; eauto.
Qed.

Lemma select_spec av sticky now pm r pm' :
  select av sticky now pm = (r, pm') →
  healthy_proxies pm' = healthy_proxies pm ∧
  match r with
  | Ret (Some q) =>
      ∃ pid p, pid ∈ av ∧ proxies pm !! pid = Some p ∧
               q = set_last_used now p ∧
               proxies pm' = <[pid := q]> (proxies pm)
  | Ret None => av = [] ∧ pm' = pm
  | Raise e => proxies pm' = proxies pm
  end.
Proof.
  unfold select. destruct av as [|a av]; [by intros [= <- <-]|].
  set (l := a :: av).
  assert (∀ pid pm0, pid ∈ l → proxies pm0 = proxies pm →
            healthy_proxies pm0 = healthy_proxies pm →
            serve pid now pm0 = (r, pm') →
            healthy_proxies pm' = healthy_proxies pm ∧
            match r with
            | Ret (Some q) =>
                ∃ pid p, pid ∈ l ∧ proxies pm !! pid = Some p ∧
                         q = set_last_used now p ∧
                         proxies pm' = <[pid := q]> (proxies pm)
            | Ret None => l = [] ∧ pm' = pm
            | Raise e => proxies pm' = proxies pm
            end) as Hserve.
  { intros pid pm0 Hin Hp Hh Hs. apply serve_spec in Hs as [Hh' Hs].
    split; [congruence|].
    destruct r as [[q|]|e]; [|done|by destruct Hs as (_ & -> & _)].
    destruct Hs as (p & ? & ? & ?). exists pid, p.
    split_and!; congruence. }
  assert (∃ pid, l !! (current_proxy_index pm mod length l) = Some pid)
    as [pid Hpid].
  { apply lookup_lt_is_Some_2, Nat.mod_upper_bound. done. }
  rewrite Hpid.
  assert (pid ∈ l) as Hin by (apply list_elem_of_lookup; eauto).
  destruct (last_proxy pm) as [lp|] eqn:Hlp.
  - destruct (sticky && list_mem lp l) eqn:Hst.
    + apply andb_true_iff in Hst as [_ Hlp'%list_mem_true].
      by apply Hserve.
    + by apply Hserve.
  - by apply Hserve.
Qed.

Lemma available_proxies_subseteq c pm av pid :
  available_proxies c pm = Ret av → pid ∈ av → pid ∈ healthy_proxies pm.
Proof.
  unfold available_proxies. destruct (truthy c); [|by intros [= <-]].
  destruct (country_proxies _ _ _) as [[|x xs]|e] eqn:Hc; [by intros [= <-]| |done].
  intros [= <-] Hin. by eapply country_proxies_subseteq.
Qed.

(** [get_proxy] leaves the healthy list alone and only ever hands out an
    endpoint stored under a healthy id. *)
Lemma get_proxy_spec c sticky now pm r pm' :
  get_proxy c sticky now pm = (r, pm') →
  healthy_proxies pm' = healthy_proxies pm ∧
  match r with
  | Ret (Some q) =>
      ∃ pid p, pid ∈ healthy_proxies pm ∧ proxies pm !! pid = Some p ∧
               q = set_last_used now p ∧
               proxies pm' = <[pid := q]> (proxies pm)
  | _ => proxies pm' = proxies pm
  end.
Proof.
  unfold get_proxy.
  destruct (healthy_proxies pm) as [|h hs] eqn:Hh; [by intros [= <- <-]|].
  assert (∀ av, (∀ x, x ∈ av → x ∈ h :: hs) →
            select av sticky now pm = (r, pm') →
            healthy_proxies pm' = h :: hs ∧
            match r with
            | Ret (Some q) =>
                ∃ pid p, pid ∈ h :: hs ∧ proxies pm !! pid = Some p ∧
                         q = set_last_used now p ∧
                         proxies pm' = <[pid := q]> (proxies pm)
            | _ => proxies pm' = proxies pm
            end) as Hsel.
  { intros av Hav Hs. apply select_spec in Hs as [Hh' Hs].
    rewrite Hh' , Hh. split; [done|].
    destruct r as [[q|]|e]; [|by destruct Hs as [_ ->]|done].
    destruct Hs as (pid & p & ? & ? & ? & ?). exists pid, p. eauto. }
  destruct (available_proxies c pm) as [av|e] eqn:Hav;
    [|by intros [= <- <-]].
  apply Hsel. intros y Hy. rewrite <- Hh.
  eapply available_proxies_subseteq; eauto.
Qed.

Lemma get_proxy_inv c sticky now pm :
  pool_inv pm → pool_inv (get_proxy c sticky now pm).2.
Proof.
  intros [Hnd Hkn Hkey].
  destruct (get_proxy c sticky now pm) as [r pm'] eqn:Hg; simpl.
  apply get_proxy_spec in Hg as [Hh Hr].
  assert (∀ pid, is_Some (proxies pm !! pid) → is_Some (proxies pm' !! pid)
          ) as Hdom.
  { destruct r as [[q|]|e]; try by rewrite Hr.
    destruct Hr as (k & p & _ & _ & _ & ->). intros pid.
    rewrite lookup_insert_is_Some. destruct (decide (k = pid)); eauto. }
  split.
  - by rewrite Hh.
  - rewrite Hh. eauto.
  - destruct r as [[q|]|e]; try (rewrite Hr; by apply Hkey).
    destruct Hr as (k & p & _ & Hp & -> & ->). intros pid p'.
    rewrite lookup_insert_Some. intros [[<- <-]|[_ ?]]; [|by eauto].
    by apply Hkey in Hp.
Qed.

Lemma mark_proxy_failed_inv p pm :
  pool_inv pm → pool_inv (mark_proxy_failed p pm).
Proof.
  intros [Hnd Hkn Hkey]. unfold mark_proxy_failed.
  destruct (proxies pm !! proxy_id p) as [e|] eqn:He; simpl; [|by split].
  destruct (list_mem _ _) eqn:Hm; simpl; split; simpl.
  - by apply list_remove_NoDup.
  - intros pid Hin%list_remove_subseteq. rewrite lookup_insert_is_Some.
    destruct (decide (proxy_id p = pid)); eauto.
  - intros pid q. rewrite lookup_insert_Some.
    intros [[<- <-]|[_ ?]]; [by apply Hkey in He|by eauto].
  - done.
  - intros pid Hin. rewrite lookup_insert_is_Some.
    destruct (decide (proxy_id p = pid)); eauto.
  - intros pid q. rewrite lookup_insert_Some.
    intros [[<- <-]|[_ ?]]; [by apply Hkey in He|by eauto].
Qed.

Lemma mark_proxy_success_inv p pm :
  pool_inv pm → pool_inv (mark_proxy_success p pm).
Proof.
  intros [Hnd Hkn Hkey]. unfold mark_proxy_success.
  destruct (proxies pm !! proxy_id p) as [e|] eqn:He; simpl; [|by split].
  destruct (list_mem _ _) eqn:Hm; simpl; split; simpl.
  - done.
  - intros pid Hin. rewrite lookup_insert_is_Some.
    destruct (decide (proxy_id p = pid)); eauto.
  - intros pid q. rewrite lookup_insert_Some.
    intros [[<- <-]|[_ ?]]; [by apply Hkey in He|by eauto].
  - apply list_mem_false in Hm. apply NoDup_app. split_and!; [done| |].
    + intros x Hx ->%list_elem_of_singleton. done.
    + apply NoDup_singleton.
  - intros pid. rewrite elem_of_app, list_elem_of_singleton,
      lookup_insert_is_Some.
    intros [?| ->]; [|by left].
    destruct (decide (proxy_id p = pid)); eauto.
  - intros pid q. rewrite lookup_insert_Some.
    intros [[<- <-]|[_ ?]]; [by apply Hkey in He|by eauto].
Qed.

Lemma check_single_proxy_inv pid ok rt now pm :
  pool_inv pm → pool_inv (check_single_proxy pid ok rt now pm).
Proof.
  intros [Hnd Hkn Hkey]. unfold check_single_proxy.
  destruct (proxies pm !! pid) as [e|] eqn:He; simpl; [|by split].
  assert (∀ k q, <[pid := set_checked ok rt now e]> (proxies pm) !! k = Some q
                 → proxy_id q = k) as Hkey'.
  { intros k q. rewrite lookup_insert_Some.
    intros [[<- <-]|[_ ?]]; [by apply Hkey in He|by eauto]. }
  assert (∀ k, is_Some (proxies pm !! k) →
     is_Some (<[pid := set_checked ok rt now e]> (proxies pm) !! k)) as Hdom.
  { intros k. rewrite lookup_insert_is_Some.
    destruct (decide (pid = k)); eauto. }
  destruct ok; destruct (list_mem _ _) eqn:Hm; simpl; split; simpl;
    try done; eauto.
  - apply list_mem_false in Hm. apply NoDup_app. split_and!; [done| |].
    + intros x Hx ->%list_elem_of_singleton. done.
    + apply NoDup_singleton.
  - intros k. rewrite elem_of_app, list_elem_of_singleton.
    intros [?| ->]; [by eauto|]. apply Hdom. by rewrite He.
  - by apply list_remove_NoDup.
  - intros k Hin%list_remove_subseteq. eauto.
Qed.

Lemma add_endpoint_inv e pm : pool_inv pm → pool_inv (add_endpoint e pm).
Proof.
  intros [Hnd Hkn Hkey]. split; simpl; [done| |].
  - intros pid Hin. rewrite lookup_insert_is_Some.
    destruct (decide (proxy_id e = pid)); eauto.
  - intros pid q. rewrite lookup_insert_Some.
    intros [[<- <-]|[_ ?]]; [done|by eauto].
Qed.

Lemma remove_endpoint_inv pid pm :
  pool_inv pm → pool_inv (remove_endpoint pid pm).
Proof.
  intros [Hnd Hkn Hkey]. unfold remove_endpoint. simpl.
  destruct (list_mem _ _) eqn:Hm; split; simpl.
  - by apply list_remove_NoDup.
  - intros k Hin. assert (k ≠ pid) as Hne.
    { intros ->. by apply (list_remove_gone pid (healthy_proxies pm)). }
    apply list_remove_subseteq in Hin. rewrite lookup_delete_ne by done.
    eauto.
  - intros k q. rewrite lookup_delete_Some. intros [_ ?]. eauto.
  - done.
  - apply list_mem_false in Hm. intros k Hin.
    rewrite lookup_delete_ne by (intros ->; done). eauto.
  - intros k q. rewrite lookup_delete_Some. intros [_ ?]. eauto.
Qed.

Lemma reachable_inv pm : reachable pm → pool_inv pm.
Proof.
  induction 1.
  - split; simpl; [constructor|set_solver|]. intros pid p.
    by rewrite lookup_empty.
  - by apply add_endpoint_inv.
  - by apply remove_endpoint_inv.
  - by apply check_single_proxy_inv.
  - by apply get_proxy_inv.
  - by apply mark_proxy_failed_inv.
  - by apply mark_proxy_success_inv.
Qed.

(* ===================================================================== *)
(** * Proxy pool: eviction, country filter, sticky sessions              *)
(* ===================================================================== *)

Lemma mark_proxy_failed_evicts pm p :
  pool_inv pm → proxy_id p ∉ healthy_proxies (mark_proxy_failed p pm).
Proof.
  intros [Hnd Hkn Hkey]. unfold mark_proxy_failed.
  destruct (proxies pm !! proxy_id p) as [e|] eqn:He; simpl.
  - destruct (list_mem _ _) eqn:Hm; simpl.
    + by apply list_remove_gone.
    + by apply list_mem_false in Hm.
  - intros [e' He']%Hkn. congruence.
Qed.

Lemma get_proxy_only_healthy c sticky now pm q :
  pool_inv pm → (get_proxy c sticky now pm).1 = Ret (Some q) →
  proxy_id q ∈ healthy_proxies pm.
Proof.
  intros [Hnd Hkn Hkey].
  destruct (get_proxy c sticky now pm) as [r pm'] eqn:Hg; simpl.
  intros ->. apply get_proxy_spec in Hg as [_ (pid & p & Hin & Hp & -> & _)].
  apply Hkey in Hp. by rewrite <- Hp in Hin.
Qed.


Lemma mark_proxy_failed_known pm p pid :
  is_Some (proxies pm !! pid) →
  is_Some (proxies (mark_proxy_failed p pm) !! pid).
Proof.
  intros Hk. unfold mark_proxy_failed.
  destruct (proxies pm !! proxy_id p) as [e|] eqn:He; simpl; [|done].
  destruct (list_mem _ _); simpl; rewrite lookup_insert_is_Some;
    destruct (decide (proxy_id p = pid)); eauto.
Qed.



Lemma pool_ab_reachable : reachable pool_ab.
Proof. unfold pool_ab. repeat constructor. Qed.











(* ===================================================================== *)
(** * Field extraction                                                    *)
(* ===================================================================== *)

Lemma extract_fields_from_dom acc page fs :
  dom (extract_fields_from acc page fs)
  = dom acc ∪ list_to_set (name <$> fs).
Proof.
  revert acc. induction fs as [|f fs IH]; intros acc; simpl.
  - set_solver.
  - rewrite IH, dom_insert_L. set_solver.
Qed.

Lemma extract_fields_from_other acc page fs k :
  k ∉ name <$> fs → extract_fields_from acc page fs !! k = acc !! k.
Proof.
  revert acc. induction fs as [|f fs IH]; intros acc Hk; simpl; [done|].
  rewrite fmap_cons, not_elem_of_cons in Hk. destruct Hk as [Hne Hk].
  rewrite IH by done. by rewrite lookup_insert_ne.
Qed.

Lemma extract_fields_from_bound acc page fs f :
  NoDup (name <$> fs) → f ∈ fs →
  extract_fields_from acc page fs !! name f = Some (bound_value page f).
Proof.
  revert acc. induction fs as [|g fs IH]; intros acc Hnd Hin; simpl.
  - by apply elem_of_nil in Hin.
  - rewrite fmap_cons in Hnd. apply NoDup_cons in Hnd as [Hg Hnd].
    apply elem_of_cons in Hin as [->|Hin].
    + rewrite extract_fields_from_other by done. by rewrite lookup_insert_eq.
    + by apply IH.
Qed.

Lemma extract_fields_from_source acc page fs k v :
  extract_fields_from acc page fs !! k = Some v →
  acc !! k = Some v ∨ ∃ f, f ∈ fs ∧ name f = k ∧ v = bound_value page f.
Proof.
  revert acc. induction fs as [|g fs IH]; intros acc; simpl; [by left|].
  intros [Hacc|(f & Hin & Hn & Hv)]%IH.
  - apply lookup_insert_Some in Hacc as [[<- <-]|[_ Hacc]]; [|by left].
    right. exists g. split; [by left|done].
  - right. exists f. split; [by right|done].
Qed.

Lemma bound_value_no_match page f :
  multiple f = false → query_selector page (selector f) = Ret None →
  bound_value page f = of_optional (default_value f).
Proof.
  intros Hm Hq. unfold bound_value, extract_single_field,
    extract_single_field_body. by rewrite Hm, Hq.
Qed.

Lemma bound_value_no_match_multiple page f :
  multiple f = true → query_selector_all page (selector f) = Ret [] →
  bound_value page f = VList [].
Proof.
  intros Hm Hq. unfold bound_value, extract_single_field,
    extract_single_field_body. by rewrite Hm, Hq.
Qed.

Lemma bound_value_raise page f e :
  extract_single_field_body page f = Raise e →
  bound_value page f = of_optional (default_value f).
Proof.
  intros Hb. unfold bound_value, extract_single_field. by rewrite Hb.
Qed.

(** C8, as the code has it.  In a field list with unique names, a field
    (required or not) whose selector matches no element is bound to its
    [default_value] ([None] if unset) when it is a single-value field,
    and to the empty list when it is a [multiple] field; [extract_fields]
    always returns its dict, and every field of the list is bound to the
    value extracted for it alone, whatever happened to the others. *)
Theorem extract_fields_no_match
    (page : Page) (fs : list FieldConfig) (f : FieldConfig) :
  NoDup (name <$> fs) →
  f ∈ fs →
  (multiple f = false → query_selector page (selector f) = Ret None →
   extract_fields page fs !! name f = Some (of_optional (default_value f))) ∧
  (multiple f = true → query_selector_all page (selector f) = Ret [] →
   extract_fields page fs !! name f = Some (VList [])) ∧
  (∀ g, g ∈ fs →
     extract_fields page fs !! name g = Some (bound_value page g)).
Proof.
  intros Hnd Hin. unfold extract_fields. split_and!.
  - intros Hm Hq. rewrite extract_fields_from_bound by done.
    by rewrite bound_value_no_match.
  - intros Hm Hq. rewrite extract_fields_from_bound by done.
    by rewrite bound_value_no_match_multiple.
  - intros g Hg. by apply extract_fields_from_bound.
Qed.

Lemma extract_fields_no_match_witness :
  extract_fields blank_page [field_price; field_tags] !! "price"
  = Some (VStr "n/a").
Proof.
  assert (NoDup (name <$> [field_price; field_tags])) as Hnd.
  { apply (bool_decide_unpack _). vm_compute. exact I. }
  assert (field_price ∈ [field_price; field_tags]) as Hin by left.
  exact (proj1 (extract_fields_no_match blank_page
                  [field_price; field_tags] field_price Hnd Hin)
           eq_refl eq_refl).
Defined.

(** C8 as stated fails for a [multiple] field: [field_tags] is required,
    its selector matches nothing on [blank_page], and it is bound to the
    empty list, not to its default ["n/a"]. *)
Lemma extract_fields_multiple_no_match_gives_empty_list :
  required field_tags = true ∧
  query_selector blank_page (selector field_tags) = Ret None ∧
  query_selector_all blank_page (selector field_tags) = Ret [] ∧
  extract_fields blank_page [field_tags] !! name field_tags
  = Some (VList []) ∧
  extract_fields blank_page [field_tags] !! name field_tags
  ≠ Some (of_optional (default_value field_tags)).
Proof. split_and!; try reflexivity. vm_compute. congruence. Qed.

(** C10.  For every list of field specs, the key set of the dict that
    [extract_fields] returns is the set of declared field names; every
    entry is the value bound for a field of that name; and a field whose
    extraction raised is bound to its default value ([None] if unset),
    not left out. *)
Theorem extract_fields_keys_are_field_names
    (page : Page) (fs : list FieldConfig) :
  dom (extract_fields page fs) = list_to_set (name <$> fs) ∧
  (∀ f, f ∈ fs → is_Some (extract_fields page fs !! name f)) ∧
  (∀ k v, extract_fields page fs !! k = Some v →
     ∃ f, f ∈ fs ∧ name f = k ∧ v = bound_value page f) ∧
  (∀ f e, extract_single_field_body page f = Raise e →
     bound_value page f = of_optional (default_value f)).
Proof.
  assert (dom (extract_fields page fs) = list_to_set (name <$> fs)) as Hdom.
  { unfold extract_fields. rewrite extract_fields_from_dom, dom_empty_L.
    set_solver. }
  split_and!; [done| | |].
  - intros f Hin. apply elem_of_dom. rewrite Hdom.
    apply elem_of_list_to_set, list_elem_of_fmap. eauto.
  - intros k v [Hacc|?]%extract_fields_from_source; [|done].
    by rewrite lookup_empty in Hacc.
  - intros f e. apply bound_value_raise.
Qed.

(* ===================================================================== *)
(** * Pagination and the scraping loop                                    *)
(* ===================================================================== *)

Lemma has_next_page_true config cur page :
  has_next_page config cur page = Ret true →
  enabled config = true ∧ (cur < max_pages config)%Z.
Proof.
  unfold has_next_page. destruct (enabled config); simpl; [|done].
  destruct (Z.leb_spec (max_pages config) cur); [done|]. done.
Qed.

Lemma has_next_page_limit config cur page :
  (max_pages config ≤ cur)%Z → has_next_page config cur page = Ret false.
Proof.
  intros Hle. unfold has_next_page. destruct (enabled config); simpl; [|done].
  destruct (Z.leb_spec (max_pages config) cur); [done|lia].
Qed.

Lemma go_to_next_page_true config cur page next :
  go_to_next_page config cur page = (true, next) →
  next = (cur + 1)%Z ∧ (cur < max_pages config)%Z.
Proof.
  unfold go_to_next_page, go_to_next_page_body.
  destruct (has_next_page config cur page) as [[|]|e] eqn:Hh;
    [|by intros [=]..].
  apply has_next_page_true in Hh as [_ Hlt].
  destruct (query_optional _ _) as [[el|]|e]; [|by intros [=]..].
  destruct (click el); [|by intros [=]].
  destruct (wait_for_load_state page); [|by intros [=]].
  by intros [= <-].
Qed.

(** The loop always breaks: with the fuel [_execute_scraping] gets, the
    unrolling never runs dry. *)
Lemma scrape_pages_total fuel session cfg cur result :
  (Z.to_nat (max_pages (pagination cfg) - cur) < fuel)%nat →
  is_Some (scrape_pages fuel session cfg cur result).
Proof.
  revert cur result. induction fuel as [|fuel IH]; intros cur result Hf;
    [lia|]. simpl.
  destruct (has_next_page _ _ _) as [[|]|e] eqn:Hh; [|by eauto..].
  destruct (go_to_next_page _ _ _) as [[|] next] eqn:Hg; [|by eauto].
  apply go_to_next_page_true in Hg as [-> Hlt].
  apply IH. lia.
Qed.

(** What one run of the loop adds to the result: at least one page, at
    most as many as the page limit leaves room for, and nothing else
    changes. *)
Lemma scrape_pages_bound fuel session cfg cur result out r :
  scrape_pages fuel session cfg cur result = Some (out, r) →
  ∃ added,
    data r = data result ++ added ∧
    pages_scraped r = (pages_scraped result + Z.of_nat (length added))%Z ∧
    (1 ≤ Z.of_nat (length added)
       ≤ Z.max 1 (max_pages (pagination cfg) - cur + 1))%Z ∧
    warnings r = warnings result ∧ errors r = errors result ∧
    status r = status result ∧ task_id r = task_id result.
Proof.
  revert cur result. induction fuel as [|fuel IH]; intros cur result;
    [done|]. simpl.
  assert (∀ o, Some (o, record_page
                 (extract_fields (page_at session cur) (fields cfg)) result)
               = Some (out, r) →
    ∃ added, data r = data result ++ added ∧
      pages_scraped r = (pages_scraped result + Z.of_nat (length added))%Z ∧
      (1 ≤ Z.of_nat (length added)
         ≤ Z.max 1 (max_pages (pagination cfg) - cur + 1))%Z ∧
      warnings r = warnings result ∧ errors r = errors result ∧
      status r = status result ∧ task_id r = task_id result) as Hstop.
  { intros o [= <- <-]. eexists [_]. simpl. split_and!; try done. lia. }
  destruct (has_next_page _ _ _) as [[|]|e] eqn:Hh; [|by apply Hstop..].
  destruct (go_to_next_page _ _ _) as [[|] next] eqn:Hg; [|by apply Hstop].
  apply go_to_next_page_true in Hg as [-> Hlt].
  intros (added & Hd & Hp & Hl & Hw & He & Hs & Ht)%IH. simpl in *.
  exists (extract_fields (page_at session cur) (fields cfg) :: added).
  rewrite Hd, Hp, <- app_assoc. simpl. split_and!; try done; lia.
Qed.

Lemma scrape_pages_all fuel session cfg cur result :
  next_always_available session cfg →
  (1 ≤ cur ≤ max_pages (pagination cfg))%Z →
  (Z.to_nat (max_pages (pagination cfg) - cur) < fuel)%nat →
  ∃ r, scrape_pages fuel session cfg cur result = Some (Ret tt, r) ∧
       data r = data result
                ++ pages_data session cfg cur
                     (max_pages (pagination cfg) - cur + 1) ∧
       pages_scraped r
       = (pages_scraped result + (max_pages (pagination cfg) - cur + 1))%Z.
Proof.
  intros Hav. revert cur result.
  induction fuel as [|fuel IH]; intros cur result Hc Hf; [lia|]. simpl.
  destruct (decide (cur = max_pages (pagination cfg))) as [->|Hne].
  - rewrite has_next_page_limit by lia. eexists. split; [done|].
    replace (_ - _ + 1)%Z with 1%Z by lia. split; [|done].
    unfold pages_data. rewrite seqZ_cons, seqZ_nil by lia. done.
  - destruct (Hav cur) as [-> ->]; [lia|].
    destruct (IH (cur + 1)%Z
                (record_page (extract_fields (page_at session cur)
                                (fields cfg)) result))
      as (r & -> & Hd & Hp); [lia..|].
    exists r. split; [done|]. rewrite Hd, Hp.
    split; [|simpl; lia]. unfold record_page at 1. cbn [data].
    rewrite <- app_assoc. f_equal. unfold pages_data.
    rewrite (seqZ_cons cur) by lia. rewrite fmap_cons. simpl.
    do 3 f_equal; lia.
Qed.

Lemma pages_data_length session cfg first count :
  length (pages_data session cfg first count) = Z.to_nat count.
Proof. unfold pages_data. by rewrite length_fmap, length_seqZ. Qed.

(** C6.  In one attempt [_execute_scraping] always ends, and with a page
    limit of at least 1 it appends at most [max_pages] page dicts; once
    the counter has reached [max_pages], [has_next_page] answers [False]
    without looking at the document, so whatever the stop-condition
    selector is; and when pagination is enabled and a next page is always
    reported available, the attempt succeeds having extracted exactly
    the documents 1 .. [max_pages] (3 for [max_pages = 3]). *)
Theorem scraping_stops_at_max_pages
    (session : Session) (cfg : TaskConfig) (result : TaskResult) :
  (1 ≤ max_pages (pagination cfg))%Z →
  (∃ out r added,
     execute_scraping session cfg result = Some (out, r) ∧
     data r = data result ++ added ∧
     pages_scraped r = (pages_scraped result + Z.of_nat (length added))%Z ∧
     (Z.of_nat (length added) ≤ max_pages (pagination cfg))%Z) ∧
  (∀ page,
     has_next_page (pagination cfg) (max_pages (pagination cfg)) page
     = Ret false) ∧
  (enabled (pagination cfg) = true →
   goto session = Ret tt →
   next_always_available session cfg →
   ∃ r,
     execute_scraping session cfg result = Some (Ret tt, r) ∧
     data r = data result
              ++ pages_data session cfg 1 (max_pages (pagination cfg)) ∧
     pages_scraped r
     = (pages_scraped result + max_pages (pagination cfg))%Z ∧
     length (pages_data session cfg 1 (max_pages (pagination cfg)))
     = Z.to_nat (max_pages (pagination cfg))).
Proof.
  intros Hmax. split_and!.
  - unfold execute_scraping. destruct (navigate_to_page session) as [?|e].
    + destruct (scrape_pages_total (page_fuel cfg) session cfg 1 result)
        as [[out r] Hs]; [unfold page_fuel; lia|].
      rewrite Hs.
      apply scrape_pages_bound in Hs
        as (added & Hd & Hp & Hl & _).
      destruct out; eexists _, r, added; (split_and!; [done..|lia]).
    + eexists _, result, []. rewrite app_nil_r. simpl.
      split_and!; [done..|lia|lia].
  - intros page. by apply has_next_page_limit.
  - intros _ Hgo Hav. unfold execute_scraping, navigate_to_page.
    rewrite Hgo.
    destruct (scrape_pages_all (page_fuel cfg) session cfg 1 result Hav)
      as (r & -> & Hd & Hp); [lia|unfold page_fuel; lia|].
    exists r. rewrite Hd, Hp, pages_data_length.
    replace (max_pages (pagination cfg) - 1 + 1)%Z
      with (max_pages (pagination cfg)) by lia.
    done.
Qed.

Lemma endless_listing_next_available :
  next_always_available endless_listing three_pages_config.
Proof.
  intros k Hk. simpl in Hk.
  unfold go_to_next_page, go_to_next_page_body, has_next_page. simpl.
  destruct (Z.leb_spec 3 k); [lia|]. done.
Qed.

Lemma scraping_stops_at_max_pages_witness :
  ∃ r,
    execute_scraping endless_listing three_pages_config
      (fresh_result "task-1") = Some (Ret tt, r) ∧
    pages_scraped r = 3%Z ∧ length (data r) = 3.
Proof.
  assert (1 ≤ max_pages (pagination three_pages_config))%Z as Hmax
    by (simpl; lia).
  destruct (proj2 (proj2 (scraping_stops_at_max_pages endless_listing
                            three_pages_config (fresh_result "task-1")
                            Hmax))
              eq_refl eq_refl endless_listing_next_available)
    as (r & Hr & Hd & Hp & Hl).
  exists r. split; [exact Hr|]. split; [exact Hp|].
  rewrite Hd, length_app, Hl. reflexivity.
Defined.

(* ===================================================================== *)
(** * Configuration validation                                            *)
(* ===================================================================== *)

Lemma both_Ret {A B} (a : res (list VError) A) (b : res (list VError) B) x y :
  both a b = Ret (x, y) → a = Ret x ∧ b = Ret y.
Proof. destruct a, b; simpl; [|done..]. by intros [= -> ->]. Qed.

Lemma under_Ret {A} key (r : res (list VError) A) a :
  under key r = Ret a → r = Ret a.
Proof. destruct r; simpl; [|done]. by intros [= ->]. Qed.

Lemma size_list_to_set_le (l : list string) :
  (size (list_to_set l : gset string) ≤ length l)%nat.
Proof.
  induction l as [|x l IH].
  - rewrite list_to_set_nil, size_empty. done.
  - rewrite list_to_set_cons, size_union_alt, size_singleton.
    assert (size ((list_to_set l : gset string) ∖ {[x]})
            ≤ size (list_to_set l : gset string))%nat as Hle
      by (apply subseteq_size; set_solver).
    simpl. lia.
Qed.

Lemma length_size_NoDup (l : list string) :
  length l = size (list_to_set l : gset string) → NoDup l.
Proof.
  induction l as [|x l IH]; [constructor|].
  rewrite list_to_set_cons. simpl. intros Hlen.
  pose proof (size_list_to_set_le l) as Hle.
  destruct (decide (x ∈ l)) as [Hin|Hnin].
  - exfalso.
    assert (({[x]} ∪ list_to_set l : gset string) = list_to_set l) as Heq
      by set_solver.
    rewrite Heq in Hlen. lia.
  - constructor; [done|]. apply IH.
    rewrite size_union, size_singleton in Hlen by set_solver. lia.
Qed.

Lemma validate_fields_Ret v v' :
  validate_fields v = Ret v' → v' = v ∧ NoDup (name <$> v).
Proof.
  unfold validate_fields. case_bool_decide as Hd; [done|].
  intros [= <-]. split; [done|]. apply length_size_NoDup.
  by destruct (decide (length (name <$> v)
                       = size (list_to_set (name <$> v) : gset string))).
Qed.

Lemma validate_items_Ret {R A} (validate : R → res (list VError) A)
    i raws l :
  validate_items validate i raws = Ret l →
  Forall2 (λ raw a, validate raw = Ret a) raws l.
Proof.
  revert i l. induction raws as [|raw raws IH]; intros i l; simpl.
  - intros [= <-]. constructor.
  - destruct (both _ _) as [[a l']|] eqn:Hb; [|done].
    intros [= <-]. apply both_Ret in Hb as [Ha%under_Ret Hl].
    constructor; eauto.
Qed.

Lemma validate_fields_key_Ret raw fs :
  validate_fields_key raw = Ret fs →
  NoDup (name <$> fs) ∧
  ∃ raws, raw = Some raws ∧
    Forall2 (λ r f, validate_FieldConfig r = Ret f) raws fs.
Proof.
  unfold validate_fields_key. destruct raw as [raws|]; [|done].
  destruct (length raws <? 1)%nat; [done|].
  destruct (50 <? length raws)%nat; [done|].
  destruct (under _ _) as [v|] eqn:Hu; [|done].
  destruct (validate_fields v) as [v'|] eqn:Hv; [|done].
  intros [= <-]. apply validate_fields_Ret in Hv as [-> Hnd].
  split; [done|]. exists raws. split; [done|].
  by apply under_Ret, validate_items_Ret in Hu.
Qed.

Lemma run_validator_supplied key validator v r :
  run_validator key validator (Some v) = Ret r → validator v = Ret r.
Proof. simpl. destruct (validator v); [|done]. by intros [= ->]. Qed.

(** A field whose [attribute] key is present comes out of validation
    with a non-empty attribute when its type needs one. *)
Lemma validate_FieldConfig_supplied_attribute raw f :
  validate_FieldConfig raw = Ret f →
  is_Some (raw_attribute raw) →
  type f ≠ TEXT → truthy (attribute f) = true.
Proof.
  unfold validate_FieldConfig. intros Hv [v Hraw]. rewrite Hraw in Hv.
  destruct (both _ _) as [(n & t & sel & attr)|] eqn:Hb; [|done].
  injection Hv as <-. simpl.
  apply both_Ret in Hb as [_ Hb].
  apply both_Ret in Hb as [Ht Hb].
  apply both_Ret in Hb as [_ Ha].
  rewrite Ht in Ha. apply run_validator_supplied in Ha.
  intros Hty. unfold validate_attribute in Ha.
  destruct t; [done| | |];
    destruct (truthy v) eqn:Htr; simpl in Ha; try done;
    by injection Ha as <-.
Qed.

(** A [pagination] object whose [next_selector] key is present, with
    [enabled] true and the selector null or empty, is rejected with the
    error located at [next_selector]. *)
Lemma validate_PaginationConfig_supplied_next_selector raw v :
  raw_enabled raw = Some true →
  raw_next_selector raw = Some v →
  truthy v = false →
  ∃ es, validate_PaginationConfig raw = Raise es ∧
        mkVError ["next_selector"]
          "next_selector is required when pagination is enabled" ∈ es.
Proof.
  intros He Hn Hv. unfold validate_PaginationConfig.
  rewrite He, Hn. simpl. unfold validate_next_selector. rewrite Hv. simpl.
  eexists. split; [done|]. simpl. by left.
Qed.

(** The part of C7 that holds for every input: a configuration that
    validates has unique field names; and where the [attribute] key of a
    field is present, a type that needs an attribute has one. *)
Theorem validated_config_field_names_unique
    (is_http_url : string → bool) (raw : RawTask) (cfg : TaskConfig) :
  validate_task_config is_http_url raw = Ret cfg →
  NoDup (name <$> fields cfg) ∧
  ∃ raws, raw_fields raw = Some raws ∧
    Forall2 (λ r f, validate_FieldConfig r = Ret f ∧
                    (is_Some (raw_attribute r) → type f ≠ TEXT →
                     truthy (attribute f) = true)) raws (fields cfg).
Proof.
  unfold validate_task_config.
  destruct (validate_TaskConfig is_http_url raw) as [cfg'|] eqn:Hv; [|done].
  intros [= ->]. revert Hv. unfold validate_TaskConfig.
  destruct (both _ _)
    as [(u & fs & pg & rl & px & br & ws & hd & mr & rd & ?)|] eqn:Hb;
    [|done].
  intros [= <-]. simpl.
  apply both_Ret in Hb as [_ Hb]. apply both_Ret in Hb as [Hf _].
  apply validate_fields_key_Ret in Hf as (Hnd & raws & Hraw & Hall).
  split; [done|]. exists raws. split; [done|].
  eapply Forall2_impl; [exact Hall|]. intros r f Hrf. split; [done|].
  by apply validate_FieldConfig_supplied_attribute.
Qed.

Lemma validated_config_field_names_unique_witness :
  ∃ cfg, validate_task_config scheme_is_http raw_complete_task = Ret cfg ∧
         NoDup (name <$> fields cfg).
Proof.
  eexists. split; [vm_compute; reflexivity|].
  exact (proj1 (validated_config_field_names_unique scheme_is_http
                  raw_complete_task _ eq_refl)).
Defined.

(** C7 at the input [raw_sparse_task], whose fields leave out the
    [attribute] key and whose [pagination] has [enabled] true and no
    [next_selector] key: validation succeeds, the link field and the
    attribute field keep [attribute = None], and pagination stays
    enabled with [next_selector = None]. *)
Theorem sparse_config_validates_unchecked :
  ∃ cfg,
    validate_task_config scheme_is_http raw_sparse_task = Ret cfg ∧
    (type <$> fields cfg) = [LINK; ATTRIBUTE] ∧
    (attribute <$> fields cfg) = [None; None] ∧
    enabled (pagination cfg) = true ∧
    next_selector (pagination cfg) = None.
Proof. eexists. split; [vm_compute; reflexivity|]. done. Qed.

(** With the keys present as [null], the validators run: validation of
    [raw_explicit_task] fails with the error located at
    [pagination.next_selector]. *)
Lemma explicit_null_next_selector_rejected :
  ∃ es,
    validate_TaskConfig scheme_is_http raw_explicit_task = Raise es ∧
    mkVError ["pagination"; "next_selector"]
      "next_selector is required when pagination is enabled" ∈ es.
Proof. eexists. split; [vm_compute; reflexivity|]. by left. Qed.

(* ===================================================================== *)
(** * The orchestrator: retries, billing, final status                    *)
(* ===================================================================== *)

(** What an attempt leaves of the result object: it only appends page
    dicts, and a successful attempt appends at least one. *)
Lemma execute_scraping_frame s cfg result out r :
  execute_scraping s cfg result = Some (out, r) →
  warnings r = warnings result ∧ errors r = errors result ∧
  status r = status result ∧
  ∃ added, data r = data result ++ added ∧ (out = Ret tt → added ≠ []).
Proof.
  unfold execute_scraping. destruct (navigate_to_page s) as [?|e].
  - destruct (scrape_pages _ _ _ _ _) as [[o r']|] eqn:Hs; [|done].
    apply scrape_pages_bound in Hs
      as (added & Hd & _ & Hl & Hw & He & Hst & _).
    assert (added ≠ []) as Hne by (intros ->; simpl in Hl; lia).
    destruct o; intros [= <- <-]; split_and!; eauto.
  - intros [= <- <-]. split_and!; try done. exists [].
    by rewrite app_nil_r.
Qed.

Lemma acquire_proxy_attempts w cfg wk :
  attempts (acquire_proxy w cfg wk).2 = attempts wk.
Proof.
  unfold acquire_proxy. destruct (proxy_enabled _); [|done].
  destruct (proxy_manager wk); [|done].
  by destruct (get_proxy _ _ _ _) as [[[?|]|?] ?].
Qed.

Lemma initialize_browser_attempts w cfg left wk :
  attempts (initialize_browser_with_proxy w cfg left wk).2 = attempts wk.
Proof.
  revert wk. induction left as [|left IH]; intros wk; simpl;
    pose proof (acquire_proxy_attempts w cfg wk) as Ha;
    destruct (acquire_proxy w cfg wk) as [[?|e] wk']; simpl in Ha.
  - unfold launch_browser. by destruct (launch w _).
  - done.
  - unfold launch_browser. destruct (launch w _); simpl; [done|].
    rewrite IH. unfold report_failed; simpl.
    by destruct (current_proxy wk'), (proxy_manager wk').
  - rewrite IH. unfold report_failed; simpl.
    by destruct (current_proxy wk'), (proxy_manager wk').
Qed.

(** One turn of the retry loop on a retryable error that is not a proxy
    failure: a warning, no report to the pool, and round again. *)
Lemma retry_loop_timeout fuel w cfg rc wk result m r :
  (rc + 1 ≤ max_retries cfg)%Z →
  execute_scraping (session w (attempts wk)) cfg result
  = Some (Raise (ScrapingError m "timeout" true), r) →
  retry_loop (S fuel) w cfg rc wk result
  = retry_loop fuel w cfg (rc + 1) (count_attempt wk)
      (add_warning ("Retry " +:+ pretty (rc + 1)%Z +:+ ": " +:+ m) r).
Proof.
  intros Hrc He. simpl. rewrite He.
  destruct (Z.leb_spec rc (max_retries cfg)); [|lia].
  destruct (Z.ltb_spec (max_retries cfg) (rc + 1)); [lia|]. done.
Qed.

Lemma retry_loop_success fuel w cfg rc wk result r :
  (rc ≤ max_retries cfg)%Z →
  execute_scraping (session w (attempts wk)) cfg result = Some (Ret tt, r) →
  retry_loop (S fuel) w cfg rc wk result
  = Some (Ret tt, report_success (count_attempt wk), r).
Proof.
  intros Hrc He. simpl. rewrite He.
  by destruct (Z.leb_spec rc (max_retries cfg)); [|lia].
Qed.

Lemma report_success_counts wk :
  failure_reports (report_success wk) = failure_reports wk ∧
  current_proxy (report_success wk) = current_proxy wk ∧
  success_reports (report_success wk)
  = if bool_decide (is_Some (current_proxy wk))
       && bool_decide (is_Some (proxy_manager wk))
    then S (success_reports wk) else success_reports wk.
Proof.
  unfold report_success, failure_reports, success_reports.
  destruct (current_proxy wk) as [p|] eqn:Hp,
           (proxy_manager wk) as [pm|] eqn:Hpm; simpl;
    rewrite ?Hp, ?Hpm; simpl; try done.
  unfold mark_proxy_success.
  destruct (proxies pm !! proxy_id p); simpl; [|done].
  by destruct (list_mem _ _).
Qed.

Lemma save_results_frame w r :
  status (save_results_to_file w r) = status r ∧
  data (save_results_to_file w r) = data r ∧
  errors (save_results_to_file w r) = errors r ∧
  compute_units_used (save_results_to_file w r) = compute_units_used r ∧
  warnings (save_results_to_file w r) = warnings r ++ save_warnings w.
Proof.
  unfold save_results_to_file, save_warnings.
  destruct (save w); simpl; by rewrite ?app_nil_r.
Qed.

Lemma execute_scraping_total s cfg result :
  is_Some (execute_scraping s cfg result).
Proof.
  unfold execute_scraping. destruct (navigate_to_page s); [|by eauto].
  destruct (scrape_pages_total (page_fuel cfg) s cfg 1 result)
    as [[[?|?] r] ->]; [unfold page_fuel; lia|by eauto..].
Qed.

(** The retry loop always ends: with the fuel
    [_execute_scraping_with_retries] gets, the unrolling never runs
    dry. *)
Lemma retry_loop_total fuel w cfg rc wk result :
  (Z.to_nat (max_retries cfg + 1 - rc) < fuel)%nat →
  is_Some (retry_loop fuel w cfg rc wk result).
Proof.
  revert rc wk result. induction fuel as [|fuel IH];
    intros rc wk result Hf; [lia|]. cbn [retry_loop].
  destruct (Z.leb_spec rc (max_retries cfg)); [|by eauto].
  destruct (execute_scraping_total (session w (attempts wk)) cfg result)
    as [[[?|e] r] ->]; [by eauto|].
  destruct e as [?|?|?|m ty retryable|?|?]; try by eauto.
  destruct (negb retryable || (max_retries cfg <? rc + 1)%Z) eqn:Hstop;
    [by eauto|].
  apply orb_false_iff in Hstop as [_ Hlt%Z.ltb_ge].
  destruct (_ && _ && _).
  - destruct (initialize_browser_with_proxy _ _ _ _) as [[?|?] wk2];
      [|by eauto]. apply IH. lia.
  - apply IH. lia.
Qed.

Lemma run_attempts_total is_http_url w raw wk0 result :
  is_Some (run_attempts is_http_url w raw wk0 result).
Proof.
  unfold run_attempts.
  destruct (validate_task_config _ _) as [cfg|]; [|by eauto].
  destruct (initialize_browser_with_proxy _ _ _ _) as [[?|?] wk1];
    [|by eauto].
  apply retry_loop_total. unfold retry_fuel. lia.
Qed.

(** C3, as the code has it.  With [max_retries = 2], when the next two
    attempts raise a retryable [timeout] ScrapingError and the one
    after succeeds, [_execute_scraping_with_retries] returns normally:
    the result object has gained the two retry warnings and at least
    one page, its errors and status are untouched, and the pool was
    told of no failure at all, only of one success when a proxy was in
    use: [mark_proxy_failed] is called for [proxy_failure] errors
    alone. *)
Theorem timeouts_are_retried_without_proxy_report
    (w : World) (cfg : TaskConfig) (wk0 : Worker) (result : TaskResult) :
  max_retries cfg = 2%Z →
  times_out (session w (attempts wk0)) cfg →
  times_out (session w (S (attempts wk0))) cfg →
  succeeds (session w (S (S (attempts wk0)))) cfg →
  ∃ r wk m1 m2,
    execute_scraping_with_retries w cfg wk0 result = Some (Ret tt, wk, r) ∧
    warnings r
    = warnings result ++ ["Retry 1: " +:+ m1; "Retry 2: " +:+ m2] ∧
    errors r = errors result ∧ status r = status result ∧
    data r ≠ [] ∧
    attempts wk = (attempts wk0 + 3)%nat ∧
    failure_reports wk = failure_reports wk0 ∧
    current_proxy wk = current_proxy wk0 ∧
    success_reports wk
    = if bool_decide (is_Some (current_proxy wk0))
         && bool_decide (is_Some (proxy_manager wk0))
      then S (success_reports wk0) else success_reports wk0.
Proof.
  intros Hmax H0 H1 H2.
  destruct (H0 result) as (m1 & r1 & He1).
  set (r1' := add_warning ("Retry " +:+ pretty (0 + 1)%Z +:+ ": " +:+ m1) r1).
  destruct (H1 r1') as (m2 & r2 & He2).
  set (r2' := add_warning ("Retry " +:+ pretty (0 + 1 + 1)%Z +:+ ": " +:+ m2)
                r2).
  destruct (H2 r2') as (r3 & He3).
  assert (execute_scraping_with_retries w cfg wk0 result
          = Some (Ret tt,
                  report_success
                    (count_attempt (count_attempt (count_attempt wk0))),
                  r3)) as Hloop.
  { unfold execute_scraping_with_retries, retry_fuel. rewrite Hmax.
    change (S (S (Z.to_nat 2))) with 4.
    etrans; [apply (retry_loop_timeout 3 w cfg 0 wk0 result m1 r1);
             [lia|done]|].
    etrans; [apply (retry_loop_timeout 2 w cfg (0 + 1) (count_attempt wk0)
                      r1' m2 r2); [lia|done]|].
    apply (retry_loop_success 1 w cfg (0 + 1 + 1)
             (count_attempt (count_attempt wk0)) r2' r3); [lia|done]. }
  apply execute_scraping_frame in He1 as (Hw1 & Her1 & Hst1 & a1 & Hd1 & _).
  apply execute_scraping_frame in He2 as (Hw2 & Her2 & Hst2 & a2 & Hd2 & _).
  apply execute_scraping_frame in He3 as (Hw3 & Her3 & Hst3 & a3 & Hd3 & Hne).
  destruct (report_success_counts
              (count_attempt (count_attempt (count_attempt wk0))))
    as (Hf & Hc & Hs).
  exists r3, (report_success
                (count_attempt (count_attempt (count_attempt wk0)))), m1, m2.
  split; [exact Hloop|]. split_and!.
  - rewrite Hw3. unfold r2'. simpl. rewrite Hw2. unfold r1'. simpl.
    rewrite Hw1, <- app_assoc. done.
  - rewrite Her3. unfold r2'. simpl. rewrite Her2. unfold r1'. simpl.
    done.
  - rewrite Hst3. unfold r2'. simpl. rewrite Hst2. unfold r1'. simpl.
    done.
  - rewrite Hd3. intros [_ ?]%app_eq_nil. by apply Hne.
  - assert (∀ x, attempts (report_success x) = attempts x) as ->.
    { intros x. unfold report_success.
      by destruct (current_proxy x) eqn:?, (proxy_manager x) eqn:?. }
    simpl. lia.
  - done.
  - done.
  - done.
Qed.

Lemma retry_task_validates :
  validate_task_config scheme_is_http raw_retry_task = Ret retry_task_config.
Proof. vm_compute. reflexivity. Qed.

Lemma flaky_worker_initialized :
  initialize_browser_with_proxy flaky_world retry_task_config 3
    (new_ScrapingWorker (Some pool_ab)) = (Ret tt, flaky_worker_ready).
Proof. vm_compute. reflexivity. Qed.

Lemma flaky_worker_attempts : attempts flaky_worker_ready = 0%nat.
Proof. vm_compute. reflexivity. Qed.

Lemma hanging_session_times_out : times_out hanging_session retry_task_config.
Proof. intros result. eexists _, _. reflexivity. Qed.

Lemma endless_listing_succeeds : succeeds endless_listing retry_task_config.
Proof. intros result. eexists. reflexivity. Qed.

Lemma flaky_world_sessions :
  times_out (session flaky_world (attempts flaky_worker_ready))
    retry_task_config ∧
  times_out (session flaky_world (S (attempts flaky_worker_ready)))
    retry_task_config ∧
  succeeds (session flaky_world (S (S (attempts flaky_worker_ready))))
    retry_task_config.
Proof.
  rewrite flaky_worker_attempts. split_and!.
  - exact hanging_session_times_out.
  - exact hanging_session_times_out.
  - exact endless_listing_succeeds.
Qed.

Lemma timeouts_are_retried_without_proxy_report_witness :
  ∃ r wk,
    execute_scraping_with_retries flaky_world retry_task_config
      flaky_worker_ready (fresh_result "task-1") = Some (Ret tt, wk, r) ∧
    length (warnings r) = 2%nat ∧
    failure_reports wk = failure_reports flaky_worker_ready.
Proof.
  destruct flaky_world_sessions as (H0 & H1 & H2).
  destruct (timeouts_are_retried_without_proxy_report flaky_world
              retry_task_config flaky_worker_ready (fresh_result "task-1")
              eq_refl H0 H1 H2)
    as (r & wk & m1 & m2 & He & Hw & _ & _ & _ & _ & Hf & _).
  exists r, wk. split; [exact He|]. split; [|exact Hf].
  rewrite Hw. reflexivity.
Defined.

(** C3 as stated fails.  In [flaky_world] the task [raw_retry_task] has
    [max_retries = 2], its first two attempts raise the [timeout]
    ScrapingError and the third succeeds, and a proxy of [pool_ab] is
    in use throughout: the retry loop returns normally with two
    warnings, and the pool has been told of no failure, not of two.
    And [execute_task] hands back no [TaskResult] for this task: it
    raises when it builds the result object. *)
Lemma timeouts_report_no_proxy_failure :
  ∃ r wk p e,
    validate_task_config scheme_is_http raw_retry_task
    = Ret retry_task_config ∧
    max_retries retry_task_config = 2%Z ∧
    initialize_browser_with_proxy flaky_world retry_task_config 3
      (new_ScrapingWorker (Some pool_ab)) = (Ret tt, flaky_worker_ready) ∧
    times_out (session flaky_world 0) retry_task_config ∧
    times_out (session flaky_world 1) retry_task_config ∧
    succeeds (session flaky_world 2) retry_task_config ∧
    execute_scraping_with_retries flaky_world retry_task_config
      flaky_worker_ready (fresh_result "task-1") = Some (Ret tt, wk, r) ∧
    length (warnings r) = 2%nat ∧
    current_proxy flaky_worker_ready = Some p ∧
    current_proxy wk = Some p ∧
    failure_reports flaky_worker_ready = 0%nat ∧
    failure_reports wk = 0%nat ∧
    failure_reports wk ≠ 2%nat ∧
    execute_task scheme_is_http flaky_world raw_retry_task "task-1"
      (new_ScrapingWorker (Some pool_ab))
    = Some (Raise e, new_ScrapingWorker (Some pool_ab)).
Proof.
  eexists _, _, _, _. split_and!.
  - exact retry_task_validates.
  - reflexivity.
  - exact flaky_worker_initialized.
  - exact hanging_session_times_out.
  - exact hanging_session_times_out.
  - exact endless_listing_succeeds.
  - vm_compute. reflexivity.
  - reflexivity.
  - reflexivity.
  - reflexivity.
  - reflexivity.
  - reflexivity.
  - vm_compute. lia.
  - reflexivity.
Qed.

Lemma compute_units_floor (elapsed : Q) :
  (elapsed < 6)%Q → compute_units elapsed = min_compute_units.
Proof.
  intros Ht. unfold compute_units, Qmax, GenericMinMax.gmax.
  assert (elapsed / 60 < min_compute_units)%Q as Hlt.
  { apply Qlt_shift_div_r; [reflexivity|].
    refine (Qlt_le_trans _ _ _ Ht _). vm_compute. discriminate. }
  rewrite Qlt_alt in Hlt. by rewrite Hlt.
Qed.

Lemma compute_units_ge (elapsed : Q) :
  (min_compute_units <= compute_units elapsed)%Q.
Proof. unfold compute_units. apply Q.le_max_r. Qed.

(* ===================================================================== *)
(** * Proxy pool: what every series of calls keeps                        *)
(* ===================================================================== *)

Lemma healthy_flags_get_proxy c sticky now pm :
  healthy_flags pm → healthy_flags (get_proxy c sticky now pm).2.
Proof.
  intros Hfl. destruct (get_proxy c sticky now pm) as [r pm'] eqn:Hg; simpl.
  apply get_proxy_spec in Hg as [Hh Hr]. intros pid p. rewrite Hh.
  destruct r as [[q|]|e]; try (rewrite Hr; by apply Hfl).
  destruct Hr as (k & p0 & Hk & Hp0 & -> & ->).
  intros Hin [[<- <-]|[_ Hp]]%lookup_insert_Some; [|by eapply Hfl].
  simpl. by eapply Hfl.
Qed.

Lemma healthy_flags_mark_proxy_failed p pm :
  pool_inv pm → healthy_flags pm → healthy_flags (mark_proxy_failed p pm).
Proof.
  intros Hinv Hfl pid q Hin.
  assert (pid ≠ proxy_id p) as Hne.
  { intros ->. by apply (mark_proxy_failed_evicts pm p). }
  revert Hin. unfold mark_proxy_failed.
  destruct (proxies pm !! proxy_id p) as [e|] eqn:He; simpl;
    [|by apply Hfl].
  destruct (list_mem _ _) eqn:Hm; simpl.
  - intros Hin%list_remove_subseteq. rewrite lookup_insert_ne by done.
    by apply Hfl.
  - intros Hin. rewrite lookup_insert_ne by done. by apply Hfl.
Qed.

Lemma healthy_flags_mark_proxy_success p pm :
  healthy_flags pm → healthy_flags (mark_proxy_success p pm).
Proof.
  intros Hfl pid q. unfold mark_proxy_success.
  destruct (proxies pm !! proxy_id p) as [e|] eqn:He; simpl;
    [|by apply Hfl].
  destruct (list_mem _ _) eqn:Hm; simpl.
  - intros Hin [[<- <-]|[_ Hq]]%lookup_insert_Some; [done|by eapply Hfl].
  - rewrite elem_of_app, list_elem_of_singleton.
    intros Hin [[<- <-]|[Hne Hq]]%lookup_insert_Some; [done|].
    destruct Hin as [Hin| ->]; [by eapply Hfl|done].
Qed.

Lemma check_single_proxy_member pid ok rt now pm k :
  pool_inv pm → is_Some (proxies pm !! pid) →
  k ∈ healthy_proxies (check_single_proxy pid ok rt now pm) ↔
  (k = pid ∧ ok = true) ∨ (k ≠ pid ∧ k ∈ healthy_proxies pm).
Proof.
  intros [Hnd Hkn Hkey] [e He]. unfold check_single_proxy. rewrite He.
  destruct ok; destruct (list_mem _ _) eqn:Hm; simpl.
  - apply list_mem_true in Hm. destruct (decide (k = pid)) as [->|]; naive_solver.
  - apply list_mem_false in Hm. rewrite elem_of_app, list_elem_of_singleton.
    destruct (decide (k = pid)) as [->|]; naive_solver.
  - split.
    + intros Hin. right. split.
      * intros ->. by apply (list_remove_gone pid (healthy_proxies pm)).
      * by eapply list_remove_subseteq.
    + intros [[_ [=]]|[Hne Hin]]. clear Hm.
      induction (healthy_proxies pm) as [|y l IH]; simpl; [done|].
      apply NoDup_cons in Hnd as [Hy Hnd].
      case_decide as Hd; [subst; set_solver|].
      apply elem_of_cons in Hin as [->|Hin]; [by left|].
      right. apply IH; [done| |done]. intros x Hx. apply Hkn. by right.
  - apply list_mem_false in Hm. naive_solver.
Qed.

Lemma healthy_flags_check_single_proxy pid ok rt now pm :
  pool_inv pm → healthy_flags pm →
  healthy_flags (check_single_proxy pid ok rt now pm).
Proof.
  intros Hinv Hfl k q Hin.
  destruct (proxies pm !! pid) as [e|] eqn:He.
  - apply check_single_proxy_member in Hin as [[-> ->]|[Hne Hin]];
      [| |done|by rewrite He].
    + unfold check_single_proxy. rewrite He.
      destruct (list_mem _ _); simpl; rewrite lookup_insert_eq;
        by intros [= <-].
    + unfold check_single_proxy. rewrite He.
      destruct ok, (list_mem _ _); simpl; rewrite lookup_insert_ne by done;
        by apply Hfl.
  - revert Hin. unfold check_single_proxy. rewrite He. by apply Hfl.
Qed.

Lemma healthy_flags_add_endpoint info pm :
  healthy_flags pm → healthy_flags (add_endpoint (endpoint_of info) pm).
Proof.
  intros Hfl pid q Hin. simpl.
  intros [[<- <-]|[_ Hq]]%lookup_insert_Some; [done|by eapply Hfl].
Qed.

Lemma healthy_flags_remove_endpoint pid pm :
  healthy_flags pm → healthy_flags (remove_endpoint pid pm).
Proof.
  intros Hfl k q. unfold remove_endpoint. simpl.
  destruct (list_mem _ _); simpl.
  - intros Hin%list_remove_subseteq [_ Hq]%lookup_delete_Some.
    by eapply Hfl.
  - intros Hin [_ Hq]%lookup_delete_Some. by eapply Hfl.
Qed.

Lemma perform_health_check_sync_ok order probe pm :
  pool_inv pm ∧ healthy_flags pm →
  pool_inv (perform_health_check_sync order probe pm) ∧
  healthy_flags (perform_health_check_sync order probe pm).
Proof.
  unfold perform_health_check_sync. revert pm.
  induction order as [|pid order IH]; intros pm [Hinv Hfl]; simpl; [done|].
  apply IH. split.
  - by apply check_single_proxy_inv.
  - by apply healthy_flags_check_single_proxy.
Qed.

Lemma load_endpoints_ok proxy_data pm :
  pool_inv pm ∧ healthy_flags pm →
  pool_inv (load_endpoints proxy_data pm) ∧
  healthy_flags (load_endpoints proxy_data pm).
Proof.
  unfold load_endpoints. revert pm.
  induction proxy_data as [|info l IH]; intros pm [Hinv Hfl]; simpl; [done|].
  apply IH. split.
  - by apply add_endpoint_inv.
  - by apply healthy_flags_add_endpoint.
Qed.

Lemma add_new_endpoints_ok proxy_data pm :
  pool_inv pm ∧ healthy_flags pm →
  pool_inv (add_new_endpoints proxy_data pm) ∧
  healthy_flags (add_new_endpoints proxy_data pm).
Proof.
  unfold add_new_endpoints. revert pm.
  induction proxy_data as [|info l IH]; intros pm [Hinv Hfl]; simpl; [done|].
  apply IH. case_bool_decide; [done|]. split.
  - by apply add_endpoint_inv.
  - by apply healthy_flags_add_endpoint.
Qed.

Lemma remove_endpoints_ok pids pm :
  pool_inv pm ∧ healthy_flags pm →
  pool_inv (foldr remove_endpoint pm pids) ∧
  healthy_flags (foldr remove_endpoint pm pids).
Proof.
  intros Hok. induction pids as [|pid l IH]; simpl; [done|].
  destruct IH as [Hinv Hfl]. split.
  - by apply remove_endpoint_inv.
  - by apply healthy_flags_remove_endpoint.
Qed.

Lemma stamp_refresh_ok now pm :
  pool_inv pm ∧ healthy_flags pm →
  pool_inv (stamp_refresh now pm) ∧ healthy_flags (stamp_refresh now pm).
Proof. intros [[? ? ?] ?]. by split. Qed.

Lemma call_ok pm c :
  pool_inv pm ∧ healthy_flags pm →
  pool_inv (call pm c) ∧ healthy_flags (call pm c).
Proof.
  intros Hok. destruct c as [data order probe start now|data order probe now|
                             order probe|cn sticky now|p|p]; simpl.
  - unfold initialize. destruct data as [|i data]; [done|].
    pose proof (perform_health_check_sync_ok order probe _
                  (load_endpoints_ok (i :: data) pm Hok)) as Hok'.
    destruct start; simpl; [by apply stamp_refresh_ok|done].
  - unfold refresh_proxy_list. destruct data as [|i data]; [done|]. simpl.
    apply stamp_refresh_ok, perform_health_check_sync_ok, remove_endpoints_ok.
    by apply (add_new_endpoints_ok (i :: data)).
  - by apply perform_health_check_sync_ok.
  - destruct Hok as [Hinv Hfl]. split.
    + by apply get_proxy_inv.
    + by apply healthy_flags_get_proxy.
  - destruct Hok as [Hinv Hfl]. split.
    + by apply mark_proxy_failed_inv.
    + by apply healthy_flags_mark_proxy_failed.
  - destruct Hok as [Hinv Hfl]. split.
    + by apply mark_proxy_success_inv.
    + by apply healthy_flags_mark_proxy_success.
Qed.

(** X1.  Whatever series of public calls a [ProxyManager] goes through
    after [__init__] (initialize, refresh, health passes, [get_proxy],
    [mark_proxy_failed], [mark_proxy_success]), its healthy list has no
    duplicate and names only stored endpoints, every endpoint is stored
    under its own [host:port], and every endpoint listed healthy has
    [is_healthy = True] and [failure_count = 0]. *)
Theorem pool_calls_keep_invariant
    (max_fail : nat) (pref : option string) (cs : list PoolCall) :
  pool_inv (after_calls max_fail pref cs) ∧
  healthy_flags (after_calls max_fail pref cs).
Proof.
  unfold after_calls.
  assert (pool_inv (new_ProxyManager max_fail pref) ∧
          healthy_flags (new_ProxyManager max_fail pref)) as Hnew.
  { split; [apply reachable_inv; constructor|].
    intros pid p Hin. by apply elem_of_nil in Hin. }
  revert Hnew. generalize (new_ProxyManager max_fail pref).
  induction cs as [|c cs IH]; intros pm Hok; simpl; [done|].
  by apply IH, call_ok.
Qed.

Lemma country_proxies_known m c ids :
  (∀ pid, pid ∈ ids → is_Some (m !! pid)) →
  ∃ r, country_proxies m c ids = Ret r.
Proof.
  induction ids as [|i ids IH]; intros Hk; simpl; [by eauto|].
  destruct (Hk i) as [p ->]; [by left|].
  destruct IH as [r ->]; [intros pid Hin; apply Hk; by right|]. eauto.
Qed.

Lemma available_proxies_known c pm :
  pool_inv pm →
  ∃ av, available_proxies c pm = Ret av ∧
        (av = [] → healthy_proxies pm = []) ∧
        ∀ pid, pid ∈ av → pid ∈ healthy_proxies pm.
Proof.
  intros [Hnd Hkn Hkey]. unfold available_proxies.
  destruct (truthy c); [|by eauto].
  destruct (country_proxies_known (proxies pm) (default "" c)
              (healthy_proxies pm) Hkn) as [r Hr].
  rewrite Hr. destruct r as [|x xs]; [by eauto|].
  eexists. split_and!; [done..|]. intros pid Hin.
  by eapply country_proxies_subseteq.
Qed.

(** X2.  In a pool that keeps its invariant, [get_proxy] never raises,
    whatever country and stickiness are asked; it answers [None] exactly
    when no proxy is healthy; and it leaves the healthy list and the set
    of known proxies as they were. *)
Theorem get_proxy_answers_unless_pool_is_empty
    (pm : ProxyManager) (c : option string) (sticky : bool) (now : Z) :
  pool_inv pm →
  ∃ o,
    (get_proxy c sticky now pm).1 = Ret o ∧
    (o = None ↔ healthy_proxies pm = []) ∧
    healthy_proxies (get_proxy c sticky now pm).2 = healthy_proxies pm ∧
    dom (proxies (get_proxy c sticky now pm).2) = dom (proxies pm).
Proof.
  intros Hinv.
  destruct (get_proxy c sticky now pm) as [r pm'] eqn:Hg. simpl.
  pose proof Hg as Hspec. apply get_proxy_spec in Hspec as [Hh Hr].
  assert (dom (proxies pm') = dom (proxies pm)) as Hdom.
  { destruct r as [[q|]|e]; try by rewrite Hr.
    destruct Hr as (k & p & _ & Hp & _ & ->).
    rewrite dom_insert_L. apply elem_of_dom_2 in Hp. set_solver. }
  revert Hg. unfold get_proxy.
  destruct (healthy_proxies pm) as [|h hs] eqn:Hhp.
  { intros [= <- <-]. by exists None. }
  destruct (available_proxies_known c pm Hinv) as (av & -> & Hne & Hsub).
  rewrite Hhp in Hne, Hsub. intros Hsel.
  pose proof Hsel as Hs. apply select_spec in Hs as [_ Hs].
  destruct r as [[q|]|e].
  - exists (Some q). by split_and!.
  - destruct Hs as [-> _]. by specialize (Hne eq_refl).
  - exfalso. revert Hsel. unfold select.
    destruct av as [|a av]; [done|].
    assert (∀ pid pm0, pid ∈ a :: av → proxies pm0 = proxies pm →
              serve pid now pm0 ≠ (Raise e, pm')) as Hserve.
    { intros pid pm0 Hin Hp. unfold serve. rewrite Hp.
      destruct (inv_known pm Hinv pid) as [p ->]; [|done].
      rewrite Hhp. by apply Hsub. }
    destruct (lookup_lt_is_Some_2 (a :: av)
                (current_proxy_index pm mod length (a :: av))) as [pid Hpid].
    { apply Nat.mod_upper_bound. done. }
    rewrite Hpid.
    assert (pid ∈ a :: av) as Hin by (apply list_elem_of_lookup; eauto).
    destruct (last_proxy pm) as [lp|].
    + destruct (sticky && list_mem lp (a :: av)) eqn:Hst.
      * apply andb_true_iff in Hst as [_ Hlp%list_mem_true].
        by apply Hserve.
      * by apply Hserve.
    + by apply Hserve.
Qed.

Lemma pool_ab_inv : pool_inv pool_ab.
Proof. apply reachable_inv, pool_ab_reachable. Qed.

Lemma get_proxy_answers_unless_pool_is_empty_witness :
  ∃ o, (get_proxy (Some "de") true 9 pool_ab).1 = Ret o ∧
       (o = None ↔ healthy_proxies pool_ab = []).
Proof.
  destruct (get_proxy_answers_unless_pool_is_empty pool_ab (Some "de") true 9
              pool_ab_inv) as (o & Ho & Hiff & _).
  exists o. split; [exact Ho|exact Hiff].
Defined.

Lemma get_proxy_plain_step now pm :
  pool_inv pm → healthy_proxies pm ≠ [] →
  ∃ pid p,
    healthy_proxies pm
      !! (current_proxy_index pm mod length (healthy_proxies pm)) = Some pid ∧
    proxies pm !! pid = Some p ∧
    (get_proxy None false now pm).1 = Ret (Some (set_last_used now p)) ∧
    current_proxy_index (get_proxy None false now pm).2
    = S (current_proxy_index pm) ∧
    healthy_proxies (get_proxy None false now pm).2 = healthy_proxies pm.
Proof.
  intros Hinv Hne. unfold get_proxy, available_proxies. simpl.
  destruct (healthy_proxies pm) as [|h hs] eqn:Hh; [done|].
  unfold select.
  destruct (lookup_lt_is_Some_2 (h :: hs)
              (current_proxy_index pm mod length (h :: hs))) as [pid Hpid].
  { apply Nat.mod_upper_bound. done. }
  rewrite Hpid.
  assert (match last_proxy pm with
          | Some lp => false && list_mem lp (h :: hs)
          | None => false
          end = false) as -> by by destruct (last_proxy pm).
  destruct (inv_known pm Hinv pid) as [p Hp].
  { rewrite Hh. apply list_elem_of_lookup. eauto. }
  exists pid, p. unfold serve. simpl. rewrite Hp. simpl. by rewrite Hh.
Qed.

(** X3.  Round-robin rotation: with a non-empty healthy list and nothing
    else touching the pool, the call that follows [k] plain [get_proxy()]
    calls serves the endpoint whose id is at position
    [(index + k) mod n] of the healthy list, [n] its length; so [n]
    calls in a row go once round the list. *)
Theorem get_proxy_serves_round_robin
    (pm : ProxyManager) (nows : list Z) (now : Z) :
  pool_inv pm →
  healthy_proxies pm ≠ [] →
  ∃ q,
    (get_proxy None false now (serve_round nows pm)).1 = Ret (Some q) ∧
    healthy_proxies pm
      !! ((current_proxy_index pm + length nows)
          mod length (healthy_proxies pm))
    = Some (proxy_id q).
Proof.
  unfold serve_round. revert pm.
  induction nows as [|t nows IH]; intros pm Hinv Hne; simpl.
  - destruct (get_proxy_plain_step now pm Hinv Hne)
      as (pid & p & Hpid & Hp & -> & _).
    eexists. split; [done|]. rewrite Nat.add_0_r, Hpid.
    by rewrite <- (inv_key pm Hinv pid p Hp).
  - destruct (get_proxy_plain_step t pm Hinv Hne)
      as (_ & _ & _ & _ & _ & Hidx & Hh).
    destruct (IH (get_proxy None false t pm).2) as (q & Hq & Hl).
    { by apply get_proxy_inv. }
    { by rewrite Hh. }
    exists q. split; [done|]. rewrite Hh, Hidx in Hl.
    by rewrite <- Nat.add_succ_comm.
Qed.

Lemma get_proxy_serves_round_robin_witness :
  ∃ q,
    (get_proxy None false 5 (serve_round [1; 2; 3]%Z pool_ab)).1
    = Ret (Some q) ∧
    healthy_proxies pool_ab !! 1 = Some (proxy_id q).
Proof.
  assert (healthy_proxies pool_ab ≠ []) as Hne by (vm_compute; congruence).
  exact (get_proxy_serves_round_robin pool_ab [1; 2; 3]%Z 5 pool_ab_inv Hne).
Defined.

Lemma check_single_proxy_lookup pid ok rt now pm k :
  proxies (check_single_proxy pid ok rt now pm) !! k
  = if decide (k = pid)
    then set_checked ok rt now <$> proxies pm !! k
    else proxies pm !! k.
Proof.
  unfold check_single_proxy.
  destruct (proxies pm !! pid) as [e|] eqn:He.
  - assert (proxies (if ok
              then if list_mem pid (healthy_proxies pm)
                   then with_proxies (<[pid:=set_checked ok rt now e]>
                                        (proxies pm)) pm
                   else with_healthy (healthy_proxies pm ++ [pid])
                          (with_proxies (<[pid:=set_checked ok rt now e]>
                                           (proxies pm)) pm)
              else if list_mem pid (healthy_proxies pm)
                   then with_healthy (list_remove pid (healthy_proxies pm))
                          (with_proxies (<[pid:=set_checked ok rt now e]>
                                           (proxies pm)) pm)
                   else with_proxies (<[pid:=set_checked ok rt now e]>
                                        (proxies pm)) pm)
            = <[pid:=set_checked ok rt now e]> (proxies pm)) as Hp
      by by destruct ok, (list_mem pid (healthy_proxies pm)).
    simpl. rewrite Hp. case_decide as Hd.
    + subst k. by rewrite lookup_insert_eq, He.
    + by rewrite lookup_insert_ne.
  - case_decide as Hd; [|done]. subst k. by rewrite He.
Qed.

Lemma health_pass_general order probe pm :
  pool_inv pm → NoDup order →
  (∀ pid, pid ∈ order → is_Some (proxies pm !! pid)) →
  (∀ k, k ∈ healthy_proxies (perform_health_check_sync order probe pm) ↔
        (k ∈ order ∧ probe_ok (probe k) = true) ∨
        (k ∉ order ∧ k ∈ healthy_proxies pm)) ∧
  (∀ k, proxies (perform_health_check_sync order probe pm) !! k
        = if bool_decide (k ∈ order)
          then set_checked (probe_ok (probe k)) (probe_time (probe k))
                 (probe_at (probe k)) <$> proxies pm !! k
          else proxies pm !! k).
Proof.
  unfold perform_health_check_sync. revert pm.
  induction order as [|a order IH]; intros pm Hinv Hnd Hkn; simpl.
  { split; intros k.
    - split; [intros ?; right; split; [apply not_elem_of_nil|done]|].
      by intros [[?%elem_of_nil _]|[_ ?]].
    - done. }
  apply NoDup_cons in Hnd as [Ha Hnd].
  set (pm1 := check_single_proxy a (probe_ok (probe a))
                (probe_time (probe a)) (probe_at (probe a)) pm).
  assert (∀ k, is_Some (proxies pm1 !! k) ↔ is_Some (proxies pm !! k))
    as Hsame.
  { intros k. unfold pm1. rewrite check_single_proxy_lookup.
    case_decide; [|done]. by rewrite fmap_is_Some. }
  destruct (IH pm1) as [Hmem Hlook].
  { by apply check_single_proxy_inv. }
  { done. }
  { intros pid Hin. apply Hsame, Hkn. by right. }
  split; intros k.
  - rewrite Hmem. unfold pm1.
    rewrite check_single_proxy_member by (done || (apply Hkn; by left)).
    rewrite !elem_of_cons.
    destruct (decide (k = a)) as [->|Hne]; naive_solver.
  - rewrite Hlook. unfold pm1. rewrite check_single_proxy_lookup.
    destruct (decide (k = a)) as [->|Hne].
    + rewrite bool_decide_eq_false_2 by done.
      rewrite bool_decide_eq_true_2 by by left. done.
    + case_bool_decide as Hin.
      * rewrite bool_decide_eq_true_2 by by right. done.
      * rewrite bool_decide_eq_false_2; [done|].
        by intros [?|?]%elem_of_cons.
Qed.

Lemma health_pass_over_keys
    (order : list string) (probe : string → Probe) (pm : ProxyManager) :
  pool_inv pm →
  lists_keys order pm →
  let pm' := perform_health_check_sync order probe pm in
  (∀ pid, pid ∈ healthy_proxies pm' ↔
          is_Some (proxies pm !! pid) ∧ probe_ok (probe pid) = true) ∧
  (∀ pid p, proxies pm !! pid = Some p →
     ∃ p', proxies pm' !! pid = Some p' ∧
           is_healthy p' = probe_ok (probe pid) ∧
           failure_count p'
           = (if probe_ok (probe pid) then 0 else S (failure_count p)) ∧
           same_identity p p') ∧
  dom (proxies pm') = dom (proxies pm).
Proof.
  intros Hinv [Hnd Hkeys]. cbv zeta.
  destruct (health_pass_general order probe pm Hinv Hnd) as [Hmem Hlook].
  { intros pid. apply Hkeys. }
  split_and!.
  - intros pid. rewrite Hmem, Hkeys. split; [|naive_solver].
    intros [?|[Hn Hin]]; [done|]. exfalso. apply Hn.
    by apply (inv_known pm Hinv).
  - intros pid p Hp. rewrite Hlook.
    rewrite bool_decide_eq_true_2 by (apply Hkeys; by rewrite Hp).
    rewrite Hp. simpl. eexists. split; [done|]. by split_and!.
  - apply set_eq. intros k. rewrite !elem_of_dom.
    rewrite Hlook. case_bool_decide; [|done]. by rewrite fmap_is_Some.
Qed.

(** X4.  After a health pass over all stored proxies, the healthy list
    holds exactly the ids whose probe succeeded; each endpoint's
    [is_healthy] is its probe's verdict, its failure counter is reset by
    a success and raised by one by a failure; no proxy is added or
    dropped. *)
Theorem health_pass_lists_exactly_the_passing
    (order : list string) (probe : string → Probe) (pm : ProxyManager) :
  pool_inv pm →
  lists_keys order pm →
  let pm' := perform_health_check_sync order probe pm in
  (∀ pid, pid ∈ healthy_proxies pm' ↔
          is_Some (proxies pm !! pid) ∧ probe_ok (probe pid) = true) ∧
  (∀ pid p, proxies pm !! pid = Some p →
     ∃ p', proxies pm' !! pid = Some p' ∧
           is_healthy p' = probe_ok (probe pid) ∧
           failure_count p'
           = (if probe_ok (probe pid) then 0 else S (failure_count p)) ∧
           same_identity p p') ∧
  dom (proxies pm') = dom (proxies pm).
Proof. exact (health_pass_over_keys order probe pm). Qed.

Lemma pool_ab_keys : lists_keys ["10.0.0.1:8080"; "10.0.0.2:8080"] pool_ab.
Proof.
  split.
  - apply (bool_decide_unpack _). vm_compute. exact I.
  - assert (dom (proxies pool_ab)
            = list_to_set ["10.0.0.1:8080"; "10.0.0.2:8080"]) as Hd
      by (vm_compute; reflexivity).
    intros pid. by rewrite <- elem_of_dom, Hd, elem_of_list_to_set.
Qed.

Lemma health_pass_lists_exactly_the_passing_witness :
  "10.0.0.1:8080"
    ∈ healthy_proxies
        (perform_health_check_sync ["10.0.0.1:8080"; "10.0.0.2:8080"]
           (λ pid, mkProbe (String.eqb pid "10.0.0.2:8080") 20 3)
           pool_ab) ↔
  is_Some (proxies pool_ab !! "10.0.0.1:8080") ∧
  String.eqb "10.0.0.1:8080" "10.0.0.2:8080" = true.
Proof.
  exact (proj1 (health_pass_lists_exactly_the_passing
                  ["10.0.0.1:8080"; "10.0.0.2:8080"]
                  (λ pid, mkProbe (String.eqb pid "10.0.0.2:8080") 20 3)
                  pool_ab pool_ab_inv pool_ab_keys) "10.0.0.1:8080").
Defined.

Lemma load_endpoints_spec proxy_data pm :
  dom (proxies (load_endpoints proxy_data pm))
  = dom (proxies pm) ∪ provider_ids proxy_data ∧
  healthy_proxies (load_endpoints proxy_data pm) = healthy_proxies pm.
Proof.
  unfold load_endpoints, provider_ids. revert pm.
  induction proxy_data as [|info l IH]; intros pm; simpl.
  - split; [set_solver|done].
  - destruct (IH (add_endpoint (endpoint_of info) pm)) as [-> ->].
    simpl. rewrite dom_insert_L. split; [set_solver|done].
Qed.

Lemma add_new_endpoints_spec proxy_data pm :
  dom (proxies (add_new_endpoints proxy_data pm))
  = dom (proxies pm) ∪ provider_ids proxy_data ∧
  healthy_proxies (add_new_endpoints proxy_data pm) = healthy_proxies pm ∧
  ∀ k, is_Some (proxies pm !! k) →
       proxies (add_new_endpoints proxy_data pm) !! k = proxies pm !! k.
Proof.
  unfold add_new_endpoints, provider_ids. revert pm.
  induction proxy_data as [|info l IH]; intros pm; simpl.
  - split_and!; [set_solver|done..].
  - case_bool_decide as Hk.
    + destruct (IH pm) as (-> & -> & Hl). split_and!; [|done..].
      apply elem_of_dom in Hk. set_solver.
    + destruct (IH (add_endpoint (endpoint_of info) pm)) as (-> & -> & Hl).
      simpl. rewrite dom_insert_L. split_and!; [set_solver|done|].
      intros k Hsome. rewrite Hl; simpl.
      * rewrite lookup_insert_ne; [done|]. intros <-. done.
      * rewrite lookup_insert_is_Some. destruct (decide (proxy_id
          (endpoint_of info) = k)); eauto.
Qed.

Lemma remove_endpoints_lookup pids pm k :
  proxies (foldr remove_endpoint pm pids) !! k
  = if bool_decide (k ∈ pids) then None else proxies pm !! k.
Proof.
  induction pids as [|pid l IH]; simpl; [done|].
  assert (proxies (remove_endpoint pid (foldr remove_endpoint pm l))
          = delete pid (proxies (foldr remove_endpoint pm l))) as ->.
  { unfold remove_endpoint. by destruct (list_mem _ _). }
  destruct (decide (k = pid)) as [->|Hne].
  - rewrite lookup_delete_eq. by rewrite bool_decide_eq_true_2 by by left.
  - rewrite lookup_delete_ne by done. rewrite IH.
    case_bool_decide as Hin.
    + by rewrite bool_decide_eq_true_2 by by right.
    + rewrite bool_decide_eq_false_2; [done|].
      by intros [?|?]%elem_of_cons.
Qed.

(** X5.  [initialize] answers [False] and changes nothing when the
    provider has no proxy to offer.  Otherwise, on a new manager, it
    loads every offered proxy and probes them all: the known proxies are
    exactly the offered ones, the healthy list holds exactly those whose
    probe succeeded, and the answer is [True] if the monitor could be
    started, also when not a single proxy passed its probe, in which
    case every [get_proxy] call returns [None]. *)
Theorem initialize_loads_and_probes
    (proxy_data : list ProviderProxy) (order : list string)
    (probe : string → Probe) (start : res PyExc unit) (now : Z)
    (max_fail : nat) (pref : option string) :
  let pm0 := new_ProxyManager max_fail pref in
  let out := initialize proxy_data order probe start now pm0 in
  initialize [] order probe start now pm0 = (false, pm0) ∧
  (proxy_data ≠ [] →
   lists_keys order (load_endpoints proxy_data pm0) →
   out.1 = (if start is Ret _ then true else false) ∧
   dom (proxies out.2) = provider_ids proxy_data ∧
   (∀ pid, pid ∈ healthy_proxies out.2 ↔
           pid ∈ provider_ids proxy_data ∧ probe_ok (probe pid) = true) ∧
   ((∀ pid, probe_ok (probe pid) = false) →
    ∀ c sticky t, (get_proxy c sticky t out.2).1 = Ret None)).
Proof.
  cbv zeta. split; [done|]. intros Hne Hkeys.
  set (pm0 := new_ProxyManager max_fail pref) in *.
  assert (pool_inv pm0) as Hinv0 by (apply reachable_inv; constructor).
  assert (pool_inv (load_endpoints proxy_data pm0)) as Hinv1.
  { apply load_endpoints_ok. split; [done|].
    intros pid p Hin. by apply elem_of_nil in Hin. }
  destruct (load_endpoints_spec proxy_data pm0) as [Hdom1 Hh1].
  destruct (health_pass_over_keys order probe
              (load_endpoints proxy_data pm0) Hinv1 Hkeys)
    as (Hmem & _ & Hdom2).
  set (pm2 := perform_health_check_sync order probe
                (load_endpoints proxy_data pm0)) in *.
  assert (dom (proxies pm2) = provider_ids proxy_data) as Hd.
  { rewrite Hdom2, Hdom1. simpl. rewrite dom_empty_L. set_solver. }
  assert (∀ pid, pid ∈ healthy_proxies pm2 ↔
            pid ∈ provider_ids proxy_data ∧ probe_ok (probe pid) = true)
    as Hm.
  { intros pid. rewrite Hmem, <- elem_of_dom, Hdom1. simpl.
    rewrite dom_empty_L. set_solver. }
  assert (∀ pm', healthy_proxies pm' = healthy_proxies pm2 →
            (∀ pid, probe_ok (probe pid) = false) →
            ∀ c sticky t, (get_proxy c sticky t pm').1 = Ret None) as Hnone.
  { intros pm' Hh Hall c sticky t. unfold get_proxy. rewrite Hh.
    destruct (healthy_proxies pm2) as [|h hs] eqn:Hhp; [done|].
    destruct (proj1 (Hm h)) as [_ Hok]; [by left|].
    by rewrite Hall in Hok. }
  unfold initialize. destruct proxy_data as [|i l]; [done|].
  fold pm2. destruct start; simpl; split_and!; try done.
  - by apply Hnone.
  - by apply Hnone.
Qed.

Lemma initialize_loads_and_probes_witness :
  (initialize provider_answer ["10.0.0.2:8080"; "10.0.0.3:8080"]
     (λ _, mkProbe false 0 1) (Ret tt) 2 (new_ProxyManager 3 None)).1
  = true.
Proof.
  assert (provider_answer ≠ []) as Hne by done.
  assert (lists_keys ["10.0.0.2:8080"; "10.0.0.3:8080"]
            (load_endpoints provider_answer (new_ProxyManager 3 None)))
    as Hkeys.
  { split.
    - apply (bool_decide_unpack _). vm_compute. exact I.
    - assert (dom (proxies (load_endpoints provider_answer
                              (new_ProxyManager 3 None)))
              = list_to_set ["10.0.0.2:8080"; "10.0.0.3:8080"]) as Hd
        by (vm_compute; reflexivity).
      intros pid. by rewrite <- elem_of_dom, Hd, elem_of_list_to_set. }
  exact (proj1 (proj2 (initialize_loads_and_probes provider_answer
                         ["10.0.0.2:8080"; "10.0.0.3:8080"]
                         (λ _, mkProbe false 0 1) (Ret tt) 2 3 None)
                  Hne Hkeys)).
Defined.

Lemma add_new_endpoints_inv proxy_data pm :
  pool_inv pm → pool_inv (add_new_endpoints proxy_data pm).
Proof.
  unfold add_new_endpoints. revert pm.
  induction proxy_data as [|info l IH]; intros pm Hinv; simpl; [done|].
  apply IH. case_bool_decide; [done|]. by apply add_endpoint_inv.
Qed.

Lemma remove_endpoints_inv pids pm :
  pool_inv pm → pool_inv (foldr remove_endpoint pm pids).
Proof.
  intros Hinv. induction pids as [|pid l IH]; simpl; [done|].
  by apply remove_endpoint_inv.
Qed.

(** X6.  [refresh_proxy_list] answers [False] and changes nothing when
    the provider has no proxy to offer.  Otherwise it answers [True];
    afterwards the known proxies are exactly the offered ones and the
    healthy list holds exactly the offered ones whose probe succeeded;
    and a proxy that was known before keeps its stored record: its
    credentials, country and [last_used] are not replaced by what the
    provider sent. *)
Theorem refresh_reconciles_with_provider
    (proxy_data : list ProviderProxy) (order : list string)
    (probe : string → Probe) (now : Z) (pm : ProxyManager) :
  let out := refresh_proxy_list proxy_data order probe now pm in
  refresh_proxy_list [] order probe now pm = (false, pm) ∧
  (pool_inv pm →
   proxy_data ≠ [] →
   NoDup order →
   (∀ pid, pid ∈ order ↔ pid ∈ provider_ids proxy_data) →
   out.1 = true ∧
   dom (proxies out.2) = provider_ids proxy_data ∧
   (∀ pid, pid ∈ healthy_proxies out.2 ↔
           pid ∈ provider_ids proxy_data ∧ probe_ok (probe pid) = true) ∧
   (∀ pid p, proxies pm !! pid = Some p →
      pid ∈ provider_ids proxy_data →
      ∃ p', proxies out.2 !! pid = Some p' ∧ same_identity p p')).
Proof.
  cbv zeta. split; [done|]. intros Hinv Hne Hnd Horder.
  set (ids := provider_ids proxy_data) in *.
  set (pm1 := add_new_endpoints proxy_data pm).
  destruct (add_new_endpoints_spec proxy_data pm) as (Hdom1 & Hh1 & Hl1).
  fold pm1 ids in Hdom1, Hh1, Hl1.
  set (removed := elements (dom (proxies pm1) ∖ ids)).
  set (pm2 := foldr remove_endpoint pm1 removed).
  assert (∀ k, proxies pm2 !! k
               = if bool_decide (k ∈ ids) then proxies pm1 !! k else None)
    as Hl2.
  { intros k. unfold pm2. rewrite remove_endpoints_lookup. unfold removed.
    case_bool_decide as Hin; case_bool_decide as Hk; try done.
    - apply elem_of_elements in Hin. set_solver.
    - destruct (proxies pm1 !! k) eqn:Hp; [|done]. exfalso. apply Hin.
      apply elem_of_elements, elem_of_difference. split; [|done].
      by apply elem_of_dom. }
  assert (dom (proxies pm2) = ids) as Hdom2.
  { apply set_eq. intros k. rewrite elem_of_dom, Hl2.
    case_bool_decide as Hk.
    - split; [done|]. intros _. apply elem_of_dom. rewrite Hdom1.
      set_solver.
    - split; [by intros [? ?]|done]. }
  assert (pool_inv pm2) as Hinv2
    by by apply remove_endpoints_inv, add_new_endpoints_inv.
  assert (lists_keys order pm2) as Hkeys.
  { split; [done|]. intros pid. by rewrite Horder, <- elem_of_dom, Hdom2. }
  destruct (health_pass_over_keys order probe pm2 Hinv2
              Hkeys) as (Hmem & Hrec & Hdom3).
  unfold refresh_proxy_list. destruct proxy_data as [|i l]; [done|].
  fold pm1 ids removed pm2. simpl. split_and!.
  - done.
  - by rewrite Hdom3.
  - intros pid. by rewrite Hmem, <- elem_of_dom, Hdom2.
  - intros pid p Hp Hin.
    destruct (Hrec pid p) as (p' & Hp' & _ & _ & Hid); [|by exists p'].
    rewrite Hl2, bool_decide_eq_true_2 by done.
    rewrite Hl1; [done|]. by rewrite Hp.
Qed.

Lemma refresh_reconciles_with_provider_witness :
  ∃ p',
    proxies (refresh_proxy_list provider_answer
               ["10.0.0.2:8080"; "10.0.0.3:8080"]
               (λ _, mkProbe true 15 4) 5 pool_ab).2 !! "10.0.0.2:8080"
    = Some p' ∧
    same_identity (set_checked true 40 1 proxy_b) p'.
Proof.
  assert (provider_answer ≠ []) as Hne by done.
  assert (NoDup ["10.0.0.2:8080"; "10.0.0.3:8080"]) as Hnd
    by (apply (bool_decide_unpack _); vm_compute; exact I).
  assert (∀ pid, pid ∈ ["10.0.0.2:8080"; "10.0.0.3:8080"] ↔
                 pid ∈ provider_ids provider_answer) as Hord.
  { assert (provider_ids provider_answer
            = list_to_set ["10.0.0.2:8080"; "10.0.0.3:8080"]) as ->
      by (vm_compute; reflexivity).
    intros pid. by rewrite elem_of_list_to_set. }
  refine (proj2 (proj2 (proj2 (proj2 (refresh_reconciles_with_provider
            provider_answer ["10.0.0.2:8080"; "10.0.0.3:8080"]
            (λ _, mkProbe true 15 4) 5 pool_ab)
            pool_ab_inv Hne Hnd Hord)))
            "10.0.0.2:8080" (set_checked true 40 1 proxy_b) _ _).
  - vm_compute. reflexivity.
  - apply Hord. left.
Defined.

Lemma list_remove_notin x (l : list string) : x ∉ l → list_remove x l = l.
Proof.
  induction l as [|y l IH]; simpl; [done|]. intros Hn.
  apply not_elem_of_cons in Hn as [Hne Hn].
  case_decide; [done|]. by rewrite IH.
Qed.

(** X7.  [get_stats] never reports more healthy proxies than proxies in
    all. *)
Theorem stats_healthy_at_most_total (interval : Z) (pm : ProxyManager) :
  pool_inv pm →
  (healthy_count (get_stats interval pm)
   ≤ total_proxies (get_stats interval pm))%nat.
Proof.
  intros [Hnd Hkn Hkey]. simpl.
  rewrite <- (size_list_to_set (C:=gset string) (healthy_proxies pm))
    by done.
  rewrite <- size_dom. apply subseteq_size.
  intros k Hk%elem_of_list_to_set. by apply elem_of_dom, Hkn.
Qed.

Lemma stats_healthy_at_most_total_witness :
  (healthy_count (get_stats 300 pool_ab)
   ≤ total_proxies (get_stats 300 pool_ab))%nat.
Proof. exact (stats_healthy_at_most_total 300 pool_ab pool_ab_inv). Defined.

Lemma stats_serve pid now pm : stats (serve pid now pm).2 = stats pm.
Proof. unfold serve. by destruct (proxies pm !! pid). Qed.

Lemma stats_get_proxy c sticky now pm :
  stats (get_proxy c sticky now pm).2 = stats pm.
Proof.
  unfold get_proxy. destruct (healthy_proxies pm); [done|].
  destruct (available_proxies c pm) as [av|e]; [|done].
  unfold select. destruct av as [|a av]; [done|].
  destruct (match last_proxy pm with
            | Some lp => sticky && list_mem lp (a :: av)
            | None => false
            end).
  - destruct (last_proxy pm); [|done]. apply stats_serve.
  - destruct ((a :: av) !! _); [|done]. by rewrite stats_serve.
Qed.

Lemma stats_check_single_proxy pid ok rt now pm :
  stats (check_single_proxy pid ok rt now pm) = stats pm.
Proof.
  unfold check_single_proxy. destruct (proxies pm !! pid); [|done].
  by destruct ok, (list_mem _ _).
Qed.

Lemma stats_perform_health_check_sync order probe pm :
  stats (perform_health_check_sync order probe pm) = stats pm.
Proof.
  unfold perform_health_check_sync. revert pm.
  induction order as [|a l IH]; intros pm; simpl; [done|].
  by rewrite IH, stats_check_single_proxy.
Qed.

Lemma stats_load_endpoints data pm :
  stats (load_endpoints data pm) = stats pm.
Proof.
  unfold load_endpoints. revert pm.
  induction data as [|a l IH]; intros pm; simpl; [done|]. by rewrite IH.
Qed.

Lemma stats_add_new_endpoints data pm :
  stats (add_new_endpoints data pm) = stats pm.
Proof.
  unfold add_new_endpoints. revert pm.
  induction data as [|a l IH]; intros pm; simpl; [done|].
  rewrite IH. by case_bool_decide.
Qed.

Lemma stats_remove_endpoints pids pm :
  stats (foldr remove_endpoint pm pids) = stats pm.
Proof.
  induction pids as [|a l IH]; simpl; [done|].
  unfold remove_endpoint at 1. by destruct (list_mem _ _).
Qed.

(** What one call does to the three counters. *)
Lemma call_counters pm c :
  total_requests (stats (call pm c))
  = (total_requests (stats pm) + (if reports_success c then 1 else 0))%nat ∧
  failed_requests (stats (call pm c))
  = (failed_requests (stats pm) + (if reports_failure c then 1 else 0))%nat ∧
  (proxy_switches (stats pm) ≤ proxy_switches (stats (call pm c))
   ≤ proxy_switches (stats pm) + (if reports_failure c then 1 else 0))%nat.
Proof.
  destruct c as [data order probe start now|data order probe now
                |order probe|c sticky now|p|p]; simpl.
  - unfold initialize. destruct data as [|i l]; [simpl; lia|].
    remember (i :: l) as data eqn:Hd. clear Hd.
    destruct start; cbn [snd stamp_refresh stats with_stats total_requests
                         failed_requests proxy_switches];
      rewrite stats_perform_health_check_sync, stats_load_endpoints; lia.
  - unfold refresh_proxy_list. destruct data as [|i l]; [simpl; lia|].
    remember (i :: l) as data eqn:Hd. clear Hd.
    cbn [snd stamp_refresh stats with_stats total_requests
         failed_requests proxy_switches].
    rewrite stats_perform_health_check_sync, stats_remove_endpoints,
      stats_add_new_endpoints. lia.
  - rewrite stats_perform_health_check_sync. lia.
  - rewrite stats_get_proxy. lia.
  - unfold mark_proxy_failed. destruct (proxies pm !! proxy_id p); simpl;
      [destruct (list_mem _ _); simpl|]; lia.
  - unfold mark_proxy_success. destruct (proxies pm !! proxy_id p); simpl;
      [destruct (list_mem _ _); simpl|]; lia.
Qed.

Lemma calls_counters cs pm :
  total_requests (stats (foldl call pm cs))
  = (total_requests (stats pm) + count_calls reports_success cs)%nat ∧
  failed_requests (stats (foldl call pm cs))
  = (failed_requests (stats pm) + count_calls reports_failure cs)%nat ∧
  (proxy_switches (stats (foldl call pm cs))
   ≤ proxy_switches (stats pm) + count_calls reports_failure cs)%nat.
Proof.
  revert pm. unfold count_calls.
  induction cs as [|c cs IH]; intros pm; simpl; [lia|].
  destruct (IH (call pm c)) as (Ht & Hf & Hs).
  destruct (call_counters pm c) as (Ht1 & Hf1 & Hs1).
  destruct (reports_success c), (reports_failure c); simpl; lia.
Qed.

(** X8.  The counters that [get_stats] reports count the reports made
    since [__init__]: [failed_requests] is the number of
    [mark_proxy_failed] calls and [total_requests] the number of
    [mark_proxy_success] calls (failed requests are not part of it), for
    known and unknown proxies alike; no other call moves them; and
    [proxy_switches] never exceeds [failed_requests]. *)
Theorem counters_count_the_reports
    (max_fail : nat) (pref : option string) (interval : Z)
    (cs : list PoolCall) :
  let st := stats_counters (get_stats interval
                              (after_calls max_fail pref cs)) in
  failed_requests st = count_calls reports_failure cs ∧
  total_requests st = count_calls reports_success cs ∧
  (proxy_switches st ≤ failed_requests st)%nat.
Proof.
  cbv zeta. unfold after_calls. simpl.
  destruct (calls_counters cs (new_ProxyManager max_fail pref))
    as (Ht & Hf & Hs).
  simpl in Ht, Hf, Hs. lia.
Qed.

(** X9.  A proxy that is reported failed and then successful is back in
    the healthy list, but at its end: the list is the old one with the
    proxy's id taken out and appended. *)
Theorem restored_proxy_goes_to_the_back
    (p : ProxyEndpoint) (pm : ProxyManager) :
  pool_inv pm →
  is_Some (proxies pm !! proxy_id p) →
  healthy_proxies (mark_proxy_success p (mark_proxy_failed p pm))
  = list_remove (proxy_id p) (healthy_proxies pm) ++ [proxy_id p].
Proof.
  intros Hinv Hk.
  pose proof (mark_proxy_failed_evicts pm p Hinv) as Hout.
  pose proof (mark_proxy_failed_known pm p (proxy_id p) Hk) as [e He].
  assert (healthy_proxies (mark_proxy_failed p pm)
          = list_remove (proxy_id p) (healthy_proxies pm)) as Hh.
  { destruct Hk as [e0 He0]. unfold mark_proxy_failed. rewrite He0.
    destruct (list_mem _ _) eqn:Hm; simpl; [done|].
    apply list_mem_false in Hm. by rewrite list_remove_notin. }
  unfold mark_proxy_success at 1. rewrite He.
  cbn [healthy_proxies with_proxies with_healthy with_stats].
  rewrite (proj2 (list_mem_false _ _)) by done.
  cbn [healthy_proxies with_proxies with_healthy with_stats].
  by rewrite Hh.
Qed.

Lemma restored_proxy_goes_to_the_back_witness :
  healthy_proxies (mark_proxy_success proxy_a (mark_proxy_failed proxy_a
                                                 pool_ab))
  = list_remove (proxy_id proxy_a) (healthy_proxies pool_ab)
    ++ [proxy_id proxy_a].
Proof.
  assert (is_Some (proxies pool_ab !! proxy_id proxy_a)) as Hk
    by (vm_compute; eauto).
  exact (restored_proxy_goes_to_the_back proxy_a pool_ab pool_ab_inv Hk).
Defined.

(* ===================================================================== *)
(** * tasks.py: attempts, retries and the task result                     *)
(* ===================================================================== *)

Lemma grown_by_refl r : grown_by r [] [] r.
Proof.
  destruct r. unfold grown_by. simpl. by rewrite !app_nil_r, Z.add_0_r.
Qed.

Lemma grown_by_trans r0 a1 w1 r1 a2 w2 r2 :
  grown_by r0 a1 w1 r1 → grown_by r1 a2 w2 r2 →
  grown_by r0 (a1 ++ a2) (w1 ++ w2) r2.
Proof.
  unfold grown_by. intros -> ->. simpl.
  rewrite !app_assoc, length_app, Nat2Z.inj_add, Z.add_assoc. done.
Qed.

Lemma grown_by_record_page d r : grown_by r [d] [] (record_page d r).
Proof. unfold grown_by, record_page. simpl. by rewrite app_nil_r. Qed.

Lemma grown_by_add_warning wn r : grown_by r [] [wn] (add_warning wn r).
Proof.
  unfold grown_by, add_warning. simpl. by rewrite app_nil_r, Z.add_0_r.
Qed.

(** One run of the page loop records between one page and as many as the
    page limit leaves room for, and touches nothing else. *)
Lemma scrape_pages_grows fuel s cfg cur result out r :
  scrape_pages fuel s cfg cur result = Some (out, r) →
  ∃ added, grown_by result added [] r ∧
    (1 ≤ Z.of_nat (length added)
       ≤ Z.max 1 (max_pages (pagination cfg) - cur + 1))%Z.
Proof.
  revert cur result. induction fuel as [|fuel IH]; intros cur result;
    [done|]. simpl.
  set (d := extract_fields (page_at s cur) (fields cfg)).
  assert (∀ o, Some (o, record_page d result) = Some (out, r) →
    ∃ added, grown_by result added [] r ∧
      (1 ≤ Z.of_nat (length added)
         ≤ Z.max 1 (max_pages (pagination cfg) - cur + 1))%Z) as Hstop.
  { intros o [= <- <-]. exists [d]. split; [apply grown_by_record_page|].
    simpl. lia. }
  destruct (has_next_page _ _ _) as [[|]|e] eqn:Hh; [|by apply Hstop..].
  destruct (go_to_next_page _ _ _) as [[|] next] eqn:Hg; [|by apply Hstop].
  apply go_to_next_page_true in Hg as [-> Hlt].
  intros (added & Hgr & Hl)%IH. exists ([d] ++ added). split.
  - exact (grown_by_trans _ _ _ _ _ _ _ (grown_by_record_page d result) Hgr).
  - rewrite length_app. simpl. lia.
Qed.

Lemma reraise_classified e :
  ∃ m ty, reraise e = ScrapingError m ty true ∧
    (ty = "timeout" ∨ ty = "proxy_failure" ∨ ty = "scraping") ∧
    (ty = "timeout" → ∃ m0, e = PlaywrightTimeoutError m0).
Proof.
  destruct e; unfold reraise; try destruct (_ || _ || _);
    do 2 eexists; (split; [reflexivity|]); (split; [by eauto|]);
    by eauto.
Qed.

(** However an attempt fails, it fails with a retryable [ScrapingError]
    of one of three types; what it recorded before is in the result. *)
Lemma execute_scraping_error s cfg result e r :
  execute_scraping s cfg result = Some (Raise e, r) →
  ∃ m ty, e = ScrapingError m ty true ∧
    (ty = "timeout" ∨ ty = "proxy_failure" ∨ ty = "scraping").
Proof.
  unfold execute_scraping. destruct (navigate_to_page s) as [?|e0].
  - destruct (scrape_pages _ _ _ _ _) as [[[?|e1] r']|]; [done| |done].
    intros [= <- <-].
    destruct (reraise_classified e1) as (m & ty & -> & Hty & _); eauto.
  - intros [= <- <-].
    destruct (reraise_classified e0) as (m & ty & -> & Hty & _); eauto.
Qed.

Lemma execute_scraping_grows s cfg result out r :
  execute_scraping s cfg result = Some (out, r) →
  ∃ added, grown_by result added [] r ∧
    (Z.of_nat (length added) ≤ Z.max 1 (max_pages (pagination cfg)))%Z ∧
    (out = Ret tt → added ≠ []) ∧
    (∀ u, goto s = Ret u → added ≠ []) ∧
    (∀ e0, goto s = Raise e0 → added = []).
Proof.
  unfold execute_scraping, navigate_to_page.
  destruct (goto s) as [u|e0].
  - destruct (scrape_pages _ _ _ _ _) as [[o r']|] eqn:Hs; [|done].
    apply scrape_pages_grows in Hs as (added & Hgr & Hl).
    assert (added ≠ []) as Hne by (intros ->; simpl in Hl; lia).
    intros Hout. exists added.
    assert (r' = r) as -> by (by destruct o; injection Hout).
    split_and!; try done. lia.
  - intros [= <- <-]. exists []. split; [apply grown_by_refl|].
    simpl. split_and!; try done. lia.
Qed.

(** X10.  However a scraping attempt fails, it fails with a retryable
    [ScrapingError] whose type is [timeout], [proxy_failure] or
    [scraping].  A failed navigation is never reported as a [timeout],
    not even when it was one: [navigate_to_page] has wrapped it already,
    so it arrives as a proxy or scraping error and nothing was
    recorded. *)
Theorem attempt_errors_are_classified
    (s : Session) (cfg : TaskConfig) (result : TaskResult) (e : PyExc)
    (r : TaskResult) :
  execute_scraping s cfg result = Some (Raise e, r) →
  ∃ m ty, e = ScrapingError m ty true ∧
    (ty = "timeout" ∨ ty = "proxy_failure" ∨ ty = "scraping") ∧
    (∀ e0, goto s = Raise e0 →
       ty ≠ "timeout" ∧ r = result ∧
       (m = "Proxy error: "
            +:+ ("Failed to navigate to page: " +:+ exc_str e0) ∨
        m = "Scraping error: "
            +:+ ("Failed to navigate to page: " +:+ exc_str e0))).
Proof.
  intros Hx.
  destruct (execute_scraping_error _ _ _ _ _ Hx) as (m & ty & -> & Hty).
  exists m, ty. split; [done|]. split; [done|]. intros e0 Hg.
  revert Hx. unfold execute_scraping, navigate_to_page. rewrite Hg.
  unfold reraise, exc_str at 1 2 3.
  destruct (_ || _ || _); intros [= <- <- <-]; by split_and!; eauto.
Qed.

Lemma attempt_errors_are_classified_witness :
  ∃ m ty,
    ScrapingError
      "Scraping error: Failed to navigate to page: Timeout 30000ms exceeded."
      "scraping" true = ScrapingError m ty true ∧
    ty ≠ "timeout".
Proof.
  destruct (attempt_errors_are_classified unreachable_site
              retry_task_config (fresh_result "task-1") _ _ eq_refl)
    as (m & ty & He & _ & Hnav).
  exists m, ty. split; [exact He|].
  exact (proj1 (Hnav _ eq_refl)).
Defined.

Lemma report_failed_attempts wk :
  attempts (report_failed wk) = attempts wk ∧
  launches (report_failed wk) = launches wk ∧
  current_proxy (report_failed wk) = current_proxy wk ∧
  browser_manager (report_failed wk) = browser_manager wk.
Proof.
  unfold report_failed.
  by destruct (current_proxy wk) eqn:?, (proxy_manager wk) eqn:?.
Qed.

Lemma report_success_attempts wk :
  attempts (report_success wk) = attempts wk.
Proof.
  unfold report_success. by destruct (current_proxy wk), (proxy_manager wk).
Qed.

(** Whatever goes wrong while the browser is brought up leaves as a
    [browser_init] error. *)
Lemma initialize_browser_error w cfg left wk e wk' :
  initialize_browser_with_proxy w cfg left wk = (Raise e, wk') →
  ∃ m, e = ScrapingError m "browser_init" true.
Proof.
  revert wk. induction left as [|left IH]; intros wk; simpl;
    destruct (acquire_proxy w cfg wk) as [[?|ea] wka].
  - destruct (launch_browser w wka) as [[?|el] wkl]; [done|].
    intros [= <- <-]. eauto.
  - intros [= <- <-]. eauto.
  - destruct (launch_browser w wka) as [[?|el] wkl]; [done|]. apply IH.
  - apply IH.
Qed.

(** What the retry loop does from a state in which it still has an
    attempt to make. *)
Lemma retry_loop_run fuel w cfg rc wk result out wk' r :
  (rc ≤ max_retries cfg)%Z →
  retry_loop fuel w cfg rc wk result = Some (out, wk', r) →
  ∃ added warned n,
    grown_by result added warned r ∧
    attempts wk' = (attempts wk + n)%nat ∧
    (1 ≤ n)%nat ∧ (Z.of_nat n ≤ max_retries cfg - rc + 1)%Z ∧
    (Z.of_nat (length warned) ≤ max_retries cfg - rc)%Z ∧
    (length warned ≤ n ≤ length warned + 1)%nat ∧
    (Z.of_nat (length added)
     ≤ Z.of_nat n * Z.max 1 (max_pages (pagination cfg)))%Z ∧
    (out = Ret tt → n = S (length warned) ∧ added ≠ []) ∧
    (∀ e, out = Raise e →
       ∃ m ty, e = ScrapingError m ty true ∧
         (ty = "timeout" ∨ ty = "proxy_failure" ∨ ty = "scraping" ∨
          ty = "browser_init")).
Proof.
  revert rc wk result. induction fuel as [|fuel IH];
    intros rc wk result Hrc; [done|].
  cbn [retry_loop]. rewrite (proj2 (Z.leb_le _ _)) by done.
  destruct (execute_scraping (session w (attempts wk)) cfg result)
    as [[[[]|e] r1]|] eqn:Hx; [| |done].
  - intros [= <- <- <-].
    apply execute_scraping_grows in Hx as (added & Hg & Hlen & Hne & _).
    exists added, [], 1%nat. rewrite report_success_attempts. simpl.
    split_and!; try done; try lia. by intros _; split; [|apply Hne].
  - destruct (execute_scraping_error _ _ _ _ _ Hx) as (m & ty & -> & Hty).
    apply execute_scraping_grows in Hx as (added & Hg & Hlen & _).
    cbn [negb orb].
    destruct (Z.ltb_spec (max_retries cfg) (rc + 1)).
    { intros [= <- <- <-]. exists added, [], 1%nat. simpl.
      split_and!; try done; try lia.
      intros e [= <-]. exists m, ty. split; [done|].
      destruct Hty as [Hty|[Hty|Hty]]; auto. }
    set (wn := "Retry " +:+ pretty (rc + 1)%Z +:+ ": " +:+ m).
    pose proof (grown_by_trans _ _ _ _ _ _ _ Hg (grown_by_add_warning wn r1))
      as Hg1. rewrite app_nil_r in Hg1. simpl in Hg1.
    assert (∀ wk1, attempts wk1 = S (attempts wk) →
      retry_loop fuel w cfg (rc + 1) wk1 (add_warning wn r1)
      = Some (out, wk', r) →
      ∃ added0 warned n,
        grown_by result added0 warned r ∧
        attempts wk' = (attempts wk + n)%nat ∧
        (1 ≤ n)%nat ∧ (Z.of_nat n ≤ max_retries cfg - rc + 1)%Z ∧
        (Z.of_nat (length warned) ≤ max_retries cfg - rc)%Z ∧
        (length warned ≤ n ≤ length warned + 1)%nat ∧
        (Z.of_nat (length added0)
         ≤ Z.of_nat n * Z.max 1 (max_pages (pagination cfg)))%Z ∧
        (out = Ret tt → n = S (length warned) ∧ added0 ≠ []) ∧
        (∀ e, out = Raise e →
           ∃ m ty, e = ScrapingError m ty true ∧
             (ty = "timeout" ∨ ty = "proxy_failure" ∨ ty = "scraping" ∨
              ty = "browser_init"))) as Hgo.
    { intros wk1 Hwk1 Hr. apply IH in Hr
        as (a2 & w2 & n2 & Hg2 & Hat & Hn1 & Hn2 & Hw2 & Hwn & Hl2 & Hok
            & Herr); [|lia].
      exists (added ++ a2), ([wn] ++ w2), (S n2).
      split; [exact (grown_by_trans _ _ _ _ _ _ _ Hg1 Hg2)|].
      rewrite !length_app. simpl. split_and!; try lia.
      - intros Ho. destruct (Hok Ho) as [-> Hne]. split; [done|].
        intros [_ ->]%app_eq_nil. done.
      - done. }
    destruct (_ && _ && _).
    + destruct (initialize_browser_with_proxy w cfg 3 _) as [[[]|e'] wk2]
        eqn:Hi.
      * apply Hgo.
        pose proof (initialize_browser_attempts w cfg 3
          (cleanup (report_failed (count_attempt wk)))) as Ha.
        rewrite Hi in Ha. simpl in Ha. rewrite Ha.
        by rewrite (proj1 (report_failed_attempts _)).
      * intros [= <- <- <-].
        pose proof (initialize_browser_attempts w cfg 3
          (cleanup (report_failed (count_attempt wk)))) as Ha.
        rewrite Hi in Ha. simpl in Ha.
        rewrite (proj1 (report_failed_attempts _)) in Ha. simpl in Ha.
        apply initialize_browser_error in Hi as [m' ->].
        exists added, [wn], 1%nat. simpl.
        split_and!; try done; try lia.
        intros e [= <-]. exists m', "browser_init". split; [done|].
        by repeat right.
    + apply Hgo. done.
Qed.

(** X11.  With [max_retries >= 0] the retry loop makes at least one and
    at most [max_retries + 1] attempts and appends at most [max_retries]
    warnings, one per failed attempt that is retried; it touches nothing
    else of the result than the recorded pages, at most [max_pages] per
    attempt, and the pages of failed attempts stay recorded.  It returns
    only after an attempt that recorded a page.  When it raises, the
    error is a retryable [ScrapingError] of type [timeout],
    [proxy_failure], [scraping] or [browser_init]: the final
    [max_retries_exceeded] error is never raised. *)
Theorem retries_are_bounded
    (w : World) (cfg : TaskConfig) (wk : Worker) (result : TaskResult) :
  (0 ≤ max_retries cfg)%Z →
  ∃ out wk' r added warned n,
    execute_scraping_with_retries w cfg wk result = Some (out, wk', r) ∧
    grown_by result added warned r ∧
    attempts wk' = (attempts wk + n)%nat ∧
    (1 ≤ n ≤ Z.to_nat (max_retries cfg) + 1)%nat ∧
    (length warned ≤ Z.to_nat (max_retries cfg))%nat ∧
    (length warned ≤ n ≤ length warned + 1)%nat ∧
    (Z.of_nat (length added)
     ≤ Z.of_nat n * Z.max 1 (max_pages (pagination cfg)))%Z ∧
    (out = Ret tt → n = S (length warned) ∧ added ≠ []) ∧
    (∀ e, out = Raise e →
       ∃ m ty, e = ScrapingError m ty true ∧
         (ty = "timeout" ∨ ty = "proxy_failure" ∨ ty = "scraping" ∨
          ty = "browser_init") ∧
         ty ≠ "max_retries_exceeded").
Proof.
  intros Hmr. unfold execute_scraping_with_retries.
  destruct (retry_loop_total (retry_fuel cfg) w cfg 0 wk result)
    as [[[out wk'] r] Hr]; [unfold retry_fuel; lia|].
  destruct (retry_loop_run _ _ _ _ _ _ _ _ _ Hmr Hr)
    as (added & warned & n & Hg & Hat & Hn1 & Hn2 & Hw & Hwn & Hl & Hok
        & Herr).
  exists out, wk', r, added, warned, n. split_and!; try done; try lia.
  intros e He. destruct (Herr e He) as (m & ty & -> & Hty).
  exists m, ty. split_and!; [done|done|].
  by destruct Hty as [-> | [-> | [-> | ->] ] ].
Qed.

Lemma retries_are_bounded_witness :
  ∃ out wk' r,
    execute_scraping_with_retries flaky_world retry_task_config
      flaky_worker_ready (fresh_result "task-1") = Some (out, wk', r) ∧
    (∃ n, attempts wk' = (attempts flaky_worker_ready + n)%nat ∧
          (1 ≤ n ≤ 3)%nat).
Proof.
  assert (0 ≤ max_retries retry_task_config)%Z as Hmr
    by (vm_compute; discriminate).
  destruct (retries_are_bounded flaky_world retry_task_config
              flaky_worker_ready (fresh_result "task-1") Hmr)
    as (out & wk' & r & added & warned & n & Hr & _ & Hat & Hn & _).
  exists out, wk', r. split; [exact Hr|]. exists n. split; [exact Hat|].
  exact Hn.
Defined.

(* ===================================================================== *)
(** * task_schemas.py: what a validated configuration satisfies           *)
(* ===================================================================== *)

Lemma bounded_Ret key lo hi dflt raw v :
  (lo ≤ dflt ≤ hi)%Z →
  bounded key lo hi dflt raw = Ret v → (lo ≤ v ≤ hi)%Z.
Proof.
  intros Hd. unfold bounded. destruct raw as [x|]; [|by intros [= <-]].
  destruct (Z.ltb_spec x lo); [done|].
  destruct (Z.ltb_spec hi x); [done|]. intros [= <-]. lia.
Qed.

Lemma required_str_Ret key lo hi raw v :
  required_str key lo hi raw = Ret v →
  (lo ≤ String.length v)%nat ∧
  ∀ h, hi = Some h → (String.length v ≤ h)%nat.
Proof.
  unfold required_str. destruct raw as [x|]; [|done].
  destruct (Nat.ltb_spec (String.length x) lo); [done|].
  destruct hi as [h|].
  - destruct (Nat.ltb_spec h (String.length x)); [done|].
    intros [= <-]. split; [done|]. by intros ? [= <-].
  - intros [= <-]. split; [done|]. done.
Qed.

Lemma submodel_Ret {R A} key (dflt : A)
    (validate : R → res (list VError) A) raw a :
  submodel key dflt validate raw = Ret a →
  (raw = None ∧ a = dflt) ∨ (∃ r, raw = Some r ∧ validate r = Ret a).
Proof.
  unfold submodel. destruct raw as [r|].
  - intros Hr%under_Ret. right. eauto.
  - intros [= <-]. by left.
Qed.

Lemma Forall2_validated {R A} (validate : R → res (list VError) A)
    (Q : A → Prop) raws l :
  (∀ r a, validate r = Ret a → Q a) →
  Forall2 (λ r a, validate r = Ret a) raws l → Forall Q l.
Proof. intros HQ. induction 1; constructor; eauto. Qed.

Lemma validate_FieldConfig_ok raw f :
  validate_FieldConfig raw = Ret f → FieldConfig_ok f.
Proof.
  unfold validate_FieldConfig.
  destruct (both _ _) as [(n & t & sel & attr)|] eqn:Hb; [|done].
  intros [= <-]. apply both_Ret in Hb as [Hn Hb].
  apply both_Ret in Hb as [_ Hb]. apply both_Ret in Hb as [Hs _].
  apply required_str_Ret in Hn as [Hn1 Hn2].
  apply required_str_Ret in Hs as [Hs1 _].
  split; simpl; [split; [done|by apply Hn2]|done].
Qed.

Lemma validate_PaginationConfig_ok raw p :
  validate_PaginationConfig raw = Ret p → PaginationConfig_ok p.
Proof.
  unfold validate_PaginationConfig.
  destruct (both _ _) as [(nx & mx & wt)|] eqn:Hb; [|done].
  intros [= <-]. apply both_Ret in Hb as [_ Hb].
  apply both_Ret in Hb as [Hm Hw].
  apply bounded_Ret in Hm; [|lia]. apply bounded_Ret in Hw; [|lia].
  unfold PaginationConfig_ok. simpl. lia.
Qed.

Lemma validate_RateLimitConfig_ok raw c :
  validate_RateLimitConfig raw = Ret c → RateLimitConfig_ok c.
Proof.
  unfold validate_RateLimitConfig.
  destruct (both _ _) as [(rpm & dl & mrd)|] eqn:Hb; [|done].
  intros [= <-]. apply both_Ret in Hb as [H1 Hb].
  apply both_Ret in Hb as [H2 H3].
  apply bounded_Ret in H1; [|lia]. apply bounded_Ret in H2; [|lia].
  apply bounded_Ret in H3; [|lia]. unfold RateLimitConfig_ok. simpl. lia.
Qed.

Lemma validate_ProxyConfig_ok raw c :
  validate_ProxyConfig raw = Ret c → ProxyConfig_ok c.
Proof.
  unfold validate_ProxyConfig.
  destruct (bounded _ _ _ _ _) as [mf|] eqn:Hb; [|done].
  intros [= <-]. apply bounded_Ret in Hb; [|lia].
  unfold ProxyConfig_ok. simpl. lia.
Qed.

Lemma validate_BrowserConfig_ok raw c :
  validate_BrowserConfig raw = Ret c → BrowserConfig_ok c.
Proof.
  unfold validate_BrowserConfig.
  destruct (both _ _) as [(vw & vh & t)|] eqn:Hb; [|done].
  intros [= <-]. apply both_Ret in Hb as [H1 Hb].
  apply both_Ret in Hb as [H2 H3].
  apply bounded_Ret in H1; [|lia]. apply bounded_Ret in H2; [|lia].
  apply bounded_Ret in H3; [|lia]. unfold BrowserConfig_ok. simpl. lia.
Qed.

Lemma validate_WaitCondition_ok raw c :
  validate_WaitCondition raw = Ret c → WaitCondition_ok c.
Proof.
  unfold validate_WaitCondition.
  destruct (both _ _) as [(t & tm)|] eqn:Hb; [|done].
  intros [= <-]. apply both_Ret in Hb as [Ht Htm]. split; simpl.
  - destruct (raw_wait_type raw) as [x|]; [|done].
    destruct (String.eqb x "element") eqn:H1.
    { apply String.eqb_eq in H1 as ->. injection Ht as <-. set_solver. }
    destruct (String.eqb x "timeout") eqn:H2.
    { apply String.eqb_eq in H2 as ->. injection Ht as <-. set_solver. }
    destruct (String.eqb x "network") eqn:H3; [|done].
    apply String.eqb_eq in H3 as ->. injection Ht as <-. set_solver.
  - intros t0 ->. destruct (raw_wait_timeout raw) as [[x|]|].
    + destruct (bounded _ _ _ _ _) as [t'|] eqn:Hbd; [|done].
      injection Htm as ->. apply bounded_Ret in Hbd; [done|lia].
    + done.
    + injection Htm as <-. lia.
Qed.

Lemma validate_headers_Ret h h' :
  validate_headers h = Ret h' →
  h' = h ∧ (length h ≤ 20)%nat ∧ Forall header_ok h.
Proof.
  unfold validate_headers. destruct h as [|kv h0].
  { intros [= <-]. split_and!; [done|simpl; lia|constructor]. }
  set (h := kv :: h0). destruct (Nat.ltb_spec 20 (length h)); [done|].
  destruct (existsb _ h) eqn:Hex; [done|]. intros [= <-].
  split_and!; [done|done|]. apply Forall_forall. intros x Hx.
  assert (existsb (λ kv, (100 <? String.length kv.1)%nat
                         || (500 <? String.length kv.2)%nat) h = false
          → ∀ y, y ∈ h → header_ok y) as Hall.
  { clear. induction h as [|a l IHl]; simpl; [by intros _ y ?%elem_of_nil|].
    intros [Ha Hl]%orb_false_iff y [->|Hy]%elem_of_cons; [|by apply IHl].
    apply orb_false_iff in Ha as [H1%Nat.ltb_ge H2%Nat.ltb_ge].
    by split. }
  by apply Hall.
Qed.

(** The parts of a successful [validate_task_config]. *)
Lemma validate_task_config_parts is_http_url raw cfg :
  validate_task_config is_http_url raw = Ret cfg →
  (raw_url raw = Some (url cfg) ∧ is_http_url (url cfg) = true) ∧
  validate_fields_key (raw_fields raw) = Ret (fields cfg) ∧
  submodel "pagination" default_PaginationConfig validate_PaginationConfig
    (raw_pagination raw) = Ret (pagination cfg) ∧
  submodel "rate_limit" default_RateLimitConfig validate_RateLimitConfig
    (raw_rate_limit raw) = Ret (rate_limit cfg) ∧
  submodel "proxy" default_ProxyConfig validate_ProxyConfig (raw_proxy raw)
  = Ret (proxy cfg) ∧
  submodel "browser" default_BrowserConfig validate_BrowserConfig
    (raw_browser raw) = Ret (browser cfg) ∧
  match raw_wait_conditions raw with
  | None => wait_conditions cfg = []
  | Some ws =>
      (length ws ≤ 10)%nat ∧
      Forall2 (λ r a, validate_WaitCondition r = Ret a) ws
        (wait_conditions cfg)
  end ∧
  match raw_custom_headers raw with
  | None => custom_headers cfg = []
  | Some h => validate_headers h = Ret (custom_headers cfg)
  end ∧
  bounded "max_retries" 0 10 3 (raw_max_retries raw)
  = Ret (max_retries cfg) ∧
  bounded "retry_delay" 1000 30000 5000 (raw_retry_delay raw)
  = Ret (retry_delay cfg) ∧
  raw_extra raw = [].
Proof.
  unfold validate_task_config.
  destruct (validate_TaskConfig is_http_url raw) as [cfg'|] eqn:Hv; [|done].
  intros [= ->]. revert Hv. unfold validate_TaskConfig.
  destruct (both _ _)
    as [(u & fs & pg & rl & px & br & ws & hd & mr & rd & ?)|] eqn:Hb;
    [|done].
  intros [= <-]. simpl.
  apply both_Ret in Hb as [Hu Hb]. apply both_Ret in Hb as [Hf Hb].
  apply both_Ret in Hb as [Hpg Hb]. apply both_Ret in Hb as [Hrl Hb].
  apply both_Ret in Hb as [Hpx Hb]. apply both_Ret in Hb as [Hbr Hb].
  apply both_Ret in Hb as [Hws Hb]. apply both_Ret in Hb as [Hhd Hb].
  apply both_Ret in Hb as [Hmr Hb]. apply both_Ret in Hb as [Hrd Hex].
  assert (raw_url raw = Some u ∧ is_http_url u = true) as Hurl.
  { destruct (raw_url raw) as [x|]; [|done].
    destruct (is_http_url x) eqn:Hx; [|done]. by injection Hu as ->. }
  assert (match raw_wait_conditions raw with
          | None => ws = []
          | Some l =>
              (length l ≤ 10)%nat ∧
              Forall2 (λ r a, validate_WaitCondition r = Ret a) l ws
          end) as Hws'.
  { destruct (raw_wait_conditions raw) as [l|]; [|by injection Hws].
    destruct (Nat.ltb_spec 10 (length l)); [done|]. split; [done|].
    by apply under_Ret, validate_items_Ret in Hws. }
  assert (match raw_custom_headers raw with
          | None => hd = []
          | Some h => validate_headers h = Ret hd
          end) as Hhd'.
  { destruct (raw_custom_headers raw) as [h|]; [|by injection Hhd].
    destruct (validate_headers h); [by injection Hhd as ->|done]. }
  assert (raw_extra raw = []) as Hex' by by destruct (raw_extra raw).
  destruct Hurl. by split_and!.
Qed.

Lemma validate_task_config_ok is_http_url raw cfg :
  validate_task_config is_http_url raw = Ret cfg → TaskConfig_ok cfg.
Proof.
  intros (_ & Hf & Hpg & Hrl & Hpx & Hbr & Hws & Hhd & Hmr & Hrd & _)
    %validate_task_config_parts.
  assert ((1 ≤ length (fields cfg) ≤ 50)%nat ∧
          Forall FieldConfig_ok (fields cfg) ∧ NoDup (name <$> fields cfg))
    as (Hlen & Hfs & Hnd).
  { pose proof Hf as (Hnd & raws & Hraw & Hall)%validate_fields_key_Ret.
    split; [|split; [|done]];
      [|by eapply Forall2_validated, Hall; apply validate_FieldConfig_ok].
    rewrite <- (Forall2_length _ _ _ Hall). revert Hf. rewrite Hraw.
    unfold validate_fields_key.
    destruct (Nat.ltb_spec (length raws) 1); [done|].
    destruct (Nat.ltb_spec 50 (length raws)); [done|]. lia. }
  apply bounded_Ret in Hmr; [|lia]. apply bounded_Ret in Hrd; [|lia].
  unfold TaskConfig_ok. destruct Hlen, Hmr, Hrd.
  repeat lazymatch goal with |- _ ∧ _ => split end; try done.
  - apply submodel_Ret in Hpg as [[_ ->]|(r & _ & Hr)];
      [unfold PaginationConfig_ok; simpl; lia
      |by eapply validate_PaginationConfig_ok].
  - apply submodel_Ret in Hrl as [[_ ->]|(r & _ & Hr)];
      [unfold RateLimitConfig_ok; simpl; lia
      |by eapply validate_RateLimitConfig_ok].
  - apply submodel_Ret in Hpx as [[_ ->]|(r & _ & Hr)];
      [unfold ProxyConfig_ok; simpl; lia
      |by eapply validate_ProxyConfig_ok].
  - apply submodel_Ret in Hbr as [[_ ->]|(r & _ & Hr)];
      [unfold BrowserConfig_ok; simpl; lia
      |by eapply validate_BrowserConfig_ok].
  - destruct (raw_wait_conditions raw) as [l|]; [|rewrite Hws; simpl; lia].
    destruct Hws as [Hl Hall]. by rewrite <- (Forall2_length _ _ _ Hall).
  - destruct (raw_wait_conditions raw) as [l|]; [|rewrite Hws; constructor].
    destruct Hws as [Hl Hall].
    eapply Forall2_validated, Hall. apply validate_WaitCondition_ok.
  - destruct (raw_custom_headers raw) as [h|]; [|rewrite Hhd; simpl; lia].
    by apply validate_headers_Ret in Hhd as (-> & ? & ?).
  - destruct (raw_custom_headers raw) as [h|]; [|rewrite Hhd; constructor].
    by apply validate_headers_Ret in Hhd as (-> & ? & ?).
Qed.

(** X12.  A configuration that [validate_task_config] returns satisfies
    every constraint the schema declares: 1 to 50 fields with unique,
    1 to 100 character names and non-empty selectors; the numeric ranges
    of the pagination, rate-limit, proxy and browser settings, of
    [max_retries] and of [retry_delay]; at most 10 wait conditions of a
    known type; at most 20 custom headers within the size limits.  Its
    URL passed the URL check, and the input had no unknown key. *)
Theorem validated_config_meets_schema
    (is_http_url : string → bool) (raw : RawTask) (cfg : TaskConfig) :
  validate_task_config is_http_url raw = Ret cfg →
  TaskConfig_ok cfg ∧
  raw_url raw = Some (url cfg) ∧ is_http_url (url cfg) = true ∧
  raw_extra raw = [].
Proof.
  intros Hv. split; [by eapply validate_task_config_ok|].
  by apply validate_task_config_parts
    in Hv as ([? ?] & _ & _ & _ & _ & _ & _ & _ & _ & _ & ?).
Qed.

Lemma validated_config_meets_schema_witness :
  TaskConfig_ok retry_task_config.
Proof.
  exact (proj1 (validated_config_meets_schema scheme_is_http raw_retry_task
                  retry_task_config retry_task_validates)).
Defined.

(* ===================================================================== *)
(** * tasks.py: the result of a task                                      *)
(* ===================================================================== *)

Lemma run_attempts_grows is_http_url w raw wk result out wk1 r :
  run_attempts is_http_url w raw wk result = Some (out, wk1, r) →
  ∃ added warned,
    grown_by result added warned r ∧ (out = Ret tt → added ≠ []).
Proof.
  unfold run_attempts.
  destruct (validate_task_config is_http_url raw) as [cfg|e] eqn:Hv.
  - destruct (initialize_browser_with_proxy w cfg 3 wk) as [[[]|e] wk0].
    + unfold execute_scraping_with_retries. intros Hr.
      apply validate_task_config_ok in Hv
        as (_ & _ & _ & _ & _ & _ & _ & _ & _ & _ & _ & [Hmr _] & _).
      apply retry_loop_run in Hr
        as (added & warned & n & Hg & _ & _ & _ & _ & _ & _ & Hok & _);
        [|done].
      exists added, warned. split; [done|]. intros Ho. by apply Hok.
    + intros [= <- <- <-]. exists [], []. split; [apply grown_by_refl|done].
  - intros [= <- <- <-]. exists [], []. split; [apply grown_by_refl|done].
Qed.

Lemma execute_task_from_total is_http_url w raw wk0 result :
  is_Some (execute_task_from is_http_url w raw wk0 result).
Proof.
  unfold execute_task_from.
  by destruct (run_attempts_total is_http_url w raw wk0 result)
    as [[[out wk1] r] ->].
Qed.

(** [execute_task] never gets as far as its [try]. *)
Lemma execute_task_raises is_http_url w raw tid wk0 :
  execute_task is_http_url w raw tid wk0
  = Some (Raise (ValidationError
                   (validation_error_text "TaskResult" "status"
                      "field required (type=value_error.missing)")), wk0).
Proof. reflexivity. Qed.


(** What the tail of the [try] block leaves, by the clock and the data
    it finds. *)
Lemma finalize_spec elapsed r0 :
  data r0 ≠ [] →
  compute_units_used (finalize elapsed r0).2 = compute_units elapsed ∧
  task_id (finalize elapsed r0).2 = task_id r0 ∧
  data (finalize elapsed r0).2 = data r0 ∧
  pages_scraped (finalize elapsed r0).2 = pages_scraped r0 ∧
  errors (finalize elapsed r0).2 = errors r0 ∧
  warnings (finalize elapsed r0).2 = warnings r0 ∧
  if Qle_bool 0 elapsed
  then (finalize elapsed r0).1 = Ret tt ∧
       status (finalize elapsed r0).2 = completed ∧
       execution_time (finalize elapsed r0).2 = elapsed ∧
       total_records (finalize elapsed r0).2 = Z.of_nat (length (data r0))
  else (∃ e, (finalize elapsed r0).1 = Raise e) ∧
       status (finalize elapsed r0).2 = status r0 ∧
       execution_time (finalize elapsed r0).2 = execution_time r0 ∧
       total_records (finalize elapsed r0).2 = total_records r0.
Proof.
  intros Hd. unfold finalize. destruct (Qle_bool 0 elapsed); simpl.
  - destruct (data r0) as [|d l] eqn:Hdata; [done|]. simpl.
    by split_and!.
  - split_and!; try done. eauto.
Qed.

(** The result object that the [try] statement hands back, by how the
    attempts ended. *)
Lemma execute_task_from_spec is_http_url w raw wk0 result out wk1 r0 :
  run_attempts is_http_url w raw wk0 result = Some (out, wk1, r0) →
  execute_task_from is_http_url w raw wk0 result
  = Some (save_results_to_file w
            match out with
            | Ret _ =>
                match finalize (end_time w - start_time w) r0 with
                | (Ret _, r') => r'
                | (Raise e, r') => fail_with (exc_str e) r'
                end
            | Raise e => fail_with (exc_str e) r0
            end, cleanup wk1).
Proof. intros Hr. unfold execute_task_from. by rewrite Hr. Qed.


(** C5.  [execute_task] as shipped bills nothing, because it never
    completes: [TaskResult(task_id=task_id)] raises before the [try].
    The billing rule the claim describes is what the [try] block does
    on a result object: when the attempts return without an exception
    it sets [compute_units_used] to [max(elapsed / 60, 0.1)], which is
    at least 0.1, never 0, and exactly 0.1 under 6 seconds; the object
    then ends [completed] unless the clock went backwards, in which
    case the assignment of the negative [execution_time] is refused and
    the object ends [failed], already billed.  And an object ends
    [completed] only on that path. *)
Theorem billing_is_never_reached
    (is_http_url : string → bool) (w : World) (raw : RawTask)
    (tid : string) (wk0 : Worker) (result : TaskResult) :
  execute_task is_http_url w raw tid wk0
  = Some (Raise (ValidationError
                   (validation_error_text "TaskResult" "status"
                      "field required (type=value_error.missing)")), wk0) ∧
  ∃ r wk,
    execute_task_from is_http_url w raw wk0 result = Some (r, wk) ∧
    ((∃ wk1 r0, run_attempts is_http_url w raw wk0 result
                = Some (Ret tt, wk1, r0)) →
     compute_units_used r
     = Qmax ((end_time w - start_time w) / 60) (1 # 10) ∧
     (min_compute_units <= compute_units_used r)%Q ∧
     ¬ (compute_units_used r == 0)%Q ∧
     ((end_time w - start_time w < 6)%Q →
      compute_units_used r = (1 # 10)%Q) ∧
     (status r = if Qle_bool 0 (end_time w - start_time w)
                 then completed else failed)) ∧
    (status r = completed →
     (∃ wk1 r0, run_attempts is_http_url w raw wk0 result
                = Some (Ret tt, wk1, r0)) ∧
     Qle_bool 0 (end_time w - start_time w) = true).
Proof.
  split; [reflexivity|].
  destruct (run_attempts_total is_http_url w raw wk0 result)
    as [[[out wk1] r0] Hr].
  rewrite (execute_task_from_spec _ _ _ _ _ _ _ _ Hr).
  eexists _, _. split; [reflexivity|].
  set (elapsed := (end_time w - start_time w)%Q).
  destruct out as [[]|e].
  - pose proof Hr as (added & warned & Hg & Hok)%run_attempts_grows.
    assert (data r0 ≠ []) as Hd.
    { rewrite Hg. simpl. intros [_ ?]%app_eq_nil. by apply Hok. }
    destruct (finalize_spec elapsed r0 Hd)
      as (Hcu & _ & _ & _ & _ & _ & Hcase).
    destruct (save_results_frame w
                match finalize elapsed r0 with
                | (Ret _, r') => r'
                | (Raise e, r') => fail_with (exc_str e) r'
                end) as (-> & _ & _ & -> & _).
    assert (compute_units_used
              match finalize elapsed r0 with
              | (Ret _, r') => r'
              | (Raise e, r') => fail_with (exc_str e) r'
              end = compute_units elapsed) as ->.
    { by destruct (finalize elapsed r0) as [[[]|e] r']. }
    assert (status
              match finalize elapsed r0 with
              | (Ret _, r') => r'
              | (Raise e, r') => fail_with (exc_str e) r'
              end = if Qle_bool 0 elapsed then completed else failed) as Hst.
    { destruct (Qle_bool 0 elapsed).
      - destruct Hcase as (Ho & Hs & _).
        destruct (finalize elapsed r0) as [[[]|e] r']; [done|].
        simpl in Ho. discriminate.
      - destruct Hcase as ([e He] & _).
        destruct (finalize elapsed r0) as [[[]|e'] r']; [|done].
        simpl in He. discriminate. }
    split.
    + intros _. split_and!.
      * done.
      * apply compute_units_ge.
      * intros H0. pose proof (compute_units_ge elapsed) as Hge.
        rewrite H0 in Hge. by vm_compute in Hge.
      * apply compute_units_floor.
      * done.
    + rewrite Hst. intros Hc. split; [by eauto|].
      by destruct (Qle_bool 0 elapsed).
  - destruct (save_results_frame w (fail_with (exc_str e) r0))
      as (-> & _). simpl. split; [|done].
    intros (? & ? & Heq). rewrite Hr in Heq. discriminate.
Qed.

(** In [flaky_world] the [try] block, run on a result object, ends
    [completed], billed the floor for its four seconds. *)
Lemma flaky_run_billed_floor :
  ∃ r wk,
    execute_task_from scheme_is_http flaky_world raw_retry_task
      (new_ScrapingWorker (Some pool_ab)) (fresh_result "task-1")
    = Some (r, wk) ∧
    status r = completed ∧
    compute_units_used r = (1 # 10)%Q ∧
    execution_time r = 4%Q.
Proof. eexists _, _. split; [vm_compute; reflexivity|]. by split_and!. Qed.

(** X13.  [execute_task] as shipped raises the [ValidationError] of
    [TaskResult(task_id=task_id)] for every input and leaves the worker
    as it was.  Its [try] statement, run on any result object, always
    ends: the object keeps its task id, the browser is released, the
    page counter has grown by the number of page dicts added, and the
    object has one of two shapes.  Either it is [completed]: there is
    data, no error was added, [total_records] counts the page dicts,
    the clock did not go back, and the run is billed
    [max(elapsed / 60, 0.1)].  Or it is [failed]: exactly one error
    message was added, [total_records] and [execution_time] are
    untouched, and the billing is untouched too unless the failure was
    the refused negative [execution_time].  Pages recorded before a
    failure stay in [data]. *)
Theorem task_result_is_consistent
    (is_http_url : string → bool) (w : World) (raw : RawTask)
    (tid : string) (wk0 : Worker) (result : TaskResult) :
  execute_task is_http_url w raw tid wk0
  = Some (Raise (ValidationError
                   (validation_error_text "TaskResult" "status"
                      "field required (type=value_error.missing)")), wk0) ∧
  ∃ r wk added,
    execute_task_from is_http_url w raw wk0 result = Some (r, wk) ∧
    task_id r = task_id result ∧ browser_manager wk = false ∧
    data r = data result ++ added ∧
    pages_scraped r = (pages_scraped result + Z.of_nat (length added))%Z ∧
    ((status r = completed ∧ data r ≠ [] ∧ errors r = errors result ∧
      total_records r = Z.of_nat (length (data r)) ∧
      Qle_bool 0 (end_time w - start_time w) = true ∧
      compute_units_used r = compute_units (end_time w - start_time w) ∧
      execution_time r = (end_time w - start_time w)%Q) ∨
     (status r = failed ∧ (∃ msg, errors r = errors result ++ [msg]) ∧
      total_records r = total_records result ∧
      execution_time r = execution_time result ∧
      (compute_units_used r = compute_units_used result ∨
       Qle_bool 0 (end_time w - start_time w) = false ∧
       compute_units_used r
       = compute_units (end_time w - start_time w)))).
Proof.
  split; [reflexivity|].
  destruct (run_attempts_total is_http_url w raw wk0 result)
    as [[[out wk1] r0] Hr].
  rewrite (execute_task_from_spec _ _ _ _ _ _ _ _ Hr).
  pose proof Hr as (added & warned & Hg & Hok)%run_attempts_grows.
  set (elapsed := (end_time w - start_time w)%Q).
  assert (task_id r0 = task_id result ∧ data r0 = data result ++ added ∧
          pages_scraped r0
          = (pages_scraped result + Z.of_nat (length added))%Z ∧
          errors r0 = errors result ∧
          total_records r0 = total_records result ∧
          execution_time r0 = execution_time result ∧
          compute_units_used r0 = compute_units_used result)
    as (G1 & G2 & G3 & G4 & G5 & G6 & G7) by (by rewrite Hg).
  eexists _, _, added. split; [reflexivity|].
  destruct out as [[]|e].
  - assert (data r0 ≠ []) as Hd.
    { rewrite G2. intros [_ ?]%app_eq_nil. by apply Hok. }
    destruct (finalize_spec elapsed r0 Hd)
      as (Hcu & Hid & Hdata & Hpg & Herr & _ & Hcase).
    destruct (finalize elapsed r0) as [[[]|e] r'] eqn:Hfin;
      cbn [fst snd] in *;
      destruct (Qle_bool 0 elapsed) eqn:Hq;
      try (by destruct Hcase as [[? ?] _]);
      try (by destruct Hcase as [? _]);
      destruct Hcase as (_ & Hst & Hex & Htot);
      unfold save_results_to_file; destruct (save w); simpl;
      rewrite ?Hid, ?Hdata, ?Hpg, ?Herr, ?Hst, ?Hex, ?Htot, ?Hcu,
        ?G1, ?G3, ?G4, ?G5, ?G6, ?G7;
      (split; [done|]); (split; [done|]); (split; [exact G2|]);
      (split; [done|]).
    + left. by split_and!.
    + left. by split_and!.
    + right. split_and!; [done|by eauto|done|done|by right].
    + right. split_and!; [done|by eauto|done|done|by right].
  - unfold save_results_to_file; destruct (save w); simpl;
      rewrite ?G1, ?G3, ?G4, ?G5, ?G6, ?G7;
      (split; [done|]); (split; [done|]); (split; [exact G2|]);
      (split; [done|]);
      right; (split_and!; [done|by eauto|done|done|by left]).
Qed.

(** X14.  A configuration without [url], without [fields], with an
    empty [fields] list, with a URL the URL check refuses, or with an
    unknown key is rejected by [validate_task_config], with a
    [TaskValidationError] whose message starts with
    [Task configuration validation failed: ]. *)
Theorem malformed_config_is_rejected
    (is_http_url : string → bool) (raw : RawTask) :
  raw_url raw = None ∨ (∃ u, raw_url raw = Some u ∧ is_http_url u = false) ∨
  raw_fields raw = None ∨ raw_fields raw = Some [] ∨ raw_extra raw ≠ [] →
  ∃ m, validate_task_config is_http_url raw
       = Raise (TaskValidationError
                  ("Task configuration validation failed: " +:+ m)).
Proof.
  intros Hbad.
  destruct (validate_task_config is_http_url raw) as [cfg|e] eqn:Hv.
  - exfalso.
    pose proof Hv as ([Hu Hh] & Hf & _ & _ & _ & _ & _ & _ & _ & _ & Hex)
      %validate_task_config_parts.
    destruct Hbad as [Hb|[(u & Hb & Hn)|[Hb|[Hb|Hb]]]].
    + by rewrite Hb in Hu.
    + rewrite Hb in Hu. injection Hu as ->. by rewrite Hh in Hn.
    + by rewrite Hb in Hf.
    + by rewrite Hb in Hf.
    + done.
  - revert Hv. unfold validate_task_config.
    destruct (validate_TaskConfig is_http_url raw); [done|].
    intros [= <-]. eauto.
Qed.

Lemma malformed_config_is_rejected_witness :
  ∃ m, validate_task_config scheme_is_http raw_empty_task
       = Raise (TaskValidationError
                  ("Task configuration validation failed: " +:+ m)).
Proof.
  exact (malformed_config_is_rejected scheme_is_http raw_empty_task
           (or_introl eq_refl)).
Defined.

(* ===================================================================== *)
(** * tasks.py: bringing the browser up                                   *)
(* ===================================================================== *)




Lemma initialize_browser_no_healthy w cfg pm left wk :
  proxy_enabled (proxy cfg) = true → healthy_proxies pm = [] →
  proxy_manager wk = Some pm →
  initialize_browser_with_proxy w cfg left wk
  = (Raise (ScrapingError
              ("Failed to initialize browser after 3 attempts: "
               +:+ "No healthy proxies available") "browser_init" true),
     mkWorker (match left with O => browser_manager wk | S _ => false end)
       (Some pm) None (launches wk) (attempts wk)).
Proof.
  intros Hon Hh. revert wk.
  assert (∀ wk, proxy_manager wk = Some pm →
    acquire_proxy w cfg wk
    = (Raise (ScrapingError "No healthy proxies available"
                "proxy_unavailable" true),
       mkWorker (browser_manager wk) (Some pm) None (launches wk)
         (attempts wk))) as Hacq.
  { intros wk Hpm. unfold acquire_proxy, get_proxy.
    by rewrite Hon, Hpm, Hh. }
  induction left as [|left IH]; intros wk Hpm;
    cbn [initialize_browser_with_proxy]; rewrite (Hacq wk Hpm); [done|].
  unfold report_failed. cbn [current_proxy]. rewrite IH by done.
  simpl. by destruct left.
Qed.

(** X16.  With proxies enabled and a pool that has no healthy proxy,
    [_initialize_browser_with_proxy] gives up with a [browser_init]
    error after asking the pool four times: no browser is launched, no
    failure is reported to the pool, the pool is left exactly as it
    was, and the worker holds no proxy. *)
Theorem no_healthy_proxy_launches_nothing
    (w : World) (cfg : TaskConfig) (pm : ProxyManager) (wk : Worker) :
  proxy_enabled (proxy cfg) = true → healthy_proxies pm = [] →
  proxy_manager wk = Some pm →
  initialize_browser_with_proxy w cfg 3 wk
  = (Raise (ScrapingError
              ("Failed to initialize browser after 3 attempts: "
               +:+ "No healthy proxies available") "browser_init" true),
     mkWorker false (Some pm) None (launches wk) (attempts wk)).
Proof.
  intros Hon Hh Hpm.
  exact (initialize_browser_no_healthy w cfg pm 3 wk Hon Hh Hpm).
Qed.

Lemma no_healthy_proxy_launches_nothing_witness :
  launches (initialize_browser_with_proxy flaky_world retry_task_config 3
              (new_ScrapingWorker (Some (new_ProxyManager 3 None)))).2
  = 0%nat.
Proof.
  rewrite (no_healthy_proxy_launches_nothing flaky_world retry_task_config
             (new_ProxyManager 3 None)
             (new_ScrapingWorker (Some (new_ProxyManager 3 None)))
             eq_refl eq_refl eq_refl).
  reflexivity.
Defined.

(* ===================================================================== *)
(** * tasks.py: where the page loop ends                                  *)
(* ===================================================================== *)

Lemma scrape_pages_until fuel s cfg cur k result :
  (cur ≤ k)%Z →
  (∀ j, (cur ≤ j < k)%Z → turns_page s cfg j) →
  ends_at s cfg k →
  (Z.to_nat (k - cur) < fuel)%nat →
  ∃ r, scrape_pages fuel s cfg cur result = Some (Ret tt, r) ∧
       grown_by result (pages_data s cfg cur (k - cur + 1)) [] r.
Proof.
  intros Hck Hturn Hend. revert cur result Hck Hturn.
  induction fuel as [|fuel IH]; intros cur result Hck Hturn Hf; [lia|].
  simpl. set (d := extract_fields (page_at s cur) (fields cfg)).
  destruct (decide (cur = k)) as [->|Hne].
  - assert (pages_data s cfg k (k - k + 1) = [d]) as ->.
    { replace (k - k + 1)%Z with 1%Z by lia. unfold pages_data.
      by rewrite seqZ_cons, seqZ_nil by lia. }
    destruct Hend as [->|[-> Hg]].
    + eexists. split; [done|]. apply grown_by_record_page.
    + destruct (go_to_next_page _ _ _) as [[|] nx]; [done|].
      eexists. split; [done|]. apply grown_by_record_page.
  - destruct (Hturn cur) as [-> ->]; [lia|].
    destruct (IH (cur + 1)%Z (record_page d result)) as (r & -> & Hg);
      [lia|intros j Hj; apply Hturn; lia|lia|].
    exists r. split; [done|].
    assert (pages_data s cfg cur (k - cur + 1)
            = [d] ++ pages_data s cfg (cur + 1) (k - (cur + 1) + 1)) as ->.
    { unfold pages_data. rewrite (seqZ_cons cur) by lia. simpl.
      do 3 f_equal; lia. }
    exact (grown_by_trans _ _ _ _ _ _ _ (grown_by_record_page d result) Hg).
Qed.

Lemma has_next_page_stops config cur page :
  enabled config = false ∨ (max_pages config ≤ cur)%Z ∨
  (∃ sel el, stop_condition config = Some sel ∧ sel ≠ "" ∧
             query_selector page sel = Ret (Some el)) →
  has_next_page config cur page = Ret false.
Proof.
  unfold has_next_page. intros [->|[Hm|(sel & el & Hs & Hne & Hq)]];
    [done| |].
  - destruct (enabled config); [|done]. simpl.
    by rewrite (proj2 (Z.leb_le _ _)).
  - destruct (enabled config); [|done]. simpl.
    destruct (_ <=? _)%Z; [done|]. rewrite Hs. simpl.
    rewrite (proj2 (String.eqb_neq _ _)) by done. simpl. by rewrite Hq.
Qed.

(** X17.  A scraping attempt whose navigation succeeds records the
    documents in order and ends, without error, at the first one where
    pagination stops: because pagination is disabled (then that is the
    first document, whatever the selectors and the page limit are),
    because the page counter has reached [max_pages], because the stop
    condition's selector matches (even if a usable next link is there
    too), or because [has_next_page] or [go_to_next_page] answer
    [False] for any other reason.  The result gains exactly those page
    dicts and nothing else. *)
Theorem scraping_ends_at_first_stop
    (s : Session) (cfg : TaskConfig) (result : TaskResult) (k : Z) :
  (1 ≤ k)%Z → goto s = Ret tt →
  (∀ j, (1 ≤ j < k)%Z → turns_page s cfg j) →
  enabled (pagination cfg) = false ∧ k = 1%Z ∨
  (max_pages (pagination cfg) ≤ k)%Z ∨
  (∃ sel el, stop_condition (pagination cfg) = Some sel ∧ sel ≠ "" ∧
             query_selector (page_at s k) sel = Ret (Some el)) ∨
  ends_at s cfg k →
  ∃ r, execute_scraping s cfg result = Some (Ret tt, r) ∧
       grown_by result (pages_data s cfg 1 k) [] r ∧
       length (pages_data s cfg 1 k) = Z.to_nat k.
Proof.
  intros Hk Hgo Hturn Hstop.
  assert (ends_at s cfg k) as Hend.
  { destruct Hstop as [[Hoff _]|[Hm|[Hsel|He]]]; [| | |done];
      left; apply has_next_page_stops; eauto. }
  assert (Z.to_nat (k - 1)%Z < page_fuel cfg)%nat as Hfuel.
  { unfold page_fuel. destruct (decide (k = 1%Z)) as [->|Hne]; [lia|].
    destruct (Hturn (k - 1)%Z) as [Hh _]; [lia|].
    apply has_next_page_true in Hh as [_ Hlt]. lia. }
  destruct (scrape_pages_until (page_fuel cfg) s cfg 1 k result Hk Hturn
              Hend Hfuel) as (r & Hs & Hg).
  exists r. unfold execute_scraping, navigate_to_page. rewrite Hgo, Hs.
  replace (k - 1 + 1)%Z with k in Hg by lia.
  split; [done|]. split; [done|]. apply pages_data_length.
Qed.

Lemma scraping_ends_at_first_stop_witness :
  ∃ r, execute_scraping short_listing three_pages_config
         (fresh_result "task-1") = Some (Ret tt, r) ∧
       grown_by (fresh_result "task-1")
         (pages_data short_listing three_pages_config 1 2) [] r.
Proof.
  assert (∀ j, (1 ≤ j < 2)%Z → turns_page short_listing three_pages_config j)
    as Hturn.
  { intros j Hj. assert (j = 1%Z) as -> by lia. by split. }
  destruct (scraping_ends_at_first_stop short_listing three_pages_config
              (fresh_result "task-1") 2 ltac:(lia) eq_refl Hturn)
    as (r & Hr & Hg & _).
  { right. right. left. exists ".end", next_link.
    split; [reflexivity|]. split; [discriminate|reflexivity]. }
  exists r. split; [exact Hr|exact Hg].
Defined.

(* ===================================================================== *)
(** * tasks.py: fields that collect several elements                      *)
(* ===================================================================== *)

Lemma collect_values_spec page els field v :
  v ∈ collect_values page els field ↔
  v ≠ "" ∧ ∃ el, el ∈ els ∧ extract_element_value page el field = Some v.
Proof.
  induction els as [|el els IH]; simpl.
  { split; [by intros ?%elem_of_nil|].
    by intros (_ & el & ?%elem_of_nil & _). }
  destruct (extract_element_value page el field) as [x|] eqn:Hx; simpl.
  - destruct (String.eqb_spec x "") as [->|Hne]; simpl.
    + rewrite IH. split.
      * intros (Hv & el' & Hin & He). split; [done|].
        exists el'. split; [by right|done].
      * intros (Hv & el' & [->|Hin]%elem_of_cons & He).
        -- rewrite Hx in He. by injection He as <-.
        -- split; [done|]. by exists el'.
    + rewrite elem_of_cons, IH. split.
      * intros [->|(Hv & el' & Hin & He)].
        -- split; [done|]. exists el. split; [by left|done].
        -- split; [done|]. exists el'. split; [by right|done].
      * intros (Hv & el' & [->|Hin]%elem_of_cons & He).
        -- left. rewrite Hx in He. by injection He.
        -- right. split; [done|]. by exists el'.
  - rewrite IH. split.
    + intros (Hv & el' & Hin & He). split; [done|].
      exists el'. split; [by right|done].
    + intros (Hv & el' & [->|Hin]%elem_of_cons & He).
      * by rewrite Hx in He.
      * split; [done|]. by exists el'.
Qed.

Lemma collect_values_length page els field :
  (length (collect_values page els field) ≤ length els)%nat.
Proof.
  induction els as [|el els IH]; simpl; [done|].
  destruct (truthy _); simpl; lia.
Qed.

(** X18.  For a field with [multiple] set, [extract_fields] binds to the
    field's name, when the selector query succeeds, the list of the
    non-empty values of the matched elements: elements whose value is
    missing, empty or could not be read are left out, so the list can
    be shorter than the match and never holds an empty string.  When
    the query raises, it binds the field's [default_value] instead of a
    list. *)
Theorem multiple_field_collects_non_empty_values
    (page : Page) (fs : list FieldConfig) (field : FieldConfig) :
  multiple field = true →
  NoDup (name <$> fs) → field ∈ fs →
  match query_selector_all page (selector field) with
  | Ret els =>
      ∃ l, extract_fields page fs !! name field = Some (VList l) ∧
           (length l ≤ length els)%nat ∧
           ∀ v, v ∈ l ↔
                v ≠ "" ∧
                ∃ el, el ∈ els ∧
                      extract_element_value page el field = Some v
  | Raise _ =>
      extract_fields page fs !! name field
      = Some (of_optional (default_value field))
  end.
Proof.
  intros Hm Hnd Hin.
  assert (extract_fields page fs !! name field
          = Some (bound_value page field)) as ->.
  { by apply extract_fields_from_bound. }
  unfold bound_value, extract_single_field, extract_single_field_body.
  rewrite Hm. destruct (query_selector_all page (selector field)) as [els|e];
    [|done].
  eexists. split; [done|]. split; [apply collect_values_length|].
  apply collect_values_spec.
Qed.

Lemma multiple_field_collects_non_empty_values_witness :
  extract_fields blank_page [field_price; field_tags] !! name field_tags
  = Some (VList []).
Proof.
  assert (NoDup (name <$> [field_price; field_tags])) as Hnd
    by (apply (bool_decide_unpack _); vm_compute; exact I).
  assert (field_tags ∈ [field_price; field_tags]) as Hin
    by (right; left).
  pose proof (multiple_field_collects_non_empty_values blank_page
                [field_price; field_tags] field_tags eq_refl Hnd Hin) as H.
  simpl in H. destruct H as (l & Hl & Hlen & _).
  destruct l; [exact Hl|simpl in Hlen; lia].
Defined.

(* ===================================================================== *)
(** * tasks.py: a retry after a proxy failure                             *)
(* ===================================================================== *)

Lemma mark_proxy_failed_healthy_subseteq p pm k :
  k ∈ healthy_proxies (mark_proxy_failed p pm) → k ∈ healthy_proxies pm.
Proof.
  unfold mark_proxy_failed. destruct (proxies pm !! proxy_id p); simpl;
    [|done].
  destruct (list_mem _ _); simpl; [apply list_remove_subseteq|done].
Qed.

Lemma report_failed_avoids bad wk :
  (∃ pm, proxy_manager wk = Some pm ∧ pool_inv pm ∧
         bad ∉ healthy_proxies pm) →
  ∃ pm, proxy_manager (report_failed wk) = Some pm ∧ pool_inv pm ∧
        bad ∉ healthy_proxies pm.
Proof.
  intros (pm & Hpm & Hinv & Hbad). unfold report_failed. rewrite Hpm.
  destruct (current_proxy wk) as [p|]; [|by exists pm].
  exists (mark_proxy_failed p pm). split; [done|].
  split; [by apply mark_proxy_failed_inv|].
  intros Hin. by apply Hbad, (mark_proxy_failed_healthy_subseteq p).
Qed.

Lemma report_failed_counts wk :
  (failure_reports wk ≤ failure_reports (report_failed wk))%nat ∧
  (is_Some (current_proxy wk) → is_Some (proxy_manager wk) →
   failure_reports (report_failed wk) = S (failure_reports wk)).
Proof.
  unfold report_failed, failure_reports.
  destruct (current_proxy wk) as [p|], (proxy_manager wk) as [pm|];
    cbn [proxy_manager with_manager];
    try (split; [lia|by intros [? ?] [? ?]]).
  assert (failed_requests (stats (mark_proxy_failed p pm))
          = S (failed_requests (stats pm))) as ->.
  { unfold mark_proxy_failed. destruct (proxies pm !! proxy_id p); simpl;
      [by destruct (list_mem _ _)|done]. }
  split; [lia|done].
Qed.

Lemma acquire_proxy_avoids w cfg wk bad :
  (∃ pm, proxy_manager wk = Some pm ∧ pool_inv pm ∧
         bad ∉ healthy_proxies pm) →
  proxy_enabled (proxy cfg) = true →
  (∃ pm, proxy_manager (acquire_proxy w cfg wk).2 = Some pm ∧ pool_inv pm ∧
         bad ∉ healthy_proxies pm) ∧
  failure_reports (acquire_proxy w cfg wk).2 = failure_reports wk ∧
  ((acquire_proxy w cfg wk).1 = Ret tt →
   ∃ q, current_proxy (acquire_proxy w cfg wk).2 = Some q ∧
        proxy_id q ≠ bad).
Proof.
  intros (pm & Hpm & Hinv & Hbad) Hon. unfold acquire_proxy.
  rewrite Hon, Hpm.
  pose proof (get_proxy_inv (proxy_country (proxy cfg))
                (sticky_session (proxy cfg)) (clock w) pm Hinv) as Hinv'.
  pose proof (get_proxy_only_healthy (proxy_country (proxy cfg))
                (sticky_session (proxy cfg)) (clock w) pm) as Hserved.
  pose proof (stats_get_proxy (proxy_country (proxy cfg))
                (sticky_session (proxy cfg)) (clock w) pm) as Hst.
  destruct (get_proxy _ _ _ pm) as [[[q|]|e] pm'] eqn:Hg;
    apply get_proxy_spec in Hg as [Hh _]; simpl in *.
  - split; [|split].
    + exists pm'. by rewrite Hh.
    + unfold failure_reports. simpl. by rewrite Hst, Hpm.
    + intros _. exists q. split; [done|]. intros <-.
      by apply Hbad, Hserved.
  - split; [|split; [|done]].
    + exists pm'. by rewrite Hh.
    + unfold failure_reports. simpl. by rewrite Hst, Hpm.
  - split; [|split; [|done]].
    + exists pm'. by rewrite Hh.
    + unfold failure_reports. simpl. by rewrite Hst, Hpm.
Qed.

Lemma initialize_browser_avoids w cfg left wk bad :
  (∃ pm, proxy_manager wk = Some pm ∧ pool_inv pm ∧
         bad ∉ healthy_proxies pm) →
  proxy_enabled (proxy cfg) = true →
  let out := initialize_browser_with_proxy w cfg left wk in
  (∃ pm, proxy_manager out.2 = Some pm ∧ pool_inv pm ∧
         bad ∉ healthy_proxies pm) ∧
  (failure_reports wk ≤ failure_reports out.2)%nat ∧
  (out.1 = Ret tt →
   ∃ q, current_proxy out.2 = Some q ∧ proxy_id q ≠ bad).
Proof.
  intros Hav Hon. cbv zeta. revert wk Hav.
  induction left as [|left IH]; intros wk Hav;
    cbn [initialize_browser_with_proxy];
    destruct (acquire_proxy_avoids w cfg wk bad Hav Hon)
      as (Hav1 & Hf1 & Hq1);
    destruct (acquire_proxy w cfg wk) as [[[]|ea] wka]; simpl in *.
  - unfold launch_browser. destruct (launch w (launches wka)); simpl;
      (split; [done|]); (split; [unfold failure_reports in *; simpl; lia|]);
      [by intros _; apply Hq1|done].
  - split; [done|]. split; [lia|done].
  - unfold launch_browser. destruct (launch w (launches wka)); simpl.
    + split; [done|]. split; [unfold failure_reports in *; simpl; lia|].
      by intros _; apply Hq1.
    + set (wkl := mkWorker true _ _ _ _).
      assert (∃ pm, proxy_manager wkl = Some pm ∧ pool_inv pm ∧
                    bad ∉ healthy_proxies pm) as Havl by done.
      assert (failure_reports wkl = failure_reports wka) as Hfl by done.
      destruct (IH (cleanup (report_failed wkl))) as (Ha & Hf & Hq).
      { by apply report_failed_avoids in Havl. }
      split; [done|]. split; [|done].
      pose proof (proj1 (report_failed_counts wkl)) as Hc.
      unfold failure_reports in *. simpl in *. lia.
  - destruct (IH (cleanup (report_failed wka))) as (Ha & Hf & Hq).
    { by apply report_failed_avoids in Hav1. }
    split; [done|]. split; [|done].
    pose proof (proj1 (report_failed_counts wka)) as Hc.
    unfold failure_reports in *. simpl in *. lia.
Qed.

(** X19.  When an attempt fails with a proxy failure and a retry is
    left, the proxy in use is reported failed to the pool, the browser
    is brought up again, and the retry never runs on the failed proxy:
    the pool no longer lists it as healthy and the worker holds another
    endpoint.  If no browser can be brought up, the retry loop ends
    with the [browser_init] error.  Either way one warning is added. *)
Theorem proxy_failure_retry_switches_proxy
    (fuel : nat) (w : World) (cfg : TaskConfig) (rc : Z) (wk : Worker)
    (result : TaskResult) (m : string) (r : TaskResult)
    (p : ProxyEndpoint) (pm : ProxyManager) :
  (rc + 1 ≤ max_retries cfg)%Z →
  proxy_enabled (proxy cfg) = true →
  current_proxy wk = Some p → proxy_manager wk = Some pm → pool_inv pm →
  execute_scraping (session w (attempts wk)) cfg result
  = Some (Raise (ScrapingError m "proxy_failure" true), r) →
  ∃ wk2 pm2,
    proxy_manager wk2 = Some pm2 ∧
    (proxy_id p ∉ healthy_proxies pm2) ∧
    (failure_reports wk < failure_reports wk2)%nat ∧
    attempts wk2 = S (attempts wk) ∧
    (let r1 :=
       add_warning ("Retry " +:+ pretty (rc + 1)%Z +:+ ": " +:+ m) r in
     (retry_loop (S fuel) w cfg rc wk result
      = retry_loop fuel w cfg (rc + 1) wk2 r1 ∧
      ∃ q, current_proxy wk2 = Some q ∧ proxy_id q ≠ proxy_id p) ∨
     (∃ m', retry_loop (S fuel) w cfg rc wk result
            = Some (Raise (ScrapingError m' "browser_init" true), wk2, r1))).
Proof.
  intros Hrc Hon Hcp Hpm Hinv Hx.
  set (wk1 := cleanup (report_failed (count_attempt wk))).
  assert (∃ pm1, proxy_manager wk1 = Some pm1 ∧ pool_inv pm1 ∧
                 proxy_id p ∉ healthy_proxies pm1) as Hav.
  { exists (mark_proxy_failed p pm). unfold wk1, report_failed. simpl.
    rewrite Hcp, Hpm. simpl. split; [done|].
    split; [by apply mark_proxy_failed_inv|].
    by apply mark_proxy_failed_evicts. }
  assert (failure_reports wk1 = S (failure_reports wk)) as Hf1.
  { unfold wk1.
    destruct (report_failed_counts (count_attempt wk)) as [_ Hc].
    unfold failure_reports in *. simpl in *. apply Hc; simpl.
    - by rewrite Hcp. - by rewrite Hpm. }
  destruct (initialize_browser_avoids w cfg 3 wk1 (proxy_id p) Hav Hon)
    as ((pm2 & Hpm2 & _ & Hbad) & Hf2 & Hq).
  pose proof (initialize_browser_attempts w cfg 3 wk1) as Hat.
  assert (attempts wk1 = S (attempts wk)) as Hat1.
  { unfold wk1. simpl.
    by rewrite (proj1 (report_failed_attempts (count_attempt wk))). }
  assert (retry_loop (S fuel) w cfg rc wk result
          = match initialize_browser_with_proxy w cfg 3 wk1 with
            | (Raise e', wk2) =>
                Some (Raise e', wk2,
                      add_warning ("Retry " +:+ pretty (rc + 1)%Z +:+ ": "
                                   +:+ m) r)
            | (Ret _, wk2) =>
                retry_loop fuel w cfg (rc + 1) wk2
                  (add_warning ("Retry " +:+ pretty (rc + 1)%Z +:+ ": "
                                +:+ m) r)
            end) as Hstep.
  { cbn [retry_loop]. rewrite (proj2 (Z.leb_le _ _)) by lia. rewrite Hx.
    cbn [negb orb]. rewrite (proj2 (Z.ltb_ge _ _)) by lia.
    cbn [count_attempt current_proxy proxy_manager]. rewrite Hcp, Hpm.
    done. }
  destruct (initialize_browser_with_proxy w cfg 3 wk1) as [[[]|e'] wk2]
    eqn:Hi; cbn [fst snd] in *.
  - exists wk2, pm2. split_and!; try done; try lia.
    left. split; [done|]. by apply Hq.
  - exists wk2, pm2. split_and!; try done; try lia.
    right. apply initialize_browser_error in Hi as [m' ->]. eauto.
Qed.

Lemma proxy_failure_retry_switches_proxy_witness :
  ∃ wk2 pm2,
    proxy_manager wk2 = Some pm2 ∧
    proxy_id proxy_a ∉ healthy_proxies pm2.
Proof.
  assert (0 + 1 ≤ max_retries retry_task_config)%Z as Hrc
    by (vm_compute; discriminate).
  destruct (proxy_failure_retry_switches_proxy 0 blocked_world
              retry_task_config 0
              (mkWorker true (Some pool_ab) (Some proxy_a) 1 0)
              (fresh_result "task-1") _ _ proxy_a pool_ab Hrc eq_refl
              eq_refl eq_refl pool_ab_inv eq_refl)
    as (wk2 & pm2 & Hpm2 & Hbad & _).
  exists wk2, pm2. split; [exact Hpm2|exact Hbad].
Defined.

(* ===================================================================== *)
(** * task_schemas.py: the default template                               *)
(* ===================================================================== *)

(** X20.  The template that [get_default_task_config] returns passes
    [validate_task_config] whenever its URL passes the URL check; the
    validated configuration has pagination off, and a scraping attempt
    with it whose navigation succeeds records exactly one page dict,
    whose only key is [title]. *)
Theorem default_template_is_valid
    (is_http_url : string → bool) :
  is_http_url "https://example.com" = true →
  ∃ cfg,
    validate_task_config is_http_url get_default_task_config = Ret cfg ∧
    TaskConfig_ok cfg ∧
    enabled (pagination cfg) = false ∧
    ∀ s result, goto s = Ret tt →
      ∃ r d, execute_scraping s cfg result = Some (Ret tt, r) ∧
             grown_by result [d] [] r ∧
             dom d = {["title"]}.
Proof.
  intros Hurl.
  assert (∃ cfg, validate_task_config is_http_url get_default_task_config
                 = Ret cfg ∧
                 enabled (pagination cfg) = false ∧
                 (name <$> fields cfg) = ["title"]) as (cfg & Hv & Hoff & Hn).
  { unfold validate_task_config, validate_TaskConfig.
    cbn [raw_url get_default_task_config]. rewrite Hurl.
    eexists. split; [vm_compute; reflexivity|]. by split. }
  exists cfg. split; [done|].
  split; [by eapply validate_task_config_ok|]. split; [done|].
  intros s result Hgo.
  eexists _, (extract_fields (page_at s 1) (fields cfg)).
  unfold execute_scraping, navigate_to_page. rewrite Hgo.
  unfold page_fuel. cbn [scrape_pages].
  assert (∀ pg, has_next_page (pagination cfg) 1 pg = Ret false) as Hh.
  { intros pg. unfold has_next_page. by rewrite Hoff. }
  split.
  - destruct (Z.to_nat _); cbn [scrape_pages]; by rewrite Hh.
  - split; [apply grown_by_record_page|].
    unfold extract_fields. rewrite extract_fields_from_dom, Hn.
    set_solver.
Qed.

Lemma default_template_is_valid_witness :
  ∃ cfg,
    validate_task_config scheme_is_http get_default_task_config = Ret cfg ∧
    enabled (pagination cfg) = false.
Proof.
  destruct (default_template_is_valid scheme_is_http eq_refl)
    as (cfg & Hv & _ & Hoff & _).
  exists cfg. split; [exact Hv|exact Hoff].
Defined.

(* ===================================================================== *)
(** * proxies.py: the proxy report                                        *)
(* ===================================================================== *)

Lemma pool_ab_flags : healthy_flags pool_ab.
Proof.
  intros pid p Hin Hp.
  assert (pid = "10.0.0.1:8080" ∨ pid = "10.0.0.2:8080") as [-> | ->].
  { change (healthy_proxies pool_ab)
      with ["10.0.0.1:8080"; "10.0.0.2:8080"] in Hin.
    apply elem_of_cons in Hin as [->|Hin]; [by left|].
    apply elem_of_cons in Hin as [->|Hin]; [by right|].
    by apply elem_of_nil in Hin. }
  - assert (∃ q, proxies pool_ab !! "10.0.0.1:8080" = Some q ∧
                 is_healthy q = true ∧ failure_count q = 0%nat)
      as (q & Hl & Hq) by (eexists; split; [vm_compute; reflexivity|done]).
    rewrite Hl in Hp. by injection Hp as <-.
  - assert (∃ q, proxies pool_ab !! "10.0.0.2:8080" = Some q ∧
                 is_healthy q = true ∧ failure_count q = 0%nat)
      as (q & Hl & Hq) by (eexists; split; [vm_compute; reflexivity|done]).
    rewrite Hl in Hp. by injection Hp as <-.
Qed.

(** X21.  In a pool that is in order, [get_proxy_info] reports every
    known proxy once, as many entries as [get_stats] counts proxies;
    each entry's [endpoint] is [http://] followed by its [proxy_id];
    and every proxy of the healthy list is reported with
    [is_healthy = True] and [failure_count = 0]. *)
Theorem proxy_info_matches_pool (interval : Z) (pm : ProxyManager) :
  pool_inv pm → healthy_flags pm →
  length (get_proxy_info pm) = total_proxies (get_stats interval pm) ∧
  NoDup (info_proxy_id <$> get_proxy_info pm) ∧
  (∀ info, info ∈ get_proxy_info pm →
     info_endpoint info = "http://" +:+ info_proxy_id info) ∧
  (∀ pid, pid ∈ healthy_proxies pm →
     ∃ info, info ∈ get_proxy_info pm ∧ info_proxy_id info = pid ∧
             info_is_healthy info = true ∧ info_failure_count info = 0%nat).
Proof.
  intros Hinv Hfl. unfold get_proxy_info. split_and!.
  - rewrite length_fmap. simpl. apply length_map_to_list.
  - rewrite <- list_fmap_compose.
    apply (NoDup_fst_map_to_list (proxies pm)).
  - intros info [[pid p] [-> Hin]]%list_elem_of_fmap. simpl.
    apply elem_of_map_to_list in Hin.
    apply (inv_key pm Hinv) in Hin as <-. done.
  - intros pid Hin. destruct (inv_known pm Hinv pid Hin) as [p Hp].
    destruct (Hfl pid p Hin Hp) as [Hh Hc].
    exists (mkProxyInfo pid (endpoint p) (country p) (city p) (is_healthy p)
              (failure_count p) (last_used p) (response_time p)).
    split; [|by split_and!].
    apply list_elem_of_fmap. exists (pid, p). split; [done|].
    by apply elem_of_map_to_list.
Qed.

Lemma proxy_info_matches_pool_witness :
  length (get_proxy_info pool_ab) = total_proxies (get_stats 300 pool_ab).
Proof.
  exact (proj1 (proxy_info_matches_pool 300 pool_ab pool_ab_inv
                  pool_ab_flags)).
Defined.
